(** * The SVG asset generator [tools/generate_card_svgs.py]

    A shallow embedding of the script and the properties of its three
    template functions and of its driver [main].

    Conventions of the embedding.
    - A Python [str] is the byte string of its UTF-8 encoding, which is also
      what [open(..., 'w', encoding='utf-8')] writes to disk.  The four suit
      glyphs are three bytes each.  UTF-8 is self-synchronising, so one valid
      string occurs in another as a sequence of code points exactly when it
      occurs as a sequence of bytes.
    - A Python [int] is a [Z] (an instance of [int] itself: [bool], its
      subclass, is not modelled); [//] is floor division ([Z.div]).  An
      f-string field holding an [int] is its decimal rendering, which the
      interpreter (CPython 3.11 or later, with its default settings) refuses
      to make for an [int] of more than 4300 digits: [format_int] below.
    - Every Python function is a computation in the monad [M] below: it
      takes the world (file system, working directory, standard output), and
      returns the new world with either a value or the exception raised.
    - Line ends are POSIX: text mode writes [\n] as one byte. *)

From Stdlib Require Import ZArith Ascii.
From stdpp Require Import gmap strings list fin_maps pretty.

Local Open Scope Z_scope.

(** ** Strings *)

(** The double quote character, as a one-character string. *)
Definition Q : string := String "034"%char EmptyString.

(** The newline character, as a one-character string. *)
Definition nl : string := String "010"%char EmptyString.

(** Concatenation of the pieces of an f-string, left to right. *)
Fixpoint join (pieces : list string) : string :=
  match pieces with
  | [] => EmptyString
  | p :: rest => p +:+ join rest
  end.

(** The decimal rendering of an [int]: decimal digits, with a leading minus
    sign for a negative number ([str_digit], [str_step] and [str_negative]
    below).  It is what [str(n)] and the f-string field [{n}] give where
    the interpreter makes the conversion, see [format_int]; the fields that
    hold a constant of the script (a size of the module, a value of the
    table of chips, a count of files), of four digits at most, are written
    with it. *)
Definition str (n : Z) : string := pretty n.

(** The number of decimal digits of [n], the sign left out. *)
Definition digits (n : Z) : Z := Z.of_nat (String.length (str (Z.abs n))).

(** The limit of the interpreter on the conversion of an [int] to decimal
    text, [sys.get_int_max_str_digits()]: 4300 digits by default, and the
    script does not change it. *)
Definition int_max_str_digits : Z := 4300.

(** [s.startswith(pre)] *)
Fixpoint startswith (pre s : string) : bool :=
  match pre, s with
  | EmptyString, _ => true
  | String a pre', String b s' => if Ascii.eqb a b then startswith pre' s' else false
  | String _ _, EmptyString => false
  end.

(** [sub in s] for two strings. *)
Fixpoint contains (sub s : string) : bool :=
  startswith sub s ||
  match s with
  | EmptyString => false
  | String _ s' => contains sub s'
  end.

(** [s.count(sub)] for a non-empty [sub] whose occurrences cannot overlap
    is the number of positions of [s] at which [sub] starts. *)
Fixpoint occurrences (sub s : string) : nat :=
  match s with
  | EmptyString => 0%nat
  | String _ s' =>
      ((if startswith sub s then 1 else 0) + occurrences sub s')%nat
  end.

(** The propositional reading of [contains]. *)
Definition Substring (sub s : string) : Prop :=
  ∃ pre post, s = pre +:+ sub +:+ post.

(** ** Dictionaries

    A Python [dict] keeps its keys in insertion order, and [main] iterates
    over [SUITS.keys()]: a dictionary is the list of its items. *)
Definition dict (V : Type) : Type := list (string * V).

Fixpoint dict_get {V} (d : dict V) (k : string) : option V :=
  match d with
  | [] => None
  | (k', v) :: rest => if String.eqb k k' then Some v else dict_get rest k
  end.

Definition keys {V} (d : dict V) : list string := d.*1.

Definition len {A} (l : list A) : Z := Z.of_nat (length l).

(** ** Module constants *)

Definition CARD_WIDTH : Z := 140.
Definition CARD_HEIGHT : Z := 190.
Definition CORNER_RADIUS : Z := 10.

Definition RED : string := "#CC1111".
Definition BLACK : string := "#111111".
Definition WHITE : string := "#FFFFFF".
Definition CARD_BACK_COLOR : string := "#2E4A7D".
Definition CARD_BACK_PATTERN : string := "#3D5A8D".

Definition SUITS : dict (string * string * string) :=
  [ ("h", ("Hearts", RED, "♥"));
    ("d", ("Diamonds", RED, "♦"));
    ("c", ("Clubs", BLACK, "♣"));
    ("s", ("Spades", BLACK, "♠")) ].

Definition RANKS : list string :=
  ["2"; "3"; "4"; "5"; "6"; "7"; "8"; "9"; "T"; "J"; "Q"; "K"; "A"].

Definition RANK_DISPLAY : dict string :=
  [ ("T", "10"); ("J", "J"); ("Q", "Q"); ("K", "K"); ("A", "A");
    ("2", "2"); ("3", "3"); ("4", "4"); ("5", "5"); ("6", "6");
    ("7", "7"); ("8", "8"); ("9", "9") ].

(** ** Paths, the file system and the world *)

(** A [pathlib] path: whether it is anchored at the root, and its parts
    after the anchor.  [pathlib] drops empty parts and [.] and keeps [..]. *)
Record Path := mkPath { is_absolute : bool; parts : list string }.

(** The parts of a string between slashes, [cur] being the part read so
    far. *)
Fixpoint components (s cur : string) : list string :=
  match s with
  | EmptyString => [cur]
  | String c s' =>
      if Ascii.eqb c "/"%char then cur :: components s' EmptyString
      else components s' (cur +:+ String c EmptyString)
  end.

Definition parse_parts (s : string) : list string :=
  filter (λ c, c ≠ EmptyString ∧ c ≠ ".") (components s EmptyString).

(** [p / s]: an absolute [s] replaces [p], a relative one is appended. *)
Definition truediv (p : Path) (s : string) : Path :=
  if startswith "/" s then mkPath true (parse_parts s)
  else mkPath (is_absolute p) (parts p ++ parse_parts s).

Notation "p </> s" := (truediv p s) (at level 40, left associativity).

(** [str(p)]. *)
Fixpoint join_slash (l : list string) : string :=
  match l with
  | [] => EmptyString
  | [x] => x
  | x :: rest => x +:+ "/" +:+ join_slash rest
  end.

Definition path_str (p : Path) : string :=
  if is_absolute p then "/" +:+ join_slash (parts p)
  else match parts p with [] => "." | l => join_slash l end.

(** A node of the file system: a directory or a regular file with its
    bytes.  (No symbolic links, no permissions: the model is a writable
    POSIX tree.) *)
Inductive node :=
  | Dir
  | File (content : string).

(** A location is the list of names from the root, without [.] and [..].
    The file system maps locations to nodes; the root is [[]]. *)
Abbreviation loc := (list string).

Record world := mkWorld {
  fs : gmap (list string) node;
  cwd : loc;
  stdout : list string
}.

(** The exceptions the script can meet. *)
Inductive exn :=
  | KeyError (key : string)
  | FileNotFoundError
  | FileExistsError
  | NotADirectoryError
  | IsADirectoryError
  | ValueError.

Inductive outcome (A : Type) :=
  | Ok (a : A)
  | Raise (e : exn).
Arguments Ok {A} a.
Arguments Raise {A} e.

(** A Python computation. *)
Definition M (A : Type) : Type := world → world * outcome A.

Definition ret {A} (a : A) : M A := λ w, (w, Ok a).
Definition raise {A} (e : exn) : M A := λ w, (w, Raise e).
Definition bind {A B} (m : M A) (k : A → M B) : M B :=
  λ w, match m w with
       | (w', Ok a) => k a w'
       | (w', Raise e) => (w', Raise e)
       end.

(** [try: m  except ...: handler e] *)
Definition try_except {A} (m : M A) (handler : exn → M A) : M A :=
  λ w, match m w with
       | (w', Ok a) => (w', Ok a)
       | (w', Raise e) => handler e w'
       end.

Global Instance M_ret : MRet M := @ret.
Global Instance M_bind : MBind M := λ A B k m, bind m k.

(** [for x in xs: body x] *)
Fixpoint for_ {X} (xs : list X) (body : X → M unit) : M unit :=
  match xs with
  | [] => ret tt
  | x :: rest => body x;; for_ rest body
  end.

(** [d[k]] *)
Definition getitem {V} (d : dict V) (k : string) : M V :=
  match dict_get d k with
  | Some v => ret v
  | None => raise (KeyError k)
  end.

(** [str(n)] and the f-string field [{n}] for an [int] that is not known
    beforehand: [ValueError] when [n] has more digits than the limit. *)
Definition format_int (n : Z) : M string :=
  if decide (digits n ≤ int_max_str_digits) then ret (str n)
  else raise ValueError.

(** [print(s)]: one more line on standard output. *)
Definition print (s : string) : M unit :=
  λ w, (mkWorld (fs w) (cwd w) (stdout w ++ [s]), Ok tt).

(** *** System calls

    [walk t cur names] resolves [names] from the directory [cur] the way
    the kernel does: every directory it passes through must exist, [..]
    climbs to the parent (the root is its own parent).  The location it
    returns need not exist. *)
Definition up (l : loc) : loc := removelast l.

Fixpoint walk (t : gmap (list string) node) (cur : loc) (names : list string)
    : outcome loc :=
  match names with
  | [] => Ok cur
  | c :: rest =>
      match t !! cur with
      | Some Dir => walk t (if decide (c = "..") then up cur else cur ++ [c]) rest
      | Some (File _) => Raise NotADirectoryError
      | None => Raise FileNotFoundError
      end
  end.

Definition locate (w : world) (p : Path) : outcome loc :=
  walk (fs w) (if is_absolute p then [] else cwd w) (parts p).

Definition set_fs (w : world) (t : gmap (list string) node) : world :=
  mkWorld t (cwd w) (stdout w).

(** [os.mkdir(p)] *)
Definition os_mkdir (p : Path) : M unit :=
  λ w, match locate w p with
       | Raise e => (w, Raise e)
       | Ok l =>
           match fs w !! l with
           | Some _ => (w, Raise FileExistsError)
           | None => (set_fs w (<[l := Dir]> (fs w)), Ok tt)
           end
       end.

(** [p.is_dir()] *)
Definition Path_is_dir (p : Path) : M bool :=
  λ w, (w, Ok match locate w p with
              | Ok l => match fs w !! l with Some Dir => true | _ => false end
              | Raise _ => false
              end).

(** [p.absolute()]: a relative path is put below the working directory. *)
Definition absolute_in (w : world) (p : Path) : Path :=
  if is_absolute p then p else mkPath true (cwd w ++ parts p).

Definition Path_absolute (p : Path) : M Path := λ w, (w, Ok (absolute_in w p)).

(** [p.mkdir(parents=False, exist_ok=exist_ok)], as [pathlib] defines it:
    [FileNotFoundError] is raised again; any other [OSError] is raised
    again unless [exist_ok] holds and [p] is a directory. *)
Definition mkdir_flat (p : Path) (exist_ok : bool) : M unit :=
  try_except (os_mkdir p) (λ e,
    match e with
    | FileNotFoundError | KeyError _ | ValueError => raise e
    | _ =>
        if exist_ok then (Path_is_dir p ≫= λ d : bool, if d then ret tt else raise e)
        else raise e
    end).

(** [p.mkdir(parents=True, exist_ok=exist_ok)] for the path whose parts
    are [rev rparts]: on [FileNotFoundError] the parent is made first (with
    [parents=True, exist_ok=True]) and [p] is then made without [parents];
    a path that is its own parent raises the error again. *)
Fixpoint mkdir_parents (anchored : bool) (rparts : list string)
    (exist_ok : bool) : M unit :=
  let self := mkPath anchored (rev rparts) in
  try_except (os_mkdir self) (λ e,
    match e with
    | KeyError _ | ValueError => raise e
    | FileNotFoundError =>
        match rparts with
        | [] => raise e
        | _ :: rparent =>
            mkdir_parents anchored rparent true;; mkdir_flat self exist_ok
        end
    | _ =>
        if exist_ok then (Path_is_dir self ≫= λ d : bool, if d then ret tt else raise e)
        else raise e
    end).

Definition Path_mkdir (p : Path) (parents exist_ok : bool) : M unit :=
  if parents then mkdir_parents (is_absolute p) (rev (parts p)) exist_ok
  else mkdir_flat p exist_ok.

(** [open(p, 'w', encoding='utf-8')]: the file is created, or emptied when
    it exists; the file object is the location of the file. *)
Definition open_w (p : Path) : M loc :=
  λ w, match locate w p with
       | Raise e => (w, Raise e)
       | Ok l =>
           match fs w !! l with
           | Some Dir => (w, Raise IsADirectoryError)
           | _ => (set_fs w (<[l := File EmptyString]> (fs w)), Ok l)
           end
       end.

(** [f.write(s)], with the flush at the end of the [with] block. *)
Definition write (f : loc) (s : string) : M unit :=
  λ w, match fs w !! f with
       | Some (File c) => (set_fs w (<[f := File (c +:+ s)]> (fs w)), Ok tt)
       | _ => (w, Ok tt)
       end.

(** ** The three template functions *)

(** [generate_card_svg(rank, suit)] *)
Definition generate_card_svg (rank suit : string) : M string :=
  '(suit_name, color, symbol) ← getitem SUITS suit;
  rank_display ← getitem RANK_DISPLAY rank;
  let svg := join [
      "<?xml version="; Q; "1.0"; Q; " encoding="; Q; "UTF-8"; Q; "?>"; nl;
      "<svg width="; Q; str CARD_WIDTH; Q; " height="; Q; str CARD_HEIGHT; Q; " xmlns="; Q; "http://www.w3.org/2000/svg"; Q; ">"; nl;
      "  <!-- Card background -->"; nl;
      "  <rect x="; Q; "1"; Q; " y="; Q; "1"; Q; " width="; Q; str (CARD_WIDTH - 2); Q; " height="; Q; str (CARD_HEIGHT - 2); Q; " "; nl;
      "        rx="; Q; str CORNER_RADIUS; Q; " ry="; Q; str CORNER_RADIUS; Q; " "; nl;
      "        fill="; Q; WHITE; Q; " stroke="; Q; "#CCCCCC"; Q; " stroke-width="; Q; "1"; Q; "/>"; nl;
      "  "; nl;
      "  <!-- Top-left rank -->"; nl;
      "  <text x="; Q; "8"; Q; " y="; Q; "28"; Q; " font-family="; Q; "Arial, sans-serif"; Q; " font-size="; Q; "22"; Q; " "; nl;
      "        font-weight="; Q; "bold"; Q; " fill="; Q; color; Q; ">"; rank_display; "</text>"; nl;
      "  "; nl;
      "  <!-- Top-left suit -->"; nl;
      "  <text x="; Q; "10"; Q; " y="; Q; "50"; Q; " font-family="; Q; "Arial, sans-serif"; Q; " font-size="; Q; "20"; Q; " "; nl;
      "        fill="; Q; color; Q; ">"; symbol; "</text>"; nl;
      "  "; nl;
      "  <!-- Center suit (large) -->"; nl;
      "  <text x="; Q; str (CARD_WIDTH `div` 2); Q; " y="; Q; str (CARD_HEIGHT `div` 2 + 20); Q; " "; nl;
      "        font-family="; Q; "Arial, sans-serif"; Q; " font-size="; Q; "60"; Q; " "; nl;
      "        text-anchor="; Q; "middle"; Q; " fill="; Q; color; Q; ">"; symbol; "</text>"; nl;
      "  "; nl;
      "  <!-- Bottom-right rank (rotated) -->"; nl;
      "  <g transform="; Q; "rotate(180 "; str (CARD_WIDTH `div` 2); " "; str (CARD_HEIGHT `div` 2); ")"; Q; ">"; nl;
      "    <text x="; Q; "8"; Q; " y="; Q; "28"; Q; " font-family="; Q; "Arial, sans-serif"; Q; " font-size="; Q; "22"; Q; " "; nl;
      "          font-weight="; Q; "bold"; Q; " fill="; Q; color; Q; ">"; rank_display; "</text>"; nl;
      "    <text x="; Q; "10"; Q; " y="; Q; "50"; Q; " font-family="; Q; "Arial, sans-serif"; Q; " font-size="; Q; "20"; Q; " "; nl;
      "          fill="; Q; color; Q; ">"; symbol; "</text>"; nl;
      "  </g>"; nl;
      "</svg>" ] in
  ret svg.

(** [generate_card_back_svg()] *)
Definition generate_card_back_svg : M string :=
  let pattern_size := 10 in
  let svg := join [
      "<?xml version="; Q; "1.0"; Q; " encoding="; Q; "UTF-8"; Q; "?>"; nl;
      "<svg width="; Q; str CARD_WIDTH; Q; " height="; Q; str CARD_HEIGHT; Q; " xmlns="; Q; "http://www.w3.org/2000/svg"; Q; ">"; nl;
      "  <defs>"; nl;
      "    <pattern id="; Q; "checker"; Q; " width="; Q; str (pattern_size * 2); Q; " height="; Q; str (pattern_size * 2); Q; " patternUnits="; Q; "userSpaceOnUse"; Q; ">"; nl;
      "      <rect width="; Q; str pattern_size; Q; " height="; Q; str pattern_size; Q; " fill="; Q; CARD_BACK_COLOR; Q; "/>"; nl;
      "      <rect x="; Q; str pattern_size; Q; " width="; Q; str pattern_size; Q; " height="; Q; str pattern_size; Q; " fill="; Q; CARD_BACK_PATTERN; Q; "/>"; nl;
      "      <rect y="; Q; str pattern_size; Q; " width="; Q; str pattern_size; Q; " height="; Q; str pattern_size; Q; " fill="; Q; CARD_BACK_PATTERN; Q; "/>"; nl;
      "      <rect x="; Q; str pattern_size; Q; " y="; Q; str pattern_size; Q; " width="; Q; str pattern_size; Q; " height="; Q; str pattern_size; Q; " fill="; Q; CARD_BACK_COLOR; Q; "/>"; nl;
      "    </pattern>"; nl;
      "  </defs>"; nl;
      "  "; nl;
      "  <!-- Card background with pattern -->"; nl;
      "  <rect x="; Q; "1"; Q; " y="; Q; "1"; Q; " width="; Q; str (CARD_WIDTH - 2); Q; " height="; Q; str (CARD_HEIGHT - 2); Q; " "; nl;
      "        rx="; Q; str CORNER_RADIUS; Q; " ry="; Q; str CORNER_RADIUS; Q; " "; nl;
      "        fill="; Q; "url(#checker)"; Q; "/>"; nl;
      "  "; nl;
      "  <!-- Border -->"; nl;
      "  <rect x="; Q; "1"; Q; " y="; Q; "1"; Q; " width="; Q; str (CARD_WIDTH - 2); Q; " height="; Q; str (CARD_HEIGHT - 2); Q; " "; nl;
      "        rx="; Q; str CORNER_RADIUS; Q; " ry="; Q; str CORNER_RADIUS; Q; " "; nl;
      "        fill="; Q; "none"; Q; " stroke="; Q; WHITE; Q; " stroke-width="; Q; "3"; Q; "/>"; nl;
      "  "; nl;
      "  <!-- Inner border -->"; nl;
      "  <rect x="; Q; "8"; Q; " y="; Q; "8"; Q; " width="; Q; str (CARD_WIDTH - 16); Q; " height="; Q; str (CARD_HEIGHT - 16); Q; " "; nl;
      "        rx="; Q; "5"; Q; " ry="; Q; "5"; Q; " "; nl;
      "        fill="; Q; "none"; Q; " stroke="; Q; WHITE; Q; " stroke-width="; Q; "1"; Q; " opacity="; Q; "0.5"; Q; "/>"; nl;
      "  "; nl;
      "  <!-- Center decoration -->"; nl;
      "  <circle cx="; Q; str (CARD_WIDTH `div` 2); Q; " cy="; Q; str (CARD_HEIGHT `div` 2); Q; " r="; Q; "25"; Q; " "; nl;
      "          fill="; Q; WHITE; Q; "/>"; nl;
      "  <circle cx="; Q; str (CARD_WIDTH `div` 2); Q; " cy="; Q; str (CARD_HEIGHT `div` 2); Q; " r="; Q; "20"; Q; " "; nl;
      "          fill="; Q; CARD_BACK_COLOR; Q; "/>"; nl;
      "  <text x="; Q; str (CARD_WIDTH `div` 2); Q; " y="; Q; str (CARD_HEIGHT `div` 2 + 8); Q; " "; nl;
      "        font-family="; Q; "Arial, sans-serif"; Q; " font-size="; Q; "24"; Q; " font-weight="; Q; "bold"; Q; nl;
      "        text-anchor="; Q; "middle"; Q; " fill="; Q; WHITE; Q; ">♠</text>"; nl;
      "</svg>" ] in
  ret svg.

(** [generate_chip_svg(value, color, text_color=WHITE)]; [None] is the call
    that leaves the third argument out.  [{value}] is the one field of the
    f-string that can raise; no field has an effect, so that converting it
    before the others gives the result of the f-string. *)
Definition generate_chip_svg (value : Z) (color : string)
    (text_color_arg : option string) : M string :=
  let text_color := default WHITE text_color_arg in
  let size := 80 in
  let '(cx, cy) := (size `div` 2, size `div` 2) in
  let radius := size `div` 2 - 2 in
  value_text ← format_int value;
  let svg := join [
      "<?xml version="; Q; "1.0"; Q; " encoding="; Q; "UTF-8"; Q; "?>"; nl;
      "<svg width="; Q; str size; Q; " height="; Q; str size; Q; " xmlns="; Q; "http://www.w3.org/2000/svg"; Q; ">"; nl;
      "  <!-- Main chip -->"; nl;
      "  <circle cx="; Q; str cx; Q; " cy="; Q; str cy; Q; " r="; Q; str radius; Q; " fill="; Q; color; Q; "/>"; nl;
      "  "; nl;
      "  <!-- Edge ring -->"; nl;
      "  <circle cx="; Q; str cx; Q; " cy="; Q; str cy; Q; " r="; Q; str radius; Q; " fill="; Q; "none"; Q; " "; nl;
      "          stroke="; Q; "#000000"; Q; " stroke-width="; Q; "5"; Q; " opacity="; Q; "0.3"; Q; "/>"; nl;
      "  <circle cx="; Q; str cx; Q; " cy="; Q; str cy; Q; " r="; Q; str (radius - 5); Q; " fill="; Q; "none"; Q; " "; nl;
      "          stroke="; Q; WHITE; Q; " stroke-width="; Q; "2"; Q; " opacity="; Q; "0.5"; Q; "/>"; nl;
      "  "; nl;
      "  <!-- Edge stripes -->"; nl;
      "  <g stroke="; Q; WHITE; Q; " stroke-width="; Q; "3"; Q; " opacity="; Q; "0.7"; Q; ">"; nl;
      "    <line x1="; Q; str cx; Q; " y1="; Q; "2"; Q; " x2="; Q; str cx; Q; " y2="; Q; "12"; Q; "/>"; nl;
      "    <line x1="; Q; str cx; Q; " y1="; Q; str (size - 2); Q; " x2="; Q; str cx; Q; " y2="; Q; str (size - 12); Q; "/>"; nl;
      "    <line x1="; Q; "2"; Q; " y1="; Q; str cy; Q; " x2="; Q; "12"; Q; " y2="; Q; str cy; Q; "/>"; nl;
      "    <line x1="; Q; str (size - 2); Q; " y1="; Q; str cy; Q; " x2="; Q; str (size - 12); Q; " y2="; Q; str cy; Q; "/>"; nl;
      "  </g>"; nl;
      "  "; nl;
      "  <!-- Center circle -->"; nl;
      "  <circle cx="; Q; str cx; Q; " cy="; Q; str cy; Q; " r="; Q; "18"; Q; " fill="; Q; WHITE; Q; "/>"; nl;
      "  <circle cx="; Q; str cx; Q; " cy="; Q; str cy; Q; " r="; Q; "15"; Q; " fill="; Q; color; Q; "/>"; nl;
      "  "; nl;
      "  <!-- Value text -->"; nl;
      "  <text x="; Q; str cx; Q; " y="; Q; str (cy + 6); Q; " font-family="; Q; "Arial, sans-serif"; Q; " "; nl;
      "        font-size="; Q; "14"; Q; " font-weight="; Q; "bold"; Q; " text-anchor="; Q; "middle"; Q; " "; nl;
      "        fill="; Q; text_color; Q; ">"; value_text; "</text>"; nl;
      "</svg>" ] in
  ret svg.

(** ** The driver *)

(** The local table [chips] of [main]. *)
Definition chips : list (Z * string * string) :=
  [ (1, "#FFFFFF", BLACK);
    (5, "#CC1111", WHITE);
    (25, "#118811", WHITE);
    (100, "#111111", WHITE);
    (500, "#880088", WHITE);
    (1000, "#FFD700", BLACK) ].

(** [main()], with [script_dir] standing for [Path(__file__).parent]. *)
Definition main (script_dir : Path) : M unit :=
  let cards_dir := script_dir </> "../client/Assets/Resources/Cards" in
  let chips_dir := script_dir </> "../client/Assets/Resources/Chips" in
  Path_mkdir cards_dir true true;;
  Path_mkdir chips_dir true true;;
  print "Generating card SVGs...";;
  for_ (keys SUITS) (λ suit,
    for_ RANKS (λ rank,
      let filename := join [rank; suit; ".svg"] in
      svg_content ← generate_card_svg rank suit;
      let filepath := cards_dir </> filename in
      (f ← open_w filepath; write f svg_content);;
      print (join ["  Created "; filename])));;
  print "Generating card back...";;
  (f ← open_w (cards_dir </> "card_back.svg");
   svg ← generate_card_back_svg; write f svg);;
  print "  Created card_back.svg";;
  print "Generating chip SVGs...";;
  for_ chips (λ '(value, color, text_color),
    let filename := join ["chip_"; str value; ".svg"] in
    svg_content ← generate_chip_svg value color (Some text_color);
    let filepath := chips_dir </> filename in
    (f ← open_w filepath; write f svg_content);;
    print (join ["  Created "; filename]));;
  let total := len SUITS * len RANKS + 1 + len chips in
  print (join [nl; "Generated "; str total; " SVG files:"]);;
  print (join ["  - "; str (len SUITS * len RANKS); " card faces"]);;
  print "  - 1 card back";;
  print (join ["  - "; str (len chips); " chips"]);;
  print (join [nl; "Output directories:"]);;
  (a ← Path_absolute cards_dir; print (join ["  Cards: "; path_str a]));;
  (a ← Path_absolute chips_dir; print (join ["  Chips: "; path_str a])).

(** ** Vocabulary of the statements *)

(** A world with nothing in it, to name the result of a call that does not
    look at the world. *)
Definition nowhere : world := mkWorld ∅ [] [].

Definition result_of {A} (m : M A) : outcome A := (m nowhere).2.

(** The document a template function returns, the empty string when it
    raises. *)
Definition document (m : M string) : string :=
  match result_of m with Ok doc => doc | Raise _ => EmptyString end.

(** The XML declaration and the start tag of the root element of a document
    that declares the size [width] by [height]. *)
Definition svg_header (width height : Z) : string :=
  join [ "<?xml version="; Q; "1.0"; Q; " encoding="; Q; "UTF-8"; Q; "?>"; nl;
         "<svg width="; Q; str width; Q; " height="; Q; str height; Q;
         " xmlns="; Q; "http://www.w3.org/2000/svg"; Q; ">" ].

Definition declares_size (width height : Z) (doc : string) : Prop :=
  ∃ rest, doc = svg_header width height +:+ rest.

(** The end of a [text] element filled with [color] whose content is
    [content]. *)
Definition text_in (color content : string) : string :=
  join [ "fill="; Q; color; Q; ">"; content; "</text>" ].

(** The attribute [fill] with the value [color]. *)
Definition fill_attr (color : string) : string := join [ "fill="; Q; color; Q ].

(** The display string of a rank, in the words of the specification: ten
    is [10], every other rank is its own letter or digit. *)
Definition spec_rank_display (rank : string) : string :=
  if String.eqb rank "T" then "10" else rank.

(** The rank and suit codes the specification lists. *)
Definition spec_ranks : list string :=
  ["2"; "3"; "4"; "5"; "6"; "7"; "8"; "9"; "T"; "J"; "Q"; "K"; "A"].
Definition spec_suits : list string := ["h"; "d"; "c"; "s"].
Definition spec_chip_values : list Z := [1; 5; 25; 100; 500; 1000].

(** The check of one card face, as a computation. *)
Definition card_face_ok (rank suit : string) : bool :=
  match dict_get SUITS suit, result_of (generate_card_svg rank suit) with
  | Some (_, color, glyph), Ok doc =>
      startswith (svg_header 140 190) doc
      && contains (text_in color (spec_rank_display rank)) doc
      && contains (text_in color glyph) doc
      && (occurrences (text_in color (spec_rank_display rank)) doc =? 2)%nat
      && (occurrences (text_in color glyph) doc =? 3)%nat
      && (occurrences "</text>" doc =? 5)%nat
  | _, _ => false
  end.

(** The claim that the card back holds no rank display string and no suit
    glyph of the tables. *)
Definition back_free_of_ranks_and_suits (doc : string) : Prop :=
  (∀ rank display, dict_get RANK_DISPLAY rank = Some display →
     ¬ Substring display doc) ∧
  (∀ suit suit_name color glyph,
     dict_get SUITS suit = Some (suit_name, color, glyph) →
     ¬ Substring glyph doc).

(** *** The driver's effect in closed form *)

Definition is_dir (t : gmap (list string) node) (l : loc) : bool :=
  match t !! l with Some Dir => true | _ => false end.

Definition free_or_dir (t : gmap (list string) node) (l : loc) : bool :=
  match t !! l with Some (File _) => false | _ => true end.

(** The directory is made unless something is there. *)
Definition make_dir (t : gmap (list string) node) (l : loc)
    : gmap (list string) node :=
  match t !! l with None => <[l := Dir]> t | Some _ => t end.

(** The file is written, over what was there. *)
Definition put_file (t : gmap (list string) node) (f : loc * string)
    : gmap (list string) node :=
  <[f.1 := File f.2]> t.

(** The locations [l/n1], [l/n1/n2], ... up to [l/n1/.../nk]. *)
Fixpoint descend (l : loc) (names : list string) : list loc :=
  match names with
  | [] => []
  | n :: rest => (l ++ [n]) :: descend (l ++ [n]) rest
  end.

(** The output tree below [base], the directory that holds the directory
    of the script. *)
Definition resources_loc (base : loc) : loc :=
  base ++ ["client"; "Assets"; "Resources"].
Definition cards_loc (base : loc) : loc := resources_loc base ++ ["Cards"].
Definition chips_loc (base : loc) : loc := resources_loc base ++ ["Chips"].

Definition tree_locs (base : loc) : list loc :=
  descend base ["client"; "Assets"; "Resources"; "Cards"] ++ [chips_loc base].

(** The faces in the order the driver makes them: suit by suit. *)
Definition card_faces : list (string * string) :=
  suit ← keys SUITS; rank ← RANKS; [(rank, suit)].

Definition card_name (face : string * string) : string :=
  join [face.1; face.2; ".svg"].

Definition chip_name (chip : Z * string * string) : string :=
  join ["chip_"; str chip.1.1; ".svg"].

(** The files of a run, name and content, in the order of writing. *)
Definition card_outputs : list (string * string) :=
  map (λ face, (card_name face, document (generate_card_svg face.1 face.2)))
    card_faces
  ++ [("card_back.svg", document generate_card_back_svg)].

Definition chip_outputs : list (string * string) :=
  map (λ chip, (chip_name chip,
                document (generate_chip_svg chip.1.1 chip.1.2 (Some chip.2))))
    chips.

Definition outputs (base : loc) : list (loc * string) :=
  map (λ f, (cards_loc base ++ [f.1], f.2)) card_outputs
  ++ map (λ f, (chips_loc base ++ [f.1], f.2)) chip_outputs.

Definition fs_after_main (t : gmap (list string) node) (base : loc)
    : gmap (list string) node :=
  foldl put_file (foldl make_dir t (tree_locs base)) (outputs base).

(** The lines of a run on standard output. *)
Definition created (name : string) : string := join ["  Created "; name].

Definition report (cards_abs chips_abs : Path) : list string :=
  ["Generating card SVGs..."]
  ++ map (λ face, created (card_name face)) card_faces
  ++ ["Generating card back..."; "  Created card_back.svg";
      "Generating chip SVGs..."]
  ++ map (λ chip, created (chip_name chip)) chips
  ++ [nl +:+ "Generated 59 SVG files:";
      "  - 52 card faces";
      "  - 1 card back";
      "  - 6 chips";
      nl +:+ "Output directories:";
      join ["  Cards: "; path_str cards_abs];
      join ["  Chips: "; path_str chips_abs]].

Definition world_after_main (script_dir : Path) (w : world) (base : loc)
    : world :=
  mkWorld (fs_after_main (fs w) base) (cwd w)
    (stdout w
     ++ report
          (absolute_in w (script_dir </> "../client/Assets/Resources/Cards"))
          (absolute_in w (script_dir </> "../client/Assets/Resources/Chips"))).

(** What a run needs of the world: the directory of the script and the
    directory that holds it exist, nothing on the way to the two output
    directories is a regular file, and no output file is a directory. *)
Definition ready (script_dir : Path) (w : world) : bool :=
  match locate w script_dir with
  | Ok here =>
      is_dir (fs w) here && is_dir (fs w) (up here)
      && forallb (free_or_dir (fs w)) (tree_locs (up here))
      && forallb (λ f, negb (is_dir (fs w) f.1)) (outputs (up here))
  | Raise _ => false
  end.

(** The directory that holds the directory of the script. *)
Definition base_of (script_dir : Path) (w : world) : loc :=
  match locate w script_dir with Ok here => up here | Raise _ => [] end.

(** A file system is a tree: the root is a directory and what exists lies
    in a directory. *)
Definition tree (t : gmap (list string) node) : Prop :=
  t !! [] = Some Dir ∧ ∀ l n, is_Some (t !! (l ++ [n])) → t !! l = Some Dir.

(** The file names of a run, in the words of the specification. *)
Definition spec_card_files : list string :=
  (rank ← spec_ranks; suit ← spec_suits; [join [rank; suit; ".svg"]])
  ++ ["card_back.svg"].

Definition spec_chip_files : list string :=
  (λ value, join ["chip_"; str value; ".svg"]) <$> spec_chip_values.

(** A file name that is one part of a path and not [..]. *)
Definition plain_name (n : string) : bool :=
  bool_decide (parse_parts n = [n]) && bool_decide (n ≠ "..")
  && negb (startswith "/" n).

(** A computation that raises no [KeyError], in whatever world. *)
Definition no_KeyError {A} (m : M A) : Prop :=
  ∀ w key, (m w).2 ≠ Raise (KeyError key).

(** The check that a file system is a tree, as a computation. *)
Definition tree_check (t : gmap (list string) node) : bool :=
  is_dir t [] && forallb (λ entry, is_dir t (up entry.1)) (map_to_list t).

(** A small world: the script lies in [/srv/game/tools], nothing of the
    output tree exists yet, and the interpreter runs in [/srv/game]. *)
Definition example_script_dir : Path := mkPath true ["srv"; "game"; "tools"].

Definition example_world : world :=
  mkWorld
    {[ [] := Dir; ["srv"] := Dir; ["srv"; "game"] := Dir;
       ["srv"; "game"; "tools"] := Dir;
       ["srv"; "game"; "tools"; "generate_card_svgs.py"] := File "#!" ]}
    ["srv"; "game"] [].

(** No directory is lost from [t] to [t']. *)
Definition keeps_dirs (t t' : gmap (list string) node) : Prop :=
  ∀ l, t !! l = Some Dir → t' !! l = Some Dir.

(** *** What a run leaves alone *)

(** From [w] to [w'] nothing is lost: the working directory is the same,
    standard output has only got longer, a directory is still a directory
    and a regular file is still a regular file. *)
Definition grows (w w' : world) : Prop :=
  cwd w' = cwd w ∧
  (∃ more, stdout w' = stdout w ++ more) ∧
  ∀ l, match fs w !! l with
       | Some Dir => fs w' !! l = Some Dir
       | Some (File _) => ∃ c, fs w' !! l = Some (File c)
       | None => True
       end.

(** A computation that loses nothing, whatever its outcome. *)
Definition never_shrinks {A} (m : M A) : Prop := ∀ w, grows w (m w).1.

(** From [w] to [w'] the only changes are directories of [dirs] made where
    nothing was, and files of [files] written, with these bytes, where no
    directory was. *)
Definition changes (dirs : list loc) (files : list (loc * string))
    (w w' : world) : Prop :=
  cwd w' = cwd w ∧
  ∀ l, fs w' !! l = fs w !! l
     ∨ (l ∈ dirs ∧ fs w !! l = None ∧ fs w' !! l = Some Dir)
     ∨ (∃ c, (l, c) ∈ files ∧ fs w !! l ≠ Some Dir ∧ fs w' !! l = Some (File c)).

(** The directory of the script stands at [here], and the directory that
    holds it exists. *)
Definition anchored (script_dir : Path) (here : loc) (w : world) : Prop :=
  locate w script_dir = Ok here ∧
  fs w !! here = Some Dir ∧ fs w !! up here = Some Dir.

(** A computation that, run where the script is anchored, touches the
    output tree only, whatever its outcome. *)
Definition framed (script_dir : Path) (here : loc) {A} (m : M A) : Prop :=
  ∀ w, anchored script_dir here w →
    changes (tree_locs (up here)) (outputs (up here)) w (m w).1.

(** The items of [xs] before the first one at which [stop] holds. *)
Fixpoint until {X} (stop : X → bool) (xs : list X) : list X :=
  match xs with
  | [] => []
  | x :: rest => if stop x then [] else x :: until stop rest
  end.

(** The exception of [mkdir] when the regular file at [d] is in its way:
    the file stands where one of the two output directories should be, or
    above. *)
Definition blocked_by (base d : loc) : exn :=
  if decide (d = cards_loc base ∨ d = chips_loc base) then FileExistsError
  else NotADirectoryError.

(** Two more small worlds.  In the first a regular file stands where the
    directory [Assets] should be; in the second the output tree exists and
    a directory stands where the file of the three of hearts should be. *)
Definition blocked_world : world :=
  mkWorld
    {[ [] := Dir; ["srv"] := Dir; ["srv"; "game"] := Dir;
       ["srv"; "game"; "tools"] := Dir;
       ["srv"; "game"; "client"] := Dir;
       ["srv"; "game"; "client"; "Assets"] := File "notes" ]}
    ["srv"; "game"] [].

Definition stuck_world : world :=
  mkWorld
    {[ [] := Dir; ["srv"] := Dir; ["srv"; "game"] := Dir;
       ["srv"; "game"; "tools"] := Dir;
       ["srv"; "game"; "client"] := Dir;
       ["srv"; "game"; "client"; "Assets"] := Dir;
       ["srv"; "game"; "client"; "Assets"; "Resources"] := Dir;
       ["srv"; "game"; "client"; "Assets"; "Resources"; "Cards"] := Dir;
       ["srv"; "game"; "client"; "Assets"; "Resources"; "Cards"; "3h.svg"]
         := Dir ]}
    ["srv"; "game"] [].

(** *** The markup of a document

    A scanner for the tags of a document: where it is (in text, in a tag,
    ...), the stack of the elements that are open, and the names of the
    elements met so far, last first. *)
Inductive scan_mode :=
  | Text
  | TagOpen
  | TagName (closing : bool) (name : string)
  | TagAttrs (closing : bool) (name : string) (slash : bool)
  | Skip.

Inductive scan_state :=
  | Broken
  | At (mode : scan_mode) (open seen : list string).

(** The end of a tag: an end tag closes the element on top of the stack, a
    start tag opens one unless it ends in [/>]. *)
Definition tag_end (closing : bool) (name : string) (slash : bool)
    (open seen : list string) : scan_state :=
  if closing then
    match open with
    | top :: rest =>
        if String.eqb top name && negb slash then At Text rest seen else Broken
    | [] => Broken
    end
  else if slash then At Text open (name :: seen)
  else At Text (name :: open) (name :: seen).

Definition is_space (c : ascii) : bool :=
  Ascii.eqb c " " || Ascii.eqb c "010" || Ascii.eqb c "009" || Ascii.eqb c "013".

(** [<?...>] and [<!...>] (the XML declaration and comments) are skipped up
    to the next [>]; a [<] inside a tag is an error. *)
Definition scan_step (st : scan_state) (c : ascii) : scan_state :=
  match st with
  | Broken => Broken
  | At Text open seen =>
      if Ascii.eqb c "<" then At TagOpen open seen else At Text open seen
  | At TagOpen open seen =>
      if Ascii.eqb c "/" then At (TagName true EmptyString) open seen
      else if Ascii.eqb c "?" || Ascii.eqb c "!" then At Skip open seen
      else if Ascii.eqb c "<" || Ascii.eqb c ">" || is_space c then Broken
      else At (TagName false (String c EmptyString)) open seen
  | At (TagName closing name) open seen =>
      if Ascii.eqb c ">" then tag_end closing name false open seen
      else if Ascii.eqb c "<" then Broken
      else if Ascii.eqb c "/" then At (TagAttrs closing name true) open seen
      else if is_space c then At (TagAttrs closing name false) open seen
      else At (TagName closing (name +:+ String c EmptyString)) open seen
  | At (TagAttrs closing name slash) open seen =>
      if Ascii.eqb c ">" then tag_end closing name slash open seen
      else if Ascii.eqb c "<" then Broken
      else At (TagAttrs closing name (Ascii.eqb c "/")) open seen
  | At Skip open seen =>
      if Ascii.eqb c ">" then At Text open seen else At Skip open seen
  end.

Fixpoint scan (s : string) (st : scan_state) : scan_state :=
  match s with
  | EmptyString => st
  | String c s' => scan s' (scan_step st c)
  end.

(** The elements of a document whose tags are balanced, in the order of
    their start tags: every element is closed, in the order of nesting, and
    the document ends outside any tag.  [None] for any other document. *)
Definition elements (doc : string) : option (list string) :=
  match scan doc (At Text [] []) with
  | At Text [] seen => Some (rev seen)
  | _ => None
  end.

(** Every character of [s] passes [p]. *)
Fixpoint all_chars (p : ascii → bool) (s : string) : bool :=
  match s with
  | EmptyString => true
  | String c s' => p c && all_chars p s'
  end.

(** A string without [<] and [>]. *)
Definition no_angle (s : string) : bool :=
  all_chars (λ c, negb (Ascii.eqb c "<") && negb (Ascii.eqb c ">")) s.

(** Whether the last character of [s] is a slash, [slash] for the empty
    string. *)
Fixpoint last_slash (s : string) (slash : bool) : bool :=
  match s with
  | EmptyString => slash
  | String c s' => last_slash s' (Ascii.eqb c "/")
  end.

(** The elements of the three kinds of document. *)
Definition card_face_elements : list string :=
  ["svg"; "rect"; "text"; "text"; "text"; "g"; "text"; "text"].

Definition card_back_elements : list string :=
  ["svg"; "defs"; "pattern"; "rect"; "rect"; "rect"; "rect"; "rect"; "rect";
   "rect"; "circle"; "circle"; "text"].

Definition chip_elements : list string :=
  ["svg"; "circle"; "circle"; "circle"; "g"; "line"; "line"; "line"; "line";
   "circle"; "circle"; "text"].

(** The lines of a run on standard output, in the words of the
    specification: a progress line per file, in the order of writing, and
    the summary. *)
Definition spec_report (cards_abs chips_abs : string) : list string :=
  ["Generating card SVGs..."]
  ++ (suit ← spec_suits; rank ← spec_ranks;
      [join ["  Created "; rank; suit; ".svg"]])
  ++ ["Generating card back..."; "  Created card_back.svg";
      "Generating chip SVGs..."]
  ++ ((λ value, join ["  Created chip_"; str value; ".svg"])
      <$> spec_chip_values)
  ++ [join [nl; "Generated 59 SVG files:"];
      "  - 52 card faces";
      "  - 1 card back";
      "  - 6 chips";
      join [nl; "Output directories:"];
      join ["  Cards: "; cards_abs];
      join ["  Chips: "; chips_abs]].

(** * Properties *)

(** ** Strings *)

Lemma append_cons (c : ascii) (a b : string) :
  String c a +:+ b = String c (a +:+ b).
Proof. reflexivity. Qed.

Lemma append_nil_r (s : string) : s +:+ EmptyString = s.
Proof.
  induction s as [|c s IH]; [done|]. by rewrite append_cons, IH.
Qed.

Lemma append_assoc (a b c : string) : (a +:+ b) +:+ c = a +:+ (b +:+ c).
Proof.
  induction a as [|x a IH]; [done|]. by rewrite !append_cons, IH.
Qed.

Lemma join_app (l1 l2 : list string) : join (l1 ++ l2) = join l1 +:+ join l2.
Proof.
  induction l1 as [|p l1 IH]; simpl; [done|].
  by rewrite IH, append_assoc.
Qed.

Lemma join_take_drop (k : nat) (l : list string) :
  join l = join (take k l) +:+ join (drop k l).
Proof. by rewrite <- join_app, take_drop. Qed.

Lemma startswith_spec (pre s : string) :
  startswith pre s = true ↔ ∃ post, s = pre +:+ post.
Proof.
  revert s. induction pre as [|a pre IH]; intros s; simpl.
  - split; [intros _; by exists s | done].
  - destruct s as [|b s].
    + split; [done | intros [post ?]; discriminate].
    + destruct (Ascii.eqb_spec a b) as [->|Hne].
      * rewrite IH. split; intros [post Hp]; exists post.
        -- by rewrite append_cons, <- Hp.
        -- rewrite append_cons in Hp. congruence.
      * split; [done | intros [post Hp]]. rewrite append_cons in Hp. congruence.
Qed.

Lemma contains_spec (sub s : string) :
  contains sub s = true ↔ Substring sub s.
Proof.
  induction s as [|c s IH]; simpl.
  - rewrite orb_false_r, startswith_spec. split.
    + intros [post ->]. by exists EmptyString, post.
    + intros [[|x pre] [post Hs]]; [by exists post | discriminate].
  - rewrite orb_true_iff, startswith_spec, IH. split.
    + intros [[post ->] | (pre & post & ->)].
      * by exists EmptyString, post.
      * by exists (String c pre), post.
    + intros [[|x pre] [post Hs]].
      * left. by exists post.
      * right. exists pre, post. rewrite append_cons in Hs. congruence.
Qed.

Lemma not_contains_spec (sub s : string) :
  contains sub s = false ↔ ¬ Substring sub s.
Proof. rewrite <- contains_spec. by destruct (contains sub s). Qed.

(** [str] is Python's rendering of an [int]: one digit below ten, the
    rendering of the tens followed by the last digit from ten on, and a
    minus sign before the rendering of the absolute value below zero. *)
Lemma pretty_N_go_app (x : N) (s : string) :
  pretty_N_go x s = pretty_N_go x EmptyString +:+ s.
Proof.
  revert s. induction (N.lt_wf_0 x) as [x _ IH]. intros s.
  destruct (decide (x = 0)%N) as [->|Hx]; [done|].
  rewrite !(pretty_N_go_step x) by lia.
  rewrite IH by (apply N.div_lt; lia). symmetry.
  rewrite IH by (apply N.div_lt; lia).
  by rewrite append_assoc.
Qed.

Lemma str_digit (n : Z) :
  0 ≤ n < 10 → str n = String (ascii_of_N (48 + Z.to_N n)) EmptyString.
Proof.
  intros Hn.
  assert (n = 0 ∨ n = 1 ∨ n = 2 ∨ n = 3 ∨ n = 4 ∨ n = 5 ∨ n = 6 ∨ n = 7
          ∨ n = 8 ∨ n = 9) as Hcases by lia.
  repeat (destruct Hcases as [->|Hcases]; [reflexivity|]). by subst.
Qed.

Lemma str_positive (n : Z) :
  0 < n → str n = pretty_N_go (Z.to_N n) EmptyString.
Proof. by destruct n. Qed.

Lemma str_step (n : Z) :
  10 ≤ n → str n = str (n `div` 10) +:+ str (n `mod` 10).
Proof.
  intros Hn.
  assert (0 < n `div` 10) by (apply Z.div_str_pos; lia).
  assert (0 ≤ n `mod` 10 < 10) as Hmod by (apply Z.mod_pos_bound; lia).
  rewrite (str_positive n), (str_positive (n `div` 10)) by lia.
  rewrite pretty_N_go_step by lia.
  rewrite pretty_N_go_app. rewrite Z2N.inj_div by lia. f_equal.
  change (Z.to_N 10) with 10%N.
  rewrite str_digit by done. rewrite Z2N.inj_mod by lia. f_equal.
  change (Z.to_N 10) with 10%N.
  assert (Z.to_N n `mod` 10 < 10)%N as Hd by (by apply N.mod_lt).
  revert Hd. generalize (Z.to_N n `mod` 10)%N. intros d Hd.
  assert (d = 0 ∨ d = 1 ∨ d = 2 ∨ d = 3 ∨ d = 4 ∨ d = 5 ∨ d = 6 ∨ d = 7
          ∨ d = 8 ∨ d = 9)%N as Hcases by lia.
  repeat (destruct Hcases as [->|Hcases]; [reflexivity|]). by subst.
Qed.

Lemma str_negative (n : Z) : n < 0 → str n = "-" +:+ str (- n).
Proof. by destruct n. Qed.

Lemma append_length (a b : string) :
  String.length (a +:+ b) = (String.length a + String.length b)%nat.
Proof.
  induction a as [|c a IH]; [done|].
  rewrite append_cons. cbn [String.length]. by rewrite IH.
Qed.

(** The number of digits written for a positive number. *)
Lemma pretty_N_go_length (x : N) (k : nat) :
  (0 < x)%N →
  (10 ^ N.of_nat k ≤ x)%N ↔ (k < String.length (pretty_N_go x EmptyString))%nat.
Proof.
  revert k. induction (N.lt_wf_0 x) as [x _ IH]; intros k Hx.
  rewrite pretty_N_go_step, pretty_N_go_app, append_length by done.
  cbn [String.length]. destruct k as [|k].
  { change (10 ^ N.of_nat 0)%N with 1%N. split; lia. }
  rewrite Nat2N.inj_succ, N.pow_succ_r'.
  assert (10 * 10 ^ N.of_nat k ≤ x ↔ 10 ^ N.of_nat k ≤ x `div` 10)%N as ->.
  { split; intros H.
    - apply N.div_le_lower_bound; lia.
    - pose proof (N.Div0.mul_div_le x 10). lia. }
  destruct (N.eq_0_gt_0_cases (x `div` 10)) as [Hq|Hq].
  - rewrite Hq, pretty_N_go_0. cbn [String.length].
    assert (10 ^ N.of_nat k ≠ 0)%N by (by apply N.pow_nonzero). lia.
  - rewrite (IH (x `div` 10)%N) by (done || by apply N.div_lt). lia.
Qed.

(** An [int] has [k] digits at most exactly when its magnitude is below
    [10 ^ k]. *)
Lemma digits_spec (n : Z) (k : Z) :
  0 < k → (digits n ≤ k ↔ Z.abs n < 10 ^ k).
Proof.
  intros Hk. unfold digits.
  destruct (decide (n = 0)) as [->|Hn].
  { change (Z.abs 0) with 0. change (str 0) with "0". cbn [String.length].
    pose proof (Z.pow_pos_nonneg 10 k). lia. }
  assert (0 < Z.abs n) as Hpos by lia.
  assert (str (Z.abs n) = pretty_N_go (Z.to_N (Z.abs n)) EmptyString) as ->.
  { by destruct (Z.abs n). }
  pose proof (pretty_N_go_length (Z.to_N (Z.abs n)) (Z.to_nat k)) as Hlen.
  rewrite <- (Z2N.id (Z.abs n)) at 2 by lia.
  rewrite <- (Z2N.id k) at 2 by lia.
  change 10 with (Z.of_N 10). rewrite <- N2Z.inj_pow, <- N2Z.inj_lt.
  rewrite Z_nat_N in Hlen. lia.
Qed.

(** The conversion is refused from [10 ^ 4300] on, in either direction. *)
Lemma digits_limit (n : Z) :
  digits n ≤ int_max_str_digits ↔ Z.abs n < 10 ^ int_max_str_digits.
Proof. by apply digits_spec. Qed.

Lemma digits_power (k : Z) : 0 < k → k < digits (10 ^ k).
Proof.
  intros Hk. apply Z.nle_gt. rewrite digits_spec by done.
  rewrite Z.abs_eq by (by apply Z.pow_nonneg). apply Z.lt_irrefl.
Qed.

(** ** The template functions do not touch the world *)

Lemma generate_card_svg_pure (rank suit : string) (w : world) :
  generate_card_svg rank suit w = (w, result_of (generate_card_svg rank suit)).
Proof.
  unfold result_of, generate_card_svg, mbind, M_bind, bind, getitem.
  destruct (dict_get SUITS suit) as [[[suit_name color] symbol]|];
    [|reflexivity].
  unfold ret at 1 3. cbv beta iota.
  destruct (dict_get RANK_DISPLAY rank); reflexivity.
Qed.

Lemma generate_card_back_svg_pure (w : world) :
  generate_card_back_svg w = (w, result_of generate_card_back_svg).
Proof. reflexivity. Qed.

Lemma format_int_fits (n : Z) (w : world) :
  digits n ≤ int_max_str_digits → format_int n w = (w, Ok (str n)).
Proof. intros Hn. unfold format_int. by rewrite decide_True. Qed.

Lemma format_int_long (n : Z) (w : world) :
  int_max_str_digits < digits n → format_int n w = (w, Raise ValueError).
Proof. intros Hn. unfold format_int. rewrite decide_False; [done|lia]. Qed.

Lemma generate_chip_svg_pure (value : Z) (color : string)
    (text_color : option string) (w : world) :
  generate_chip_svg value color text_color w
  = (w, result_of (generate_chip_svg value color text_color)).
Proof.
  unfold result_of, generate_chip_svg, mbind, M_bind, bind, format_int.
  cbv zeta. by destruct (decide (digits value ≤ int_max_str_digits)).
Qed.

(** A value too long for the conversion gives no document. *)
Lemma generate_chip_svg_long (value : Z) (color : string)
    (text_color : option string) (w : world) :
  int_max_str_digits < digits value →
  generate_chip_svg value color text_color w = (w, Raise ValueError).
Proof.
  intros Hlong. unfold generate_chip_svg, mbind, M_bind, bind. cbv zeta.
  by rewrite format_int_long.
Qed.

Lemma card_faces_checked :
  forallb (λ suit, forallb (λ rank, card_face_ok rank suit) RANKS) (keys SUITS)
  = true.
Proof. vm_compute. reflexivity. Qed.

Lemma result_of_Ok (m : M string) (doc : string) :
  (∀ w, m w = (w, result_of m)) → result_of m = Ok doc →
  ∀ w, m w = (w, Ok doc).
Proof. intros Hpure Hres w. by rewrite Hpure, Hres. Qed.

(** ** Lookups in a dictionary *)

Lemma dict_get_None {V} (d : dict V) (k : string) :
  dict_get d k = None ↔ k ∉ keys d.
Proof.
  unfold keys. induction d as [|[k' v] d IH]; simpl.
  - split; [intros _; apply not_elem_of_nil | done].
  - rewrite not_elem_of_cons. destruct (String.eqb_spec k k') as [->|Hne].
    + split; [done | intros [? _]; done].
    + rewrite IH. tauto.
Qed.

Lemma dict_get_is_Some {V} (d : dict V) (k : string) :
  is_Some (dict_get d k) ↔ k ∈ keys d.
Proof.
  rewrite <- not_eq_None_Some, dict_get_None.
  destruct (decide (k ∈ keys d)); naive_solver.
Qed.

(** The code's tables hold the ranks and suits the specification lists. *)
Lemma RANKS_spec : RANKS = spec_ranks.
Proof. reflexivity. Qed.

Lemma SUITS_keys_spec : keys SUITS = spec_suits.
Proof. reflexivity. Qed.

Lemma RANK_DISPLAY_spec (rank : string) :
  rank ∈ spec_ranks → dict_get RANK_DISPLAY rank = Some (spec_rank_display rank).
Proof.
  intros H. apply list_elem_of_In in H. simpl in H.
  repeat (destruct H as [<-|H]; [reflexivity|]). done.
Qed.

Lemma RANK_DISPLAY_keys (rank : string) :
  rank ∈ keys RANK_DISPLAY ↔ rank ∈ spec_ranks.
Proof.
  unfold keys, RANK_DISPLAY, spec_ranks. simpl. rewrite !elem_of_cons.
  rewrite !elem_of_nil. tauto.
Qed.

(** ** The card face *)

Lemma card_face_checked (rank suit : string) :
  rank ∈ spec_ranks → suit ∈ spec_suits → card_face_ok rank suit = true.
Proof.
  intros Hrank Hsuit.
  pose proof card_faces_checked as Hall.
  rewrite forallb_forall in Hall.
  specialize (Hall suit (proj1 (list_elem_of_In _ _) Hsuit)).
  rewrite forallb_forall in Hall.
  exact (Hall rank (proj1 (list_elem_of_In _ _) Hrank)).
Qed.

Lemma card_face_general (rank suit : string) :
  rank ∈ spec_ranks → suit ∈ spec_suits →
  ∃ suit_name color glyph doc,
    dict_get SUITS suit = Some (suit_name, color, glyph) ∧
    dict_get RANK_DISPLAY rank = Some (spec_rank_display rank) ∧
    (∀ w, generate_card_svg rank suit w = (w, Ok doc)) ∧
    declares_size 140 190 doc ∧
    Substring (text_in color (spec_rank_display rank)) doc ∧
    Substring (text_in color glyph) doc ∧
    occurrences (text_in color (spec_rank_display rank)) doc = 2%nat ∧
    occurrences (text_in color glyph) doc = 3%nat ∧
    occurrences "</text>" doc = 5%nat.
Proof.
  intros Hrank Hsuit.
  pose proof (card_face_checked rank suit Hrank Hsuit) as Hall.
  unfold card_face_ok in Hall.
  destruct (dict_get SUITS suit) as [[[suit_name color] glyph]|]; [|done].
  destruct (result_of (generate_card_svg rank suit)) as [doc|] eqn:Hdoc;
    [|done].
  repeat (apply andb_prop in Hall as [Hall ?]).
  exists suit_name, color, glyph, doc. split; [done|].
  split; [by apply RANK_DISPLAY_spec|]. split.
  { apply result_of_Ok; [apply generate_card_svg_pure | done]. }
  split; [by apply startswith_spec|].
  repeat split; (by apply contains_spec) || (by apply Nat.eqb_eq).
Qed.

Lemma generate_card_svg_good (rank suit : string) (w : world) :
  rank ∈ spec_ranks → suit ∈ spec_suits →
  generate_card_svg rank suit w
  = (w, Ok (document (generate_card_svg rank suit))).
Proof.
  intros Hrank Hsuit.
  destruct (card_face_general rank suit Hrank Hsuit)
    as (n & c & g & doc & _ & _ & Hdoc & _).
  rewrite Hdoc. unfold document, result_of. by rewrite Hdoc.
Qed.

(** C2. For each of the 13 ranks and 4 suits the specification lists,
    [generate_card_svg] returns a document that declares the size 140 by
    190 and holds the display string of the rank ([10] for ten, the rank
    itself otherwise) and the glyph of the suit, each as the content of a
    text element filled with the colour [SUITS] gives the suit: the display
    string twice, the glyph three times, and no text element besides these
    five.  The ten of spades has [10] and the spade in [#111111], the ace
    of hearts has [A] and the heart in [#CC1111]. *)
Theorem card_face_document :
  (∀ rank suit, rank ∈ spec_ranks → suit ∈ spec_suits →
     ∃ suit_name color glyph doc,
       dict_get SUITS suit = Some (suit_name, color, glyph) ∧
       dict_get RANK_DISPLAY rank = Some (spec_rank_display rank) ∧
       (∀ w, generate_card_svg rank suit w = (w, Ok doc)) ∧
       declares_size 140 190 doc ∧
       Substring (text_in color (spec_rank_display rank)) doc ∧
       Substring (text_in color glyph) doc ∧
       occurrences (text_in color (spec_rank_display rank)) doc = 2%nat ∧
       occurrences (text_in color glyph) doc = 3%nat ∧
       occurrences "</text>" doc = 5%nat) ∧
  (∃ doc, (∀ w, generate_card_svg "T" "s" w = (w, Ok doc)) ∧
     declares_size 140 190 doc ∧
     Substring (text_in "#111111" "10") doc ∧
     Substring (text_in "#111111" "♠") doc) ∧
  (∃ doc, (∀ w, generate_card_svg "A" "h" w = (w, Ok doc)) ∧
     declares_size 140 190 doc ∧
     Substring (text_in "#CC1111" "A") doc ∧
     Substring (text_in "#CC1111" "♥") doc).
Proof.
  split; [exact card_face_general|].
  split.
  - destruct (card_face_general "T" "s")
      as (n & c & g & doc & Hget & _ & Hdoc & H);
      [by repeat constructor..|].
    exists doc. vm_compute in Hget. injection Hget as <- <- <-.
    split; [done|]. tauto.
  - destruct (card_face_general "A" "h")
      as (n & c & g & doc & Hget & _ & Hdoc & H);
      [by repeat constructor..|].
    exists doc. vm_compute in Hget. injection Hget as <- <- <-.
    split; [done|]. tauto.
Qed.

Lemma card_face_document_witness :
  "Q" ∈ spec_ranks ∧ "d" ∈ spec_suits ∧
  ∃ doc, (∀ w, generate_card_svg "Q" "d" w = (w, Ok doc)) ∧
    declares_size 140 190 doc ∧
    Substring (text_in "#CC1111" "Q") doc ∧
    Substring (text_in "#CC1111" "♦") doc.
Proof.
  assert ("Q" ∈ spec_ranks) as Hrank by (by repeat constructor).
  assert ("d" ∈ spec_suits) as Hsuit by (by repeat constructor).
  split; [exact Hrank|]. split; [exact Hsuit|].
  destruct (proj1 card_face_document "Q" "d" Hrank Hsuit)
    as (n & c & g & doc & Hget & _ & Hdoc & Hsize & Hrankin & Hglyph & _).
  exists doc. vm_compute in Hget. injection Hget as <- <- <-.
  exact (conj Hdoc (conj Hsize (conj Hrankin Hglyph))).
Defined.

(** ** The card back *)

Lemma card_back_document (w : world) :
  generate_card_back_svg w = (w, Ok (document generate_card_back_svg)).
Proof. reflexivity. Qed.

(** C4, as stated, fails: the emblem in the centre of the card back is the
    glyph of spades, and the digits of [width="140"] hold the display
    string of ten. *)
Lemma card_back_shows_spade :
  dict_get SUITS "s" = Some ("Spades", BLACK, "♠") ∧
  Substring "♠" (document generate_card_back_svg) ∧
  dict_get RANK_DISPLAY "T" = Some "10" ∧
  Substring "10" (document generate_card_back_svg) ∧
  ¬ back_free_of_ranks_and_suits (document generate_card_back_svg).
Proof.
  assert (Substring "♠" (document generate_card_back_svg)) as Hspade.
  { apply contains_spec. vm_compute. reflexivity. }
  split; [reflexivity|]. split; [exact Hspade|]. split; [reflexivity|].
  split; [apply contains_spec; vm_compute; reflexivity|].
  intros [_ Hsuits]. by apply (Hsuits "s" "Spades" BLACK "♠").
Qed.

(** C4, amended.  The card back has one text element, the emblem, whose
    content is the glyph of spades in white; this is the only place of the
    document where the glyph stands.  No glyph of another suit occurs in the
    document, and no rank display string is the content of an element. *)
Theorem card_back_text :
  let doc := document generate_card_back_svg in
  (∀ w, generate_card_back_svg w = (w, Ok doc)) ∧
  declares_size 140 190 doc ∧
  occurrences "<text" doc = 1%nat ∧
  occurrences "</text>" doc = 1%nat ∧
  Substring (text_in WHITE "♠") doc ∧
  occurrences "♠" doc = 1%nat ∧
  Forall (λ item, Substring item.2.2 doc ↔ item.1 = "s") SUITS ∧
  Forall (λ item, ¬ Substring (join [">"; item.2; "<"]) doc) RANK_DISPLAY.
Proof.
  intros doc. split; [exact card_back_document|].
  split; [apply startswith_spec; vm_compute; reflexivity|].
  split; [vm_compute; reflexivity|]. split; [vm_compute; reflexivity|].
  split; [apply contains_spec; vm_compute; reflexivity|].
  split; [vm_compute; reflexivity|].
  split.
  - repeat apply Forall_cons_2; [..|apply Forall_nil_2]; simpl; split;
      first
        [ reflexivity
        | discriminate
        | intros _; apply contains_spec; vm_compute; reflexivity
        | intros H; apply contains_spec in H; vm_compute in H; discriminate ].
  - repeat apply Forall_cons_2; [..|apply Forall_nil_2];
      apply not_contains_spec; vm_compute; reflexivity.
Qed.

(** ** The chip *)

(** C5. The gold chip: [generate_chip_svg(1000, "#FFD700", BLACK)] returns
    a document that declares the size 80 by 80, whose text element holds
    [1000], and that holds the fill colour [#FFD700]; the one entry of the
    driver's table for the value 1000 has these arguments. *)
Theorem gold_chip_document :
  ∃ doc,
    (∀ w, generate_chip_svg 1000 "#FFD700" (Some BLACK) w = (w, Ok doc)) ∧
    declares_size 80 80 doc ∧
    Substring (text_in BLACK "1000") doc ∧
    occurrences "</text>" doc = 1%nat ∧
    Substring (fill_attr "#FFD700") doc ∧
    filter (λ chip, chip.1.1 = 1000) chips = [(1000, "#FFD700", BLACK)].
Proof.
  exists (document (generate_chip_svg 1000 "#FFD700" (Some BLACK))).
  split; [reflexivity|].
  split; [apply startswith_spec; vm_compute; reflexivity|].
  split; [apply contains_spec; vm_compute; reflexivity|].
  split; [vm_compute; reflexivity|].
  split; [apply contains_spec; vm_compute; reflexivity|].
  reflexivity.
Qed.

(** The shape of a chip document: a fixed text around the rendering of the
    value, which is the content of the text element. *)
Lemma chip_document_shape (color : string) (text_color : option string) :
  ∃ before after,
    declares_size 80 80 before ∧
    (∀ value w, digits value ≤ int_max_str_digits → ∃ doc,
       generate_chip_svg value color text_color w = (w, Ok doc) ∧
       doc = before +:+ str value +:+ after ∧
       Substring (text_in (default WHITE text_color) (str value)) doc).
Proof.
  let t := eval cbv beta iota zeta delta [generate_chip_svg]
           in (generate_chip_svg 0 color text_color) in
  lazymatch t with
  | mbind ?k _ =>
      let r := eval cbv beta in (k EmptyString) in
      lazymatch r with
      | ret (join ?l) => exists (join (take 281 l)), (join (drop 282 l))
      end
  end.
  split.
  { apply startswith_spec. vm_compute. reflexivity. }
  intros value w Hfits. unfold generate_chip_svg, mbind, M_bind, bind.
  cbv zeta. rewrite format_int_fits by done. unfold ret. cbv beta iota zeta.
  eexists. split; [reflexivity|]. split.
  - match goal with |- join ?l = _ => rewrite (join_take_drop 281 l) end.
    reflexivity.
  - match goal with |- Substring _ (join ?l) =>
      rewrite (join_take_drop 276 l);
      exists (join (take 276 l) +:+ "        "), (join [nl; "</svg>"])
    end.
    rewrite append_assoc. f_equal. unfold text_in. cbn [drop join].
    rewrite !append_assoc, !append_nil_r. reflexivity.
Qed.

(** A value the conversion accepts gives a document. *)
Lemma generate_chip_svg_fits (value : Z) (color : string)
    (text_color : option string) (w : world) :
  digits value ≤ int_max_str_digits →
  generate_chip_svg value color text_color w
  = (w, Ok (document (generate_chip_svg value color text_color))).
Proof.
  intros Hfits.
  destruct (chip_document_shape color text_color)
    as (before & after & _ & Hshape).
  destruct (Hshape value w Hfits) as (doc & -> & Hdoc & _).
  destruct (Hshape value nowhere Hfits) as (doc' & Hrun & Hdoc' & _).
  unfold document, result_of. rewrite Hrun. cbn [snd]. congruence.
Qed.

(** The values of the driver's table have four digits at most. *)
Lemma chips_fit :
  Forall (λ chip : Z * string * string,
            digits chip.1.1 ≤ int_max_str_digits) chips.
Proof. apply (bool_decide_unpack _). vm_compute. exact I. Qed.

Lemma generate_chip_svg_good (value : Z) (color text_color : string)
    (w : world) :
  (value, color, text_color) ∈ chips →
  generate_chip_svg value color (Some text_color) w
  = (w, Ok (document (generate_chip_svg value color (Some text_color)))).
Proof.
  intros Hchip. apply generate_chip_svg_fits.
  by apply (proj1 (Forall_forall _ _) chips_fit (value, color, text_color)).
Qed.

(** C9. Leaving out [text_color] is passing white: for every value and
    colour the two calls end in the same way, in every world.  They return
    the same document, whose text element is filled with [#FFFFFF], when
    the value has 4300 digits at most; beyond that both raise the
    [ValueError] of the conversion of the value. *)
Theorem chip_text_color_default (value : Z) (color : string) :
  (∀ w, generate_chip_svg value color None w
        = generate_chip_svg value color (Some "#FFFFFF") w) ∧
  (digits value ≤ int_max_str_digits →
   ∃ doc,
     (∀ w, generate_chip_svg value color None w = (w, Ok doc)) ∧
     (∀ w, generate_chip_svg value color (Some "#FFFFFF") w = (w, Ok doc)) ∧
     Substring (text_in "#FFFFFF" (str value)) doc) ∧
  (int_max_str_digits < digits value →
   ∀ w, generate_chip_svg value color None w = (w, Raise ValueError) ∧
        generate_chip_svg value color (Some "#FFFFFF") w
        = (w, Raise ValueError)).
Proof.
  assert (∀ w, generate_chip_svg value color None w
               = generate_chip_svg value color (Some "#FFFFFF") w) as Hsame
    by reflexivity.
  split; [exact Hsame|]. split.
  - intros Hfits.
    destruct (chip_document_shape color None) as (before & after & _ & Hshape).
    destruct (Hshape value nowhere Hfits) as (doc & Hdoc & _ & Hsub).
    assert (∀ w, generate_chip_svg value color None w = (w, Ok doc)) as Hrun.
    { apply result_of_Ok; [apply generate_chip_svg_pure|].
      unfold result_of. by rewrite Hdoc. }
    exists doc. split; [exact Hrun|]. split; [|exact Hsub].
    intros w. by rewrite <- Hsame.
  - intros Hlong w. rewrite <- Hsame. split; by apply generate_chip_svg_long.
Qed.

Lemma chip_text_color_default_witness :
  digits 25 ≤ int_max_str_digits ∧
  ∃ doc,
    (∀ w, generate_chip_svg 25 "#118811" None w = (w, Ok doc)) ∧
    (∀ w, generate_chip_svg 25 "#118811" (Some "#FFFFFF") w = (w, Ok doc)) ∧
    Substring (text_in "#FFFFFF" "25") doc.
Proof.
  assert (digits 25 ≤ int_max_str_digits) as Hfits by (by vm_compute).
  split; [exact Hfits|].
  exact (proj1 (proj2 (chip_text_color_default 25 "#118811")) Hfits).
Defined.

(** C10, as stated, fails: [10 ** 4300] is an integer of 4301 digits, and
    for it [generate_chip_svg] raises [ValueError] and returns no
    document. *)
Lemma chip_value_too_long :
  int_max_str_digits < digits (10 ^ 4300) ∧
  generate_chip_svg (10 ^ 4300) "#FFD700" (Some BLACK) nowhere
  = (nowhere, Raise ValueError) ∧
  ¬ ∃ doc, generate_chip_svg (10 ^ 4300) "#FFD700" (Some BLACK) nowhere
           = (nowhere, Ok doc).
Proof.
  assert (int_max_str_digits < digits (10 ^ 4300)) as Hlong.
  { by apply (digits_power 4300). }
  split; [exact Hlong|]. split.
  - by apply generate_chip_svg_long.
  - intros [doc Hdoc]. by rewrite generate_chip_svg_long in Hdoc.
Qed.

(** C10, amended.  [generate_chip_svg] enforces no positivity: it returns
    for every integer of 4300 digits at most (a magnitude below
    [10 ** 4300]), zero and the negative ones too, and for all colour
    strings.  The document is a fixed text around the decimal rendering of
    the value, it declares the size 80 by 80, and the rendering of the
    value is the content of its text element.  For an integer of more
    digits it raises [ValueError] and changes nothing. *)
Theorem chip_any_value (color : string) (text_color : option string) :
  ∃ before after,
    declares_size 80 80 before ∧
    (∀ value w, digits value ≤ int_max_str_digits → ∃ doc,
       generate_chip_svg value color text_color w = (w, Ok doc) ∧
       doc = before +:+ str value +:+ after ∧
       Substring (text_in (default WHITE text_color) (str value)) doc) ∧
    (∀ value w, int_max_str_digits < digits value →
       generate_chip_svg value color text_color w = (w, Raise ValueError)) ∧
    (∀ value, digits value ≤ int_max_str_digits ↔ Z.abs value < 10 ^ 4300) ∧
    str 0 = "0" ∧ str (-25) = "-25" ∧ str 1000 = "1000" ∧
    digits 0 = 1 ∧ digits (-25) = 2 ∧ digits 1000 = 4.
Proof.
  destruct (chip_document_shape color text_color)
    as (before & after & Hsize & Hshape).
  exists before, after.
  split; [exact Hsize|]. split; [exact Hshape|].
  split; [intros value w; apply generate_chip_svg_long|].
  split; [exact digits_limit|]. by repeat split.
Qed.

Lemma chip_any_value_witness :
  digits (-25) ≤ int_max_str_digits ∧
  ∃ doc,
    generate_chip_svg (-25) "#118811" None nowhere = (nowhere, Ok doc) ∧
    Substring (text_in WHITE "-25") doc.
Proof.
  assert (digits (-25) ≤ int_max_str_digits) as Hfits by (by vm_compute).
  split; [exact Hfits|].
  destruct (chip_any_value "#118811" None) as (before & after & _ & Hshape & _).
  destruct (Hshape (-25) nowhere Hfits) as (doc & Hrun & _ & Hsub).
  by exists doc.
Defined.

(** ** Purity *)

(** C8. A call of a template function returns the world it was given, and
    its result is the same in every world: two calls with equal arguments
    return the same bytes, whatever happened in between. *)
Theorem render_calls_pure :
  (∀ rank suit w1 w2,
     (generate_card_svg rank suit w1).1 = w1 ∧
     (generate_card_svg rank suit w1).2 = (generate_card_svg rank suit w2).2) ∧
  (∀ w1 w2,
     (generate_card_back_svg w1).1 = w1 ∧
     (generate_card_back_svg w1).2 = (generate_card_back_svg w2).2) ∧
  (∀ value color text_color w1 w2,
     (generate_chip_svg value color text_color w1).1 = w1 ∧
     (generate_chip_svg value color text_color w1).2
     = (generate_chip_svg value color text_color w2).2).
Proof.
  split; [|split].
  - intros rank suit w1 w2.
    by rewrite (generate_card_svg_pure rank suit w1),
      (generate_card_svg_pure rank suit w2).
  - intros w1 w2.
    by rewrite (generate_card_back_svg_pure w1), (generate_card_back_svg_pure w2).
  - intros value color text_color w1 w2.
    by rewrite (generate_chip_svg_pure value color text_color w1),
      (generate_chip_svg_pure value color text_color w2).
Qed.

(** ** Lookup errors *)

Lemma generate_card_svg_bad_suit (rank suit : string) (w : world) :
  suit ∉ spec_suits →
  generate_card_svg rank suit w = (w, Raise (KeyError suit)).
Proof.
  intros Hsuit. rewrite <- SUITS_keys_spec in Hsuit.
  apply dict_get_None in Hsuit.
  unfold generate_card_svg, mbind, M_bind, bind, getitem.
  by rewrite Hsuit.
Qed.

Lemma generate_card_svg_bad_rank (rank suit : string) (w : world) :
  suit ∈ spec_suits → rank ∉ spec_ranks →
  generate_card_svg rank suit w = (w, Raise (KeyError rank)).
Proof.
  intros Hsuit Hrank. rewrite <- SUITS_keys_spec in Hsuit.
  apply dict_get_is_Some in Hsuit as [[[suit_name color] symbol] Hsuit].
  rewrite <- RANK_DISPLAY_keys in Hrank. apply dict_get_None in Hrank.
  unfold generate_card_svg, mbind, M_bind, bind, getitem.
  rewrite Hsuit. unfold ret at 1. cbv beta iota. by rewrite Hrank.
Qed.

(** ** The monad *)

Lemma bind_Ok {A B} (m : M A) (k : A → M B) (w w' : world) (a : A) :
  m w = (w', Ok a) → (m ≫= k) w = k a w'.
Proof. intros H. unfold mbind, M_bind, bind. by rewrite H. Qed.

Lemma try_Raise {A} (m : M A) (h : exn → M A) (w w' : world) (e : exn) :
  m w = (w', Raise e) → try_except m h w = h e w'.
Proof. intros H. unfold try_except. by rewrite H. Qed.

Lemma set_fs_id (w : world) : set_fs w (fs w) = w.
Proof. by destruct w. Qed.

Lemma mbind_unfold {A B} (m : M A) (k : A → M B) (w : world) :
  (m ≫= k) w
  = match m w with
    | (w', Ok a) => k a w'
    | (w', Raise e) => (w', Raise e)
    end.
Proof. reflexivity. Qed.

Lemma for_cons {X} (x : X) (xs : list X) (body : X → M unit) (w : world) :
  for_ (x :: xs) body w = (body x;; for_ xs body) w.
Proof. reflexivity. Qed.

Lemma for_app {X} (xs ys : list X) (body : X → M unit) (w : world) :
  for_ (xs ++ ys) body w = (for_ xs body;; for_ ys body) w.
Proof.
  revert w. induction xs as [|x xs IH]; intros w.
  - reflexivity.
  - rewrite <- app_comm_cons, for_cons, !mbind_unfold, for_cons, mbind_unfold.
    destruct (body x w) as [w' [[]|e]]; [|done].
    by rewrite IH, mbind_unfold.
Qed.

Lemma for_ext {X} (xs : list X) (body body' : X → M unit) (w : world) :
  (∀ x w, x ∈ xs → body x w = body' x w) → for_ xs body w = for_ xs body' w.
Proof.
  revert w. induction xs as [|x xs IH]; intros w Hbody; [done|].
  rewrite !for_cons, !mbind_unfold. rewrite Hbody by left.
  destruct (body' x w) as [w' [[]|e]]; [|done].
  apply IH. intros y w'' Hy. apply Hbody. by right.
Qed.

Lemma for_join {X Y} (f : X → list Y) (xs : list X) (body : Y → M unit)
    (w : world) :
  for_ (xs ≫= f) body w = for_ xs (λ x, for_ (f x) body) w.
Proof.
  revert w. induction xs as [|x xs IH]; intros w; [done|].
  rewrite bind_cons, for_app, for_cons, !mbind_unfold.
  destruct (for_ (f x) body w) as [w' [[]|e]]; [|done]. apply IH.
Qed.

(** Two nested loops are one loop over the pairs. *)
Lemma for_nested {X Y} (xs : list X) (ys : list Y) (body : Y → X → M unit)
    (w : world) :
  for_ xs (λ x, for_ ys (λ y, body y x)) w
  = for_ (x ← xs; y ← ys; [(y, x)]) (λ p, body p.1 p.2) w.
Proof.
  rewrite for_join. apply for_ext. intros x w' _.
  rewrite for_join. apply for_ext. intros y w'' _.
  rewrite for_cons, mbind_unfold. simpl.
  by destruct (body y x w'') as [w3 [[]|e]].
Qed.

(** ** Walking the tree *)

Lemma walk_cons (t : gmap (list string) node) (cur : loc) (c : string)
    (rest : list string) :
  walk t cur (c :: rest)
  = match t !! cur with
    | Some Dir => walk t (if decide (c = "..") then up cur else cur ++ [c]) rest
    | Some (File _) => Raise NotADirectoryError
    | None => Raise FileNotFoundError
    end.
Proof. reflexivity. Qed.

Lemma walk_app (t : gmap (list string) node) (cur : loc) (xs ys : list string) :
  walk t cur (xs ++ ys)
  = match walk t cur xs with Ok l => walk t l ys | Raise e => Raise e end.
Proof.
  revert cur. induction xs as [|x xs IH]; intros cur; [done|].
  rewrite <- app_comm_cons, !walk_cons.
  destruct (t !! cur) as [[|c]|]; [apply IH | done..].
Qed.

Lemma walk_name (t : gmap (list string) node) (cur : loc) (n : string)
    (rest : list string) :
  n ≠ ".." → t !! cur = Some Dir →
  walk t cur (n :: rest) = walk t (cur ++ [n]) rest.
Proof. intros Hn Hcur. rewrite walk_cons, Hcur. by rewrite decide_False. Qed.

Lemma walk_up (t : gmap (list string) node) (cur : loc) (rest : list string) :
  t !! cur = Some Dir → walk t cur (".." :: rest) = walk t (up cur) rest.
Proof. intros Hcur. by rewrite walk_cons, Hcur. Qed.

Lemma walk_missing (t : gmap (list string) node) (cur : loc) (n : string)
    (rest : list string) :
  t !! cur = None → walk t cur (n :: rest) = Raise FileNotFoundError.
Proof. intros Hcur. by rewrite walk_cons, Hcur. Qed.

Lemma walk_mono (t t' : gmap (list string) node) (cur l : loc)
    (names : list string) :
  keeps_dirs t t' → walk t cur names = Ok l → walk t' cur names = Ok l.
Proof.
  intros Hkeep. revert cur. induction names as [|n names IH]; intros cur;
    [done|].
  rewrite !walk_cons.
  destruct (t !! cur) as [[|c]|] eqn:Hcur; [|done..].
  rewrite (Hkeep _ Hcur). apply IH.
Qed.

Lemma keeps_dirs_refl (t : gmap (list string) node) : keeps_dirs t t.
Proof. by intros l. Qed.

Lemma keeps_dirs_trans (t1 t2 t3 : gmap (list string) node) :
  keeps_dirs t1 t2 → keeps_dirs t2 t3 → keeps_dirs t1 t3.
Proof. intros H12 H23 l Hl. by apply H23, H12. Qed.

Lemma is_dir_true (t : gmap (list string) node) (l : loc) :
  is_dir t l = true ↔ t !! l = Some Dir.
Proof. unfold is_dir. destruct (t !! l) as [[|c]|]; split; congruence. Qed.

Lemma is_dir_false (t : gmap (list string) node) (l : loc) :
  is_dir t l = false ↔ t !! l ≠ Some Dir.
Proof. unfold is_dir. destruct (t !! l) as [[|c]|]; split; congruence. Qed.

Lemma free_or_dir_true (t : gmap (list string) node) (l : loc) :
  free_or_dir t l = true ↔ t !! l = None ∨ t !! l = Some Dir.
Proof.
  unfold free_or_dir. destruct (t !! l) as [[|c]|]; intuition congruence.
Qed.

(** *** Making directories *)

Lemma descend_snoc (l : loc) (names : list string) (n : string) :
  descend l (names ++ [n]) = descend l names ++ [l ++ names ++ [n]].
Proof.
  revert l. induction names as [|c names IH]; intros l; simpl; [done|].
  by rewrite IH, <- !app_assoc.
Qed.

Lemma descend_length (l x : loc) (names : list string) :
  x ∈ descend l names →
  (length l < length x ≤ length l + length names)%nat.
Proof.
  revert l. induction names as [|c names IH]; intros l; simpl.
  - by intros ?%elem_of_nil.
  - intros [->|Hx%IH]%elem_of_cons; rewrite ?length_app in *; simpl in *; lia.
Qed.

Lemma make_dir_lookup (t : gmap (list string) node) (d l : loc) :
  make_dir t d !! l
  = match t !! l with
    | Some x => Some x
    | None => if decide (l = d) then Some Dir else None
    end.
Proof.
  unfold make_dir. destruct (t !! d) as [x|] eqn:Hd.
  - destruct (t !! l) eqn:Hl; [done|]. case_decide; [congruence | done].
  - rewrite lookup_insert. case_decide as Hdl.
    + subst. rewrite Hd. by rewrite decide_True.
    + destruct (t !! l); [done|]. by rewrite decide_False.
Qed.

Lemma make_dirs_lookup (t : gmap (list string) node) (ds : list loc) (l : loc) :
  foldl make_dir t ds !! l
  = match t !! l with
    | Some x => Some x
    | None => if decide (l ∈ ds) then Some Dir else None
    end.
Proof.
  revert t. induction ds as [|d ds IH]; intros t.
  - cbn [foldl]. destruct (t !! l); [done|].
    destruct (decide (l ∈ [])) as [Hin|]; [|done].
    by apply elem_of_nil in Hin.
  - cbn [foldl]. rewrite IH, make_dir_lookup. destruct (t !! l); [done|].
    destruct (decide (l = d)) as [->|Hne].
    + destruct (decide (d ∈ d :: ds)) as [|Hnin]; [done|].
      destruct Hnin. left.
    + destruct (decide (l ∈ ds)), (decide (l ∈ d :: ds)) as [Hin|Hnin];
        try done.
      * destruct Hnin. by right.
      * apply elem_of_cons in Hin as [?|?]; done.
Qed.

Lemma make_dirs_keeps (t : gmap (list string) node) (ds : list loc) :
  keeps_dirs t (foldl make_dir t ds).
Proof. intros l Hl. by rewrite make_dirs_lookup, Hl. Qed.

Lemma make_dirs_made (t : gmap (list string) node) (ds : list loc) (l : loc) :
  l ∈ ds → free_or_dir t l = true → foldl make_dir t ds !! l = Some Dir.
Proof.
  intros Hin [Hl|Hl]%free_or_dir_true; rewrite make_dirs_lookup, Hl; [|done].
  by rewrite decide_True.
Qed.

Lemma make_dirs_other (t : gmap (list string) node) (ds : list loc) (l : loc) :
  l ∉ ds → foldl make_dir t ds !! l = t !! l.
Proof.
  intros Hin. rewrite make_dirs_lookup. destruct (t !! l); [done|].
  by rewrite decide_False.
Qed.

Lemma make_dirs_id (t : gmap (list string) node) (ds : list loc) :
  Forall (λ l, t !! l = Some Dir) ds → foldl make_dir t ds = t.
Proof.
  intros Hall. apply map_eq. intros l. rewrite make_dirs_lookup.
  destruct (t !! l) eqn:Hl; [done|]. rewrite decide_False; [done|].
  intros Hin. rewrite Forall_forall in Hall. specialize (Hall l Hin).
  congruence.
Qed.

Lemma walk_into (t : gmap (list string) node) (l : loc) (names : list string)
    (n : string) :
  Forall (λ c, c ≠ "..") names → n ≠ ".." →
  t !! l = Some Dir → Forall (λ d, t !! d = Some Dir) (descend l names) →
  walk t l (names ++ [n]) = Ok (l ++ names ++ [n]).
Proof.
  intros Hnames Hn. revert l.
  induction Hnames as [|c names Hc Hnames IH]; intros l Hl Hdirs.
  - by rewrite app_nil_l, walk_name.
  - simpl in Hdirs. apply Forall_cons in Hdirs as [Hlc Hdirs].
    rewrite <- app_comm_cons, walk_name by done.
    rewrite IH by done. by rewrite <- app_assoc.
Qed.

(** Where nothing on the way is a regular file, the walk either finds every
    directory on the way or stops at a missing one. *)
Lemma walk_dichotomy (t : gmap (list string) node) (l : loc)
    (names : list string) (n : string) :
  Forall (λ c, c ≠ "..") names →
  t !! l = Some Dir → Forall (λ d, free_or_dir t d = true) (descend l names) →
  Forall (λ d, t !! d = Some Dir) (descend l names)
  ∨ walk t l (names ++ [n]) = Raise FileNotFoundError.
Proof.
  intros Hnames. revert l.
  induction Hnames as [|c names Hc Hnames IH]; intros l Hl Hfree.
  - left. constructor.
  - simpl in Hfree. apply Forall_cons in Hfree as [Hlc Hfree].
    apply free_or_dir_true in Hlc as [Hlc|Hlc].
    + right. rewrite <- app_comm_cons, walk_name by done.
      destruct names; by apply walk_missing.
    + destruct (IH (l ++ [c]) Hlc Hfree) as [Hdirs|Hwalk].
      * left. simpl. by constructor.
      * right. by rewrite <- app_comm_cons, walk_name.
Qed.

Lemma mkdir_parents_eq (anchored : bool) (rparts : list string)
    (exist_ok : bool) :
  mkdir_parents anchored rparts exist_ok
  = let self := mkPath anchored (rev rparts) in
    try_except (os_mkdir self) (λ e,
      match e with
      | KeyError _ | ValueError => raise e
      | FileNotFoundError =>
          match rparts with
          | [] => raise e
          | _ :: rparent =>
              mkdir_parents anchored rparent true;; mkdir_flat self exist_ok
          end
      | _ =>
          if exist_ok
          then (Path_is_dir self ≫= λ d : bool, if d then ret tt else raise e)
          else raise e
      end).
Proof. by destruct rparts. Qed.

(** [os.mkdir] at a location the walk reaches. *)
Lemma os_mkdir_at (p : Path) (w : world) (l : loc) :
  locate w p = Ok l →
  os_mkdir p w
  = match fs w !! l with
    | Some _ => (w, Raise FileExistsError)
    | None => (set_fs w (<[l := Dir]> (fs w)), Ok tt)
    end.
Proof. intros Hl. unfold os_mkdir. by rewrite Hl. Qed.

(** Making a directory that may exist, its parent being there. *)
Lemma mkdir_exist_ok (p : Path) (w : world) (l : loc) (h : exn → M unit) :
  locate w p = Ok l → free_or_dir (fs w) l = true →
  (∀ w', h FileExistsError w'
         = (Path_is_dir p ≫= λ d : bool,
              if d then ret tt else raise FileExistsError) w') →
  try_except (os_mkdir p) h w = (set_fs w (make_dir (fs w) l), Ok tt).
Proof.
  intros Hl Hfree Hh. unfold try_except. rewrite (os_mkdir_at p w l Hl).
  unfold make_dir.
  apply free_or_dir_true in Hfree as [Hnone|Hdir].
  - by rewrite Hnone.
  - rewrite Hdir, Hh, mbind_unfold. unfold Path_is_dir.
    rewrite Hl, Hdir. by rewrite set_fs_id.
Qed.

Lemma foldl_snoc {A B} (f : A → B → A) (a : A) (l : list B) (x : B) :
  foldl f a (l ++ [x]) = f (foldl f a l) x.
Proof. by rewrite foldl_app. Qed.

(** [p.mkdir(parents=True, exist_ok=True)] below an existing directory:
    the missing directories on the way are made, nothing else changes. *)
Lemma mkdir_parents_ok (anchored : bool) (pre : list string) (base : loc)
    (names : list string) (w : world) :
  walk (fs w) (if anchored then [] else cwd w) pre = Ok base →
  fs w !! base = Some Dir →
  Forall (λ c, c ≠ "..") names →
  Forall (λ d, free_or_dir (fs w) d = true) (descend base names) →
  mkdir_parents anchored (rev (pre ++ names)) true w
  = (set_fs w (foldl make_dir (fs w) (descend base names)), Ok tt).
Proof.
  intros Hpre Hbase.
  induction names as [|n names IH] using rev_ind; intros Hnames Hfree.
  - rewrite app_nil_r, mkdir_parents_eq. cbv zeta. rewrite rev_involutive.
    rewrite (mkdir_exist_ok _ w base); [| done | | done].
    + unfold make_dir. by rewrite Hbase.
    + apply free_or_dir_true. by right.
  - rewrite descend_snoc in Hfree |- *.
    apply Forall_app in Hfree as [Hfree Hl].
    rewrite Forall_singleton in Hl.
    apply Forall_app in Hnames as [Hnames Hn]. rewrite Forall_singleton in Hn.
    specialize (IH Hnames Hfree). rewrite foldl_snoc.
    set (l := base ++ names ++ [n]) in *.
    rewrite mkdir_parents_eq. cbv zeta.
    rewrite app_assoc, rev_unit. cbn [rev]. rewrite rev_involutive.
    set (self := mkPath anchored ((pre ++ names) ++ [n])).
    destruct (walk_dichotomy (fs w) base names n Hnames Hbase Hfree)
      as [Hdirs|Hwalk].
    + rewrite (mkdir_exist_ok self w l); [| | done | done].
      * by rewrite (make_dirs_id _ _ Hdirs).
      * unfold locate, self. cbn [is_absolute parts].
        rewrite <- app_assoc, walk_app, Hpre. by apply walk_into.
    + assert (os_mkdir self w = (w, Raise FileNotFoundError)) as Hmk.
      { unfold os_mkdir, locate, self. cbn [is_absolute parts].
        by rewrite <- app_assoc, walk_app, Hpre, Hwalk. }
      rewrite (try_Raise _ _ _ _ _ Hmk). rewrite (bind_Ok _ _ _ _ _ IH).
      unfold mkdir_flat.
      set (t1 := foldl make_dir (fs w) (descend base names)).
      assert (l ∉ descend base names) as Hfresh.
      { intros Hin%descend_length. unfold l in Hin.
        rewrite !length_app in Hin. simpl in Hin. lia. }
      rewrite (mkdir_exist_ok self _ l); [done | | | done].
      * unfold locate, self. cbn [is_absolute parts set_fs fs cwd].
        rewrite <- app_assoc, walk_app.
        rewrite (walk_mono _ t1 _ _ _ (make_dirs_keeps _ _) Hpre).
        apply walk_into; [done.. | by apply make_dirs_keeps |].
        apply Forall_forall. intros d Hd. apply make_dirs_made; [done|].
        by apply (proj1 (Forall_forall _ _) Hfree).
      * cbn [set_fs fs]. unfold free_or_dir, t1.
        by rewrite make_dirs_other.
Qed.

(** *** Writing files *)

Lemma put_file_lookup (t : gmap (list string) node) (f : loc * string) (l : loc) :
  put_file t f !! l = if decide (f.1 = l) then Some (File f.2) else t !! l.
Proof. unfold put_file. apply lookup_insert. Qed.

Lemma put_files_other (t : gmap (list string) node) (outs : list (loc * string))
    (l : loc) :
  l ∉ outs.*1 → foldl put_file t outs !! l = t !! l.
Proof.
  revert t. induction outs as [|f outs IH]; intros t Hl; [done|].
  rewrite fmap_cons in Hl. apply not_elem_of_cons in Hl as [Hne Hl].
  cbn [foldl]. rewrite IH by done. rewrite put_file_lookup.
  by rewrite decide_False.
Qed.

(** Writing files makes no directory. *)
Lemma put_files_is_dir (t : gmap (list string) node)
    (outs : list (loc * string)) (l : loc) :
  is_dir t l = false → is_dir (foldl put_file t outs) l = false.
Proof.
  revert t. induction outs as [|f outs IH]; intros t Hl; [done|].
  cbn [foldl]. apply IH. unfold is_dir in *. rewrite put_file_lookup.
  by case_decide.
Qed.

(** Writing files where no directory is loses no directory. *)
Lemma put_files_keeps (t : gmap (list string) node)
    (outs : list (loc * string)) :
  Forall (λ f, is_dir t f.1 = false) outs →
  keeps_dirs t (foldl put_file t outs).
Proof.
  intros Houts l Hl. rewrite put_files_other; [done|].
  intros [f [-> Hf]]%list_elem_of_fmap.
  rewrite Forall_forall in Houts. specialize (Houts f Hf).
  apply is_dir_false in Houts. done.
Qed.

(** The last file written at a location is what is there. *)
Lemma put_files_in (t : gmap (list string) node) (outs : list (loc * string))
    (l : loc) (c : string) :
  NoDup outs.*1 → (l, c) ∈ outs →
  foldl put_file t outs !! l = Some (File c).
Proof.
  revert t. induction outs as [|f outs IH]; intros t Hnd Hin.
  - by apply elem_of_nil in Hin.
  - rewrite fmap_cons in Hnd. apply NoDup_cons in Hnd as [Hf Hnd].
    cbn [foldl]. apply elem_of_cons in Hin as [<-|Hin].
    + rewrite put_files_other by done. rewrite put_file_lookup.
      by rewrite decide_True.
    + by apply IH.
Qed.

(** [with open(p, 'w') as f: f.write(c)] where no directory stands. *)
Lemma write_file_ok (p : Path) (w : world) (l : loc) (c : string) :
  locate w p = Ok l → is_dir (fs w) l = false →
  (open_w p ≫= λ f, write f c) w = (set_fs w (put_file (fs w) (l, c)), Ok tt).
Proof.
  intros Hl Hfile. rewrite mbind_unfold. unfold open_w. rewrite Hl.
  assert (∀ w', fs w' !! l = Some (File EmptyString) →
    write l c w' = (set_fs w' (<[l := File c]> (fs w')), Ok tt)) as Hwrite.
  { intros w' Hw'. unfold write. by rewrite Hw'. }
  unfold is_dir in Hfile. unfold put_file. cbn [fst snd].
  destruct (fs w !! l) as [[|c']|]; [done|..];
    rewrite Hwrite by apply lookup_insert_eq;
    unfold set_fs; cbn [fs cwd stdout]; by rewrite insert_insert_eq.
Qed.

Lemma truediv_relative (p : Path) (s : string) :
  startswith "/" s = false →
  p </> s = mkPath (is_absolute p) (parts p ++ parse_parts s).
Proof. intros Hs. unfold truediv. by rewrite Hs. Qed.

Lemma plain_name_spec (n : string) :
  plain_name n = true →
  parse_parts n = [n] ∧ n ≠ ".." ∧ startswith "/" n = false.
Proof.
  unfold plain_name. intros [[H1 H2]%andb_prop H3]%andb_prop.
  apply bool_decide_eq_true in H1, H2. apply negb_true_iff in H3. done.
Qed.

Lemma locate_child (w : world) (p : Path) (l : loc) (n : string) :
  plain_name n = true → locate w p = Ok l → fs w !! l = Some Dir →
  locate w (p </> n) = Ok (l ++ [n]).
Proof.
  intros (Hparts & Hn & Hrel)%plain_name_spec Hp Hl.
  rewrite truediv_relative, Hparts by done. unfold locate in *.
  cbn [is_absolute parts]. rewrite walk_app, Hp. by rewrite walk_name.
Qed.

Lemma locate_mono (w w' : world) (p : Path) (l : loc) :
  cwd w' = cwd w → keeps_dirs (fs w) (fs w') →
  locate w p = Ok l → locate w' p = Ok l.
Proof.
  intros Hcwd Hkeep. unfold locate. rewrite Hcwd. by apply walk_mono.
Qed.

(** A loop that writes one file per item into the directory [dir], which
    stands at [d], and reports it. *)
Lemma write_loop {X} (dir : Path) (d : loc) (name content : X → string)
    (items : list X) (w : world) :
  Forall (λ x, plain_name (name x) = true) items →
  locate w dir = Ok d → fs w !! d = Some Dir →
  Forall (λ x, is_dir (fs w) (d ++ [name x]) = false) items →
  for_ items (λ x,
    (open_w (dir </> name x) ≫= λ f, write f (content x));;
    print (created (name x))) w
  = (mkWorld
       (foldl put_file (fs w) ((λ x, (d ++ [name x], content x)) <$> items))
       (cwd w)
       (stdout w ++ ((λ x, created (name x)) <$> items)),
     Ok tt).
Proof.
  intros Hplain. revert w.
  induction Hplain as [|x items Hx Hplain IH]; intros w Hdir Hd Hfiles.
  - cbn [for_ fmap list_fmap foldl]. rewrite app_nil_r. by destruct w.
  - apply Forall_cons in Hfiles as [Hfile Hfiles].
    rewrite for_cons, mbind_unfold, mbind_unfold.
    rewrite (write_file_ok _ w (d ++ [name x]));
      [| by apply locate_child | done].
    unfold print at 1. cbn [set_fs fs cwd stdout].
    set (w1 := mkWorld _ _ _).
    assert (keeps_dirs (fs w) (fs w1)) as Hkeep.
    { apply (put_files_keeps _ [_]). by constructor. }
    rewrite IH.
    + unfold w1. cbn [fs cwd stdout]. rewrite !fmap_cons. cbn [foldl].
      by rewrite <- app_assoc.
    + by apply (locate_mono w).
    + by apply Hkeep.
    + eapply Forall_impl; [exact Hfiles|]. intros y Hy.
      by apply (put_files_is_dir _ [_]).
Qed.

(** ** The driver *)

Lemma ready_spec (script_dir : Path) (w : world) :
  ready script_dir w = true →
  ∃ here,
    locate w script_dir = Ok here ∧
    fs w !! here = Some Dir ∧ fs w !! up here = Some Dir ∧
    Forall (λ d, free_or_dir (fs w) d = true) (tree_locs (up here)) ∧
    Forall (λ f, is_dir (fs w) f.1 = false) (outputs (up here)).
Proof.
  unfold ready. destruct (locate w script_dir) as [here|]; [|done].
  intros [[[H1 H2]%andb_prop H3]%andb_prop H4]%andb_prop.
  exists here. split; [done|].
  apply is_dir_true in H1, H2. split; [done|]. split; [done|].
  rewrite forallb_forall in H3, H4. split; apply Forall_forall.
  - intros d Hd. apply H3. by apply list_elem_of_In.
  - intros f Hf. apply negb_true_iff, H4. by apply list_elem_of_In.
Qed.

Lemma tree_locs_eq (base : loc) :
  tree_locs base
  = [ base ++ ["client"]; base ++ ["client"; "Assets"]; resources_loc base;
      cards_loc base; chips_loc base ].
Proof.
  unfold tree_locs, cards_loc, chips_loc, resources_loc. cbn [descend app].
  by rewrite <- !app_assoc.
Qed.

Lemma card_faces_spec (face : string * string) :
  face ∈ card_faces → face.1 ∈ spec_ranks ∧ face.2 ∈ spec_suits.
Proof.
  revert face. apply Forall_forall.
  apply (bool_decide_unpack _). vm_compute. exact I.
Qed.

Lemma card_names_plain :
  Forall (λ face, plain_name (card_name face) = true) card_faces.
Proof. apply (bool_decide_unpack _). vm_compute. exact I. Qed.

Lemma chip_names_plain :
  Forall (λ chip, plain_name (chip_name chip) = true) chips.
Proof. apply (bool_decide_unpack _). vm_compute. exact I. Qed.

(** The output locations lie deeper than the directories of the tree. *)
Lemma outputs_length (base : loc) (f : loc * string) :
  f ∈ outputs base → length f.1 = (length base + 5)%nat.
Proof.
  unfold outputs, cards_loc, chips_loc, resources_loc.
  intros [Hf|Hf]%elem_of_app; apply list_elem_of_fmap in Hf as [g [-> _]];
    cbn [fst]; rewrite !length_app; simpl; lia.
Qed.

Lemma tree_locs_length (base d : loc) :
  d ∈ tree_locs base → (length d < length base + 5)%nat.
Proof.
  rewrite tree_locs_eq. unfold cards_loc, chips_loc, resources_loc.
  rewrite !elem_of_cons, elem_of_nil.
  intros [->|[->|[->|[->|[->|[]]]]]]; rewrite !length_app; simpl; lia.
Qed.

Lemma bind_assoc {A B C} (m : M A) (f : A → M B) (g : B → M C) (w : world) :
  ((m ≫= f) ≫= g) w = (m ≫= λ a, f a ≫= g) w.
Proof.
  rewrite !mbind_unfold. destruct (m w) as [w' [a|e]]; [|done].
  by rewrite mbind_unfold.
Qed.

Lemma way_to_base (script_dir : Path) (w : world) (here : loc) :
  locate w script_dir = Ok here → fs w !! here = Some Dir →
  walk (fs w) (if is_absolute script_dir then [] else cwd w)
    (parts script_dir ++ [".."]) = Ok (up here).
Proof.
  intros Hhere Hdir. rewrite walk_app. unfold locate in Hhere.
  rewrite Hhere. by rewrite walk_up.
Qed.

(** The two [mkdir] calls of the driver make the missing directories of the
    output tree and nothing else. *)
Lemma mkdirs_ok (script_dir : Path) (w : world) (here : loc) :
  locate w script_dir = Ok here →
  fs w !! here = Some Dir → fs w !! up here = Some Dir →
  Forall (λ d, free_or_dir (fs w) d = true) (tree_locs (up here)) →
  (Path_mkdir (script_dir </> "../client/Assets/Resources/Cards") true true;;
   Path_mkdir (script_dir </> "../client/Assets/Resources/Chips") true true) w
  = (set_fs w (foldl make_dir (fs w) (tree_locs (up here))), Ok tt).
Proof.
  intros Hhere Hdir Hbase Hfree. set (base := up here) in *.
  pose proof (way_to_base _ _ _ Hhere Hdir) as Hway. fold base in Hway.
  rewrite !(truediv_relative script_dir) by reflexivity.
  change (parse_parts "../client/Assets/Resources/Cards")
    with ([".."] ++ ["client"; "Assets"; "Resources"; "Cards"]).
  change (parse_parts "../client/Assets/Resources/Chips")
    with ([".."] ++ ["client"; "Assets"; "Resources"; "Chips"]).
  unfold Path_mkdir. cbn [is_absolute parts]. rewrite !app_assoc.
  assert (∀ names : list string, Forall (λ c, c ≠ "..") names ↔ Forall (λ c, bool_decide (c ≠ "..") = true) names) as Hdots.
  { intros names. apply Forall_iff. intros c. by rewrite bool_decide_eq_true. }
  unfold tree_locs in *. apply Forall_app in Hfree as [Hcards Hchips].
  rewrite Forall_singleton in Hchips.
  rewrite mbind_unfold.
  rewrite (mkdir_parents_ok _ _ base) by
    (done || (apply Hdots; by repeat constructor)).
  set (names := ["client"; "Assets"; "Resources"; "Cards"]) in *.
  set (t1 := foldl make_dir (fs w) (descend base names)).
  assert (keeps_dirs (fs w) t1) as Hkeep by apply make_dirs_keeps.
  assert (Forall (λ d, t1 !! d = Some Dir) (descend base names)) as Hmade.
  { apply Forall_forall. intros d Hd. apply make_dirs_made; [done|].
    by apply (proj1 (Forall_forall _ _) Hcards). }
  assert (chips_loc base ∉ descend base names) as Hfresh.
  { unfold chips_loc, resources_loc, names. cbn [descend].
    rewrite <- !app_assoc. cbn [app]. rewrite !elem_of_cons, elem_of_nil.
    intros [H|[H|[H|[H|[]]]]]; apply app_inv_head in H; discriminate. }
  assert (descend base ["client"; "Assets"; "Resources"; "Chips"]
          = take 3 (descend base names) ++ [chips_loc base]) as Hsame.
  { unfold chips_loc, resources_loc, names. cbn [descend take].
    by rewrite <- !app_assoc. }
  rewrite (mkdir_parents_ok _ _ base); rewrite ?Hsame.
  - cbn [set_fs fs cwd stdout]. rewrite !foldl_snoc. do 3 f_equal.
    apply make_dirs_id. by apply Forall_take.
  - cbn [set_fs fs cwd]. by apply (walk_mono (fs w)).
  - by apply Hkeep.
  - apply Hdots. by repeat constructor.
  - cbn [set_fs fs]. apply Forall_app. split.
    + apply Forall_take. eapply Forall_impl; [exact Hmade|].
      intros d Hd. apply free_or_dir_true. by right.
    + apply Forall_singleton. unfold free_or_dir, t1.
      by rewrite make_dirs_other.
Qed.

(** Where a path below the directory of the script leads. *)
Lemma locate_below (script_dir : Path) (w : world) (here : loc)
    (s : string) (names : list string) (n : string) :
  startswith "/" s = false → parse_parts s = ".." :: names ++ [n] →
  Forall (λ c, c ≠ "..") names → n ≠ ".." →
  locate w script_dir = Ok here →
  fs w !! here = Some Dir → fs w !! up here = Some Dir →
  Forall (λ d, fs w !! d = Some Dir) (descend (up here) names) →
  locate w (script_dir </> s) = Ok (up here ++ names ++ [n]).
Proof.
  intros Hs Hparts Hnames Hn Hhere Hdir Hbase Hdirs.
  rewrite truediv_relative, Hparts by done. unfold locate in *.
  cbn [is_absolute parts]. rewrite walk_app, Hhere, walk_up by done.
  by apply walk_into.
Qed.

Lemma write_back_eq (p : Path) (w : world) :
  (open_w p ≫= λ f, generate_card_back_svg ≫= λ svg, write f svg) w
  = (open_w p ≫= λ f, write f (document generate_card_back_svg)) w.
Proof.
  rewrite !mbind_unfold. by destruct (open_w p w) as [w' [f|e]].
Qed.

Lemma main_ok (script_dir : Path) (w : world) :
  ready script_dir w = true →
  main script_dir w
  = (world_after_main script_dir w (base_of script_dir w), Ok tt).
Proof.
  intros (here & Hhere & Hdir & Hbase & Hfree & Hfiles)%ready_spec.
  unfold base_of, world_after_main, fs_after_main. rewrite Hhere.
  set (base := up here) in *.
  unfold main. cbv zeta.
  rewrite <- bind_assoc, mbind_unfold.
  rewrite (mkdirs_ok script_dir w here) by done. fold base.
  set (cards_dir := script_dir </> "../client/Assets/Resources/Cards").
  set (chips_dir := script_dir </> "../client/Assets/Resources/Chips").
  set (t2 := foldl make_dir (fs w) (tree_locs base)).
  assert (keeps_dirs (fs w) t2) as Hkeep by apply make_dirs_keeps.
  assert (Forall (λ d, t2 !! d = Some Dir) (tree_locs base)) as Hmade.
  { apply Forall_forall. intros d Hd. apply make_dirs_made; [done|].
    by apply (proj1 (Forall_forall _ _) Hfree). }
  assert (Forall (λ f, is_dir t2 f.1 = false) (outputs base)) as Hfiles2.
  { apply Forall_forall. intros f Hf. unfold is_dir, t2.
    rewrite make_dirs_other.
    - by apply (proj1 (Forall_forall _ _) Hfiles).
    - intros Hin%tree_locs_length. apply outputs_length in Hf. lia. }
  rewrite tree_locs_eq in Hmade.
  apply Forall_cons in Hmade as [Hd1 Hmade].
  apply Forall_cons in Hmade as [Hd2 Hmade].
  apply Forall_cons in Hmade as [Hd3 Hmade].
  apply Forall_cons in Hmade as [Hd4 Hmade].
  apply Forall_cons in Hmade as [Hd5 _].
  assert (Forall (λ d, t2 !! d = Some Dir)
            (descend base ["client"; "Assets"; "Resources"])) as Hdirs.
  { cbn [descend]. rewrite <- !app_assoc. by repeat constructor. }
  assert (∀ w', cwd w' = cwd w → keeps_dirs t2 (fs w') →
    locate w' cards_dir = Ok (cards_loc base) ∧
    locate w' chips_dir = Ok (chips_loc base) ∧
    fs w' !! cards_loc base = Some Dir ∧
    fs w' !! chips_loc base = Some Dir) as Hdirs'.
  { intros w' Hcwd Hkeep'.
    assert (locate (set_fs w t2) script_dir = Ok here) as Hhere2
      by by apply (locate_mono w).
    split; [|split; [|split; by apply Hkeep']].
    - apply (locate_mono (set_fs w t2)); [done..|].
      unfold cards_loc, resources_loc. rewrite <- app_assoc.
      apply (locate_below _ _ _ _ ["client"; "Assets"; "Resources"] "Cards");
        try done; [by repeat constructor | by apply Hkeep..].
    - apply (locate_mono (set_fs w t2)); [done..|].
      unfold chips_loc, resources_loc. rewrite <- app_assoc.
      apply (locate_below _ _ _ _ ["client"; "Assets"; "Resources"] "Chips");
        try done; [by repeat constructor | by apply Hkeep..]. }
  unfold outputs in Hfiles2. apply Forall_app in Hfiles2 as [Hcards Hchips].
  unfold card_outputs in Hcards. rewrite fmap_app in Hcards.
  apply Forall_app in Hcards as [Hfaces Hback].
  rewrite Forall_fmap, Forall_singleton in Hback.
  rewrite !Forall_fmap in Hfaces. unfold chip_outputs in Hchips.
  rewrite !Forall_fmap in Hchips.
  unfold compose in Hback, Hfaces, Hchips. cbn [fst snd] in Hback, Hfaces, Hchips.
  (* the first line *)
  rewrite mbind_unfold. unfold print at 1. cbn [set_fs fs cwd stdout].
  (* the faces *)
  rewrite mbind_unfold, for_nested.
  change (keys SUITS ≫= _) with card_faces.
  rewrite (for_ext _ _ (λ face,
    (open_w (cards_dir </> card_name face)
     ≫= λ f, write f (document (generate_card_svg face.1 face.2)));;
    print (created (card_name face)))).
  2: { intros face w' [Hr Hs]%card_faces_spec.
       by rewrite mbind_unfold, generate_card_svg_good. }
  set (w3 := mkWorld t2 _ _).
  destruct (Hdirs' w3 eq_refl (keeps_dirs_refl _)) as (Hc3 & _ & HC3 & _).
  rewrite (write_loop cards_dir (cards_loc base))
    by (done || exact card_names_plain).
  clear Hc3 HC3. subst w3. cbn [set_fs fs cwd stdout].
  set (t4 := foldl put_file t2 _).
  assert (keeps_dirs t2 t4) as Hkeep4.
  { apply put_files_keeps. by rewrite Forall_fmap. }
  (* the back *)
  rewrite mbind_unfold. unfold print at 1. cbn [set_fs fs cwd stdout].
  rewrite mbind_unfold, write_back_eq.
  set (w5 := mkWorld t4 _ _).
  destruct (Hdirs' w5 eq_refl Hkeep4) as (Hc5 & _ & HC5 & _).
  rewrite (write_file_ok _ w5 (cards_loc base ++ ["card_back.svg"]));
    [| by apply locate_child | by apply put_files_is_dir].
  clear Hc5 HC5. subst w5. cbn [set_fs fs cwd stdout].
  set (t6 := put_file t4 _).
  assert (keeps_dirs t2 t6) as Hkeep6.
  { apply (keeps_dirs_trans _ t4); [done|].
    apply (put_files_keeps _ [_]). constructor; [|done].
    by apply put_files_is_dir. }
  rewrite mbind_unfold. unfold print at 1. cbn [set_fs fs cwd stdout].
  rewrite mbind_unfold. unfold print at 1. cbn [set_fs fs cwd stdout].
  (* the chips *)
  rewrite mbind_unfold.
  rewrite (for_ext _ _ (λ chip : Z * string * string,
    (open_w (chips_dir </> chip_name chip)
     ≫= λ f : loc, write f (document (generate_chip_svg chip.1.1 chip.1.2
                                  (Some chip.2))));;
    print (created (chip_name chip)))).
  2: { intros [[value color] text_color] w' Hchip.
       by rewrite mbind_unfold, generate_chip_svg_good. }
  set (w7 := mkWorld t6 _ _).
  destruct (Hdirs' w7 eq_refl Hkeep6) as (_ & Hc7 & _ & HC7).
  rewrite (write_loop chips_dir (chips_loc base));
    [| exact chip_names_plain | done | done |].
  2: { eapply Forall_impl; [exact Hchips|]. intros chip Hchip.
       cbn [w7 fs]. apply (put_files_is_dir _ [_]).
       by apply put_files_is_dir. }
  clear Hc7 HC7. subst w7. cbn [set_fs fs cwd stdout].
  set (t8 := foldl put_file t6 _).
  (* the summary *)
  do 5 (rewrite mbind_unfold; unfold print at 1; cbn [set_fs fs cwd stdout]).
  rewrite mbind_unfold. unfold Path_absolute at 1. rewrite mbind_unfold.
  unfold print at 1. cbn [set_fs fs cwd stdout].
  unfold Path_absolute. rewrite mbind_unfold.
  unfold print at 1. cbn [set_fs fs cwd stdout].
  assert (t8 = foldl put_file t2 (outputs base)) as ->.
  { unfold t8, t6, t4, outputs, card_outputs, chip_outputs.
    rewrite !fmap_app, !foldl_app, <- !list_fmap_compose. reflexivity. }
  do 2 f_equal. unfold report, absolute_in. rewrite <- !app_assoc.
  reflexivity.
Qed.

(** *** The file system after a run *)

(** The output locations are the root of the output tree followed by
    [Cards] or [Chips] and a file name. *)
Lemma outputs_locs (base : loc) :
  (outputs base).*1
  = (λ suffix, resources_loc base ++ suffix)
    <$> (((λ f, ["Cards"; f.1]) <$> card_outputs)
         ++ ((λ f, ["Chips"; f.1]) <$> chip_outputs)).
Proof.
  unfold outputs, cards_loc, chips_loc.
  rewrite !fmap_app, <- !list_fmap_compose.
  f_equal; apply list_fmap_ext; intros i f _; simpl; by rewrite <- app_assoc.
Qed.

Lemma output_names_NoDup :
  NoDup (((λ f, ["Cards"; f.1]) <$> card_outputs)
         ++ ((λ f : string * string, ["Chips"; f.1]) <$> chip_outputs)).
Proof. apply (bool_decide_unpack _). vm_compute. exact I. Qed.

Lemma outputs_NoDup (base : loc) : NoDup (outputs base).*1.
Proof.
  rewrite outputs_locs. apply NoDup_fmap_2; [|exact output_names_NoDup].
  intros s1 s2. apply app_inv_head.
Qed.

Lemma outputs_not_tree (base : loc) (l : loc) :
  l ∈ (outputs base).*1 → l ∉ tree_locs base.
Proof.
  intros [f [-> Hf]]%list_elem_of_fmap Hin%tree_locs_length.
  apply outputs_length in Hf. lia.
Qed.

Lemma after_main_file (t : gmap (list string) node) (base : loc)
    (l : loc) (c : string) :
  (l, c) ∈ outputs base → fs_after_main t base !! l = Some (File c).
Proof. apply put_files_in, outputs_NoDup. Qed.

Lemma after_main_dir (t : gmap (list string) node) (base : loc) (d : loc) :
  d ∈ tree_locs base → free_or_dir t d = true →
  fs_after_main t base !! d = Some Dir.
Proof.
  intros Hd Hfree. unfold fs_after_main. rewrite put_files_other.
  - by apply make_dirs_made.
  - intros Hin. by apply outputs_not_tree in Hin.
Qed.

Lemma after_main_other (t : gmap (list string) node) (base : loc) (l : loc) :
  l ∉ tree_locs base → l ∉ (outputs base).*1 →
  fs_after_main t base !! l = t !! l.
Proof.
  intros Htree Hout. unfold fs_after_main.
  by rewrite put_files_other, make_dirs_other.
Qed.

Lemma after_main_keeps (t : gmap (list string) node) (base : loc) :
  Forall (λ f, is_dir t f.1 = false) (outputs base) →
  keeps_dirs t (fs_after_main t base).
Proof.
  intros Hfiles. unfold fs_after_main.
  apply (keeps_dirs_trans _ (foldl make_dir t (tree_locs base)));
    [apply make_dirs_keeps|].
  apply put_files_keeps. apply Forall_forall. intros f Hf.
  unfold is_dir. rewrite make_dirs_other.
  - by apply (proj1 (Forall_forall _ _) Hfiles).
  - apply outputs_not_tree. apply list_elem_of_fmap. by exists f.
Qed.

(** A second run changes nothing in the file system. *)
Lemma after_main_twice (t : gmap (list string) node) (base : loc) :
  Forall (λ d, free_or_dir t d = true) (tree_locs base) →
  fs_after_main (fs_after_main t base) base = fs_after_main t base.
Proof.
  intros Hfree. apply map_eq. intros l.
  destruct (decide (l ∈ (outputs base).*1)) as [Hout|Hout].
  - apply list_elem_of_fmap in Hout as [[l' c] [-> Hf]].
    by rewrite !(after_main_file _ _ _ c).
  - destruct (decide (l ∈ tree_locs base)) as [Htree|Htree].
    + rewrite (after_main_dir t) by
        (done || by apply (proj1 (Forall_forall _ _) Hfree)).
      apply after_main_dir; [done|].
      apply free_or_dir_true. right. apply after_main_dir; [done|].
      by apply (proj1 (Forall_forall _ _) Hfree).
    + by rewrite !after_main_other.
Qed.

Lemma ready_intro (script_dir : Path) (w : world) (here : loc) :
  locate w script_dir = Ok here →
  fs w !! here = Some Dir → fs w !! up here = Some Dir →
  Forall (λ d, free_or_dir (fs w) d = true) (tree_locs (up here)) →
  Forall (λ f, is_dir (fs w) f.1 = false) (outputs (up here)) →
  ready script_dir w = true.
Proof.
  intros Hhere Hdir Hbase Hfree Hfiles. unfold ready. rewrite Hhere.
  apply is_dir_true in Hdir, Hbase. rewrite Hdir, Hbase.
  rewrite Forall_forall in Hfree. rewrite Forall_forall in Hfiles.
  rewrite !andb_true_l. apply andb_true_intro. split; apply forallb_forall.
  - intros d Hd. apply Hfree. by apply list_elem_of_In.
  - intros f Hf. apply negb_true_iff, Hfiles. by apply list_elem_of_In.
Qed.

(** The world a run leaves is ready for another run, from the same base. *)
Lemma ready_after_main (script_dir : Path) (w : world) :
  ready script_dir w = true →
  let w' := world_after_main script_dir w (base_of script_dir w) in
  ready script_dir w' = true ∧ base_of script_dir w' = base_of script_dir w.
Proof.
  intros Hready. cbv zeta.
  destruct (ready_spec _ _ Hready)
    as (here & Hhere & Hdir & Hbase & Hfree & Hfiles).
  unfold base_of. rewrite Hhere.
  set (w' := world_after_main script_dir w (up here)).
  assert (keeps_dirs (fs w) (fs w')) as Hkeep by by apply after_main_keeps.
  assert (locate w' script_dir = Ok here) as Hhere'
    by by apply (locate_mono w).
  rewrite Hhere'. split; [|done].
  apply (ready_intro _ _ here); [done | by apply Hkeep..| |].
  - apply Forall_forall. intros d Hd. apply free_or_dir_true. right.
    apply after_main_dir; [done|].
    by apply (proj1 (Forall_forall _ _) Hfree).
  - apply Forall_forall. intros [l c] Hf. unfold is_dir. cbn [fst].
    unfold w', world_after_main. cbn [fs].
    by rewrite (after_main_file _ _ _ c).
Qed.

(** A directory that exists is left alone by
    [mkdir(parents=True, exist_ok=True)]. *)
Lemma mkdir_existing (p : Path) (w : world) (d : loc) :
  locate w p = Ok d → fs w !! d = Some Dir →
  Path_mkdir p true true w = (w, Ok tt).
Proof.
  intros Hp Hd. unfold Path_mkdir. rewrite mkdir_parents_eq. cbv zeta.
  rewrite rev_involutive.
  assert (mkPath (is_absolute p) (parts p) = p) as -> by by destruct p.
  rewrite (mkdir_exist_ok p w d); [| done | | done].
  - unfold make_dir. by rewrite Hd, set_fs_id.
  - apply free_or_dir_true. by right.
Qed.

(** In a tree, what lies below a missing directory is missing. *)
Lemma tree_missing_below (t : gmap (list string) node) (l : loc)
    (names : list string) :
  tree t → t !! l = None → names ≠ [] → t !! (l ++ names) = None.
Proof.
  intros [_ Htree] Hl. induction names as [|n names IH] using rev_ind;
    intros Hne; [done|].
  destruct (t !! (l ++ names ++ [n])) as [x|] eqn:Hx; [|done].
  rewrite app_assoc in Hx.
  assert (t !! (l ++ names) = Some Dir) as Hparent by (apply (Htree _ n); eauto).
  destruct names as [|c names]; [rewrite app_nil_r in Hparent; congruence|].
  rewrite IH in Hparent; done.
Qed.

Lemma tree_up (t : gmap (list string) node) (l : loc) :
  tree t → t !! l = Some Dir → t !! up l = Some Dir.
Proof.
  intros [Hroot Htree] Hl. destruct l as [|c l] using rev_ind; [done|].
  unfold up. rewrite removelast_last. apply (Htree _ c). eauto.
Qed.

Lemma tree_ready (script_dir : Path) (w : world) (here : loc) :
  tree (fs w) →
  locate w script_dir = Ok here → fs w !! here = Some Dir →
  free_or_dir (fs w) (up here ++ ["client"]) = true →
  free_or_dir (fs w) (up here ++ ["client"; "Assets"]) = true →
  fs w !! resources_loc (up here) = None →
  ready script_dir w = true.
Proof.
  intros Htree Hhere Hdir Hclient Hassets Hroot.
  apply (ready_intro _ _ here); [done.. | by apply tree_up | |].
  - rewrite tree_locs_eq. repeat constructor; try done;
      apply free_or_dir_true; left; [done|..];
      by apply tree_missing_below.
  - apply Forall_forall. intros f Hf. apply is_dir_false.
    assert (f.1 ∈ (outputs (up here)).*1) as Hin
      by (apply list_elem_of_fmap; by exists f).
    rewrite outputs_locs in Hin.
    apply list_elem_of_fmap in Hin as [suffix [-> Hsuffix]].
    rewrite tree_missing_below; [done..|].
    intros ->. apply elem_of_app in Hsuffix as [H|H];
      apply list_elem_of_fmap in H as [? [? _]]; discriminate.
Qed.

Lemma tree_check_sound (t : gmap (list string) node) :
  tree_check t = true → tree t.
Proof.
  unfold tree_check. intros [Hroot Hall]%andb_prop.
  split; [by apply is_dir_true|].
  intros l n [x Hx]. rewrite forallb_forall in Hall.
  apply elem_of_map_to_list, list_elem_of_In in Hx.
  specialize (Hall _ Hx). cbn [fst] in Hall. unfold up in Hall.
  rewrite removelast_last in Hall. by apply is_dir_true.
Qed.

(** *** No lookup error in the driver *)

Lemma nk_ret {A} (a : A) : no_KeyError (ret a).
Proof. by intros w key. Qed.

Lemma nk_bind {A B} (m : M A) (k : A → M B) :
  no_KeyError m → (∀ a, no_KeyError (k a)) → no_KeyError (m ≫= k).
Proof.
  intros Hm Hk w key. rewrite mbind_unfold. specialize (Hm w key).
  destruct (m w) as [w' [a|e]]; [apply Hk|].
  cbn [snd] in *. intros [= ->]. by apply Hm.
Qed.

Lemma nk_try {A} (m : M A) (h : exn → M A) :
  no_KeyError m →
  (∀ e, (∀ key, e ≠ KeyError key) → no_KeyError (h e)) →
  no_KeyError (try_except m h).
Proof.
  intros Hm Hh w key. unfold try_except. specialize (Hm w).
  destruct (m w) as [w' [a|e]]; [done|].
  apply Hh. intros key' ->. by apply (Hm key').
Qed.

Lemma nk_for {X} (xs : list X) (body : X → M unit) :
  (∀ x, x ∈ xs → no_KeyError (body x)) → no_KeyError (for_ xs body).
Proof.
  induction xs as [|x xs IH]; intros Hbody; [apply nk_ret|].
  cbn [for_]. apply nk_bind; [apply Hbody; left|].
  intros _. apply IH. intros y Hy. apply Hbody. by right.
Qed.

Lemma nk_print (s : string) : no_KeyError (print s).
Proof. by intros w key. Qed.

Lemma nk_os_mkdir (p : Path) : no_KeyError (os_mkdir p).
Proof.
  intros w key. unfold os_mkdir.
  destruct (locate w p) as [l|e] eqn:Hl.
  - by destruct (fs w !! l).
  - cbn [snd]. intros [= ->]. unfold locate in Hl. revert Hl.
    generalize (if is_absolute p then [] else cwd w).
    induction (parts p) as [|c names IH]; intros cur; [done|].
    rewrite walk_cons. destruct (fs w !! cur) as [[|?]|]; [apply IH|done..].
Qed.

Lemma nk_is_dir (p : Path) : no_KeyError (Path_is_dir p).
Proof. by intros w key. Qed.

Lemma nk_absolute (p : Path) : no_KeyError (Path_absolute p).
Proof. by intros w key. Qed.

Lemma nk_exist_ok (p : Path) (e : exn) :
  (∀ key, e ≠ KeyError key) →
  no_KeyError (Path_is_dir p ≫= λ d : bool, if d then ret tt else raise e).
Proof.
  intros He. apply nk_bind; [apply nk_is_dir|].
  intros [|]; [apply nk_ret|]. intros w key [= ->]. by apply (He key).
Qed.

Lemma nk_mkdir_flat (p : Path) (exist_ok : bool) :
  no_KeyError (mkdir_flat p exist_ok).
Proof.
  apply nk_try; [apply nk_os_mkdir|].
  intros e He.
  destruct e, exist_ok; try (by apply nk_exist_ok);
    intros w k [= ?]; by eapply He.
Qed.

Lemma nk_mkdir_parents (anchored : bool) (rparts : list string)
    (exist_ok : bool) :
  no_KeyError (mkdir_parents anchored rparts exist_ok).
Proof.
  revert exist_ok. induction rparts as [|c rparts IH]; intros exist_ok;
    rewrite mkdir_parents_eq; cbv zeta;
    (apply nk_try; [apply nk_os_mkdir|]); intros e He;
    destruct e, exist_ok; try (by apply nk_exist_ok);
    try (intros w k [= ?]; by eapply He);
    apply nk_bind; auto using nk_mkdir_flat.
Qed.

Lemma nk_Path_mkdir (p : Path) (parents exist_ok : bool) :
  no_KeyError (Path_mkdir p parents exist_ok).
Proof.
  unfold Path_mkdir. destruct parents;
    [apply nk_mkdir_parents | apply nk_mkdir_flat].
Qed.

Lemma nk_open_w (p : Path) : no_KeyError (open_w p).
Proof.
  intros w key. unfold open_w. pose proof (nk_os_mkdir p w key) as Hmk.
  unfold os_mkdir in Hmk. destruct (locate w p) as [l|e].
  - by destruct (fs w !! l) as [[|?]|].
  - cbn [snd] in *. intros [= ->]. by apply Hmk.
Qed.

Lemma nk_write (f : loc) (s : string) : no_KeyError (write f s).
Proof. intros w key. unfold write. by destruct (fs w !! f) as [[|?]|]. Qed.

Lemma nk_pure_Ok {A} (m : M A) (a : A) :
  (∀ w, m w = (w, Ok a)) → no_KeyError m.
Proof. intros Hm w key. by rewrite Hm. Qed.

(** The one exception of [generate_chip_svg] is [ValueError]. *)
Lemma nk_chip (value : Z) (color : string) (text_color : option string) :
  no_KeyError (generate_chip_svg value color text_color).
Proof.
  intros w key. rewrite generate_chip_svg_pure. cbn [snd].
  unfold result_of, generate_chip_svg, mbind, M_bind, bind, format_int.
  cbv zeta. by destruct (decide (digits value ≤ int_max_str_digits)).
Qed.

Create HintDb nk discriminated.
#[local] Hint Resolve nk_ret nk_print nk_Path_mkdir nk_open_w nk_write
  nk_absolute nk_chip : nk.

(** One step of the analysis, by the shape of the computation. *)
Ltac nk_step :=
  lazymatch goal with
  | |- no_KeyError (_ ≫= _) => apply nk_bind; [|intros ?]
  | |- no_KeyError (for_ _ _) => apply nk_for; intros ? ?
  | |- no_KeyError (match ?x with _ => _ end) => destruct x
  | |- no_KeyError (generate_card_svg ?rank ?suit) =>
      apply (nk_pure_Ok _ (document (generate_card_svg rank suit)));
      intros ?; by apply generate_card_svg_good
  | |- no_KeyError ?m =>
      first [ solve [auto with nk]
            | by apply (nk_pure_Ok _ (document m)) ]
  end.

Lemma main_no_KeyError (script_dir : Path) : no_KeyError (main script_dir).
Proof. unfold main. cbv zeta. repeat nk_step. Qed.

(** C7. [generate_card_svg] returns a document for every rank and suit of
    the tables, and raises [KeyError] for every other pair: for the suit
    when the suit is unknown (it is looked up first), else for the rank.
    The driver raises no [KeyError] in any world: its loops range over the
    tables. *)
Theorem lookup_errors :
  (∀ rank suit w, rank ∈ spec_ranks → suit ∈ spec_suits →
     ∃ doc, generate_card_svg rank suit w = (w, Ok doc)) ∧
  (∀ rank suit w, suit ∉ spec_suits →
     generate_card_svg rank suit w = (w, Raise (KeyError suit))) ∧
  (∀ rank suit w, suit ∈ spec_suits → rank ∉ spec_ranks →
     generate_card_svg rank suit w = (w, Raise (KeyError rank))) ∧
  (∀ face, face ∈ card_faces → face.1 ∈ spec_ranks ∧ face.2 ∈ spec_suits) ∧
  (∀ script_dir, no_KeyError (main script_dir)).
Proof.
  split; [|split; [|split; [|split]]].
  - intros rank suit w Hrank Hsuit. eexists.
    by apply generate_card_svg_good.
  - intros rank suit w. apply generate_card_svg_bad_suit.
  - intros rank suit w. apply generate_card_svg_bad_rank.
  - exact card_faces_spec.
  - exact main_no_KeyError.
Qed.

Lemma lookup_errors_witness :
  generate_card_svg "A" "x" nowhere = (nowhere, Raise (KeyError "x")) ∧
  generate_card_svg "1" "s" nowhere = (nowhere, Raise (KeyError "1")) ∧
  ∃ doc, generate_card_svg "A" "s" nowhere = (nowhere, Ok doc).
Proof.
  destruct lookup_errors as (Hgood & Hsuit & Hrank & _).
  split; [|split].
  - apply Hsuit. by apply (bool_decide_unpack _).
  - apply Hrank; by apply (bool_decide_unpack _).
  - apply Hgood; by apply (bool_decide_unpack _).
Defined.

(** ** The run *)

Lemma card_names_spec (name : string) :
  name ∈ card_outputs.*1 ↔ name ∈ spec_card_files.
Proof.
  assert (Forall (λ n, n ∈ spec_card_files) card_outputs.*1) as H1
    by (apply (bool_decide_unpack _); vm_compute; exact I).
  assert (Forall (λ n, n ∈ card_outputs.*1) spec_card_files) as H2
    by (apply (bool_decide_unpack _); vm_compute; exact I).
  rewrite Forall_forall in H1, H2. split; auto.
Qed.

Lemma chip_names_spec (name : string) :
  name ∈ chip_outputs.*1 ↔ name ∈ spec_chip_files.
Proof.
  assert (Forall (λ n, n ∈ spec_chip_files) chip_outputs.*1) as H1
    by (apply (bool_decide_unpack _); vm_compute; exact I).
  assert (Forall (λ n, n ∈ chip_outputs.*1) spec_chip_files) as H2
    by (apply (bool_decide_unpack _); vm_compute; exact I).
  rewrite Forall_forall in H1, H2. split; auto.
Qed.

Lemma cards_output_name (base : loc) (name : string) :
  cards_loc base ++ [name] ∈ (outputs base).*1 ↔ name ∈ spec_card_files.
Proof.
  rewrite <- card_names_spec, outputs_locs. unfold cards_loc.
  rewrite <- app_assoc. split.
  - intros [suffix [Heq Hin]]%list_elem_of_fmap.
    apply app_inv_head in Heq as <-.
    apply elem_of_app in Hin as [Hin|Hin];
      apply list_elem_of_fmap in Hin as [f [[= ->] Hf]].
    apply list_elem_of_fmap. by exists f.
  - intros [f [-> Hf]]%list_elem_of_fmap. apply list_elem_of_fmap.
    eexists. split; [reflexivity|]. apply elem_of_app. left.
    apply list_elem_of_fmap. by exists f.
Qed.

Lemma chips_output_name (base : loc) (name : string) :
  chips_loc base ++ [name] ∈ (outputs base).*1 ↔ name ∈ spec_chip_files.
Proof.
  rewrite <- chip_names_spec, outputs_locs. unfold chips_loc.
  rewrite <- app_assoc. split.
  - intros [suffix [Heq Hin]]%list_elem_of_fmap.
    apply app_inv_head in Heq as <-.
    apply elem_of_app in Hin as [Hin|Hin];
      apply list_elem_of_fmap in Hin as [f [[= ->] Hf]].
    apply list_elem_of_fmap. by exists f.
  - intros [f [-> Hf]]%list_elem_of_fmap. apply list_elem_of_fmap.
    eexists. split; [reflexivity|]. apply elem_of_app. right.
    apply list_elem_of_fmap. by exists f.
Qed.

(** The output locations, by the file names of the specification. *)
Lemma outputs_spec (base : loc) (l : loc) :
  l ∈ (outputs base).*1 ↔
  (∃ name, name ∈ spec_card_files ∧ l = cards_loc base ++ [name]) ∨
  (∃ name, name ∈ spec_chip_files ∧ l = chips_loc base ++ [name]).
Proof.
  split.
  - intros Hl. pose proof Hl as Hin. unfold outputs in Hin.
    rewrite fmap_app, <- !list_fmap_compose in Hin.
    apply elem_of_app in Hin as [Hin|Hin];
      apply list_elem_of_fmap in Hin as [f [-> _]]; cbn [compose fst] in *.
    + left. exists f.1. split; [|done]. by apply cards_output_name in Hl.
    + right. exists f.1. split; [|done]. by apply chips_output_name in Hl.
  - intros [(name & Hname & ->)|(name & Hname & ->)].
    + by apply cards_output_name.
    + by apply chips_output_name.
Qed.

Lemma output_above_tree (base : loc) (top name : string) :
  resources_loc base ++ [top; name] ∉ tree_locs base.
Proof.
  intros Hin%tree_locs_length. unfold resources_loc in Hin.
  rewrite !length_app in Hin. simpl in Hin. lia.
Qed.

Lemma locate_output_dir (script_dir : Path) (w : world) (s : string)
    (top : string) :
  ready script_dir w = true →
  startswith "/" s = false →
  parse_parts s = ".." :: ["client"; "Assets"; "Resources"] ++ [top] →
  top ≠ ".." →
  locate (world_after_main script_dir w (base_of script_dir w))
    (script_dir </> s)
  = Ok (resources_loc (base_of script_dir w) ++ [top]).
Proof.
  intros Hready Hs Hparts Htop.
  destruct (ready_spec _ _ Hready)
    as (here & Hhere & Hdir & Hbase & Hfree & Hfiles).
  unfold base_of. rewrite Hhere.
  set (w' := world_after_main script_dir w (up here)).
  assert (keeps_dirs (fs w) (fs w')) as Hkeep by by apply after_main_keeps.
  unfold resources_loc. rewrite <- app_assoc.
  apply locate_below; try done.
  - by repeat constructor.
  - by apply (locate_mono w).
  - by apply Hkeep.
  - by apply Hkeep.
  - rewrite Forall_forall in Hfree.
    cbn [descend]. rewrite <- !app_assoc. cbn [app].
    repeat constructor; (apply after_main_dir; [|apply Hfree]);
      rewrite tree_locs_eq; unfold resources_loc; set_solver.
Qed.

(** C1. A run in a world that is ready for it succeeds and leaves, below
    the output root, the 53 files of the specification in [Cards] and the 6
    in [Chips], each with the document of its template function; other
    names in the two directories and every location outside the output tree
    are as before.  It reports one [Created] line per file, 59 in all, and
    the count of its summary line is that number. *)
Theorem main_writes_59_files (script_dir : Path) (w : world) :
  ready script_dir w = true →
  let base := base_of script_dir w in
  ∃ w',
    main script_dir w = (w', Ok tt) ∧
    locate w' (script_dir </> "../client/Assets/Resources/Cards")
    = Ok (cards_loc base) ∧
    locate w' (script_dir </> "../client/Assets/Resources/Chips")
    = Ok (chips_loc base) ∧
    length spec_card_files = 53%nat ∧ NoDup spec_card_files ∧
    (∀ rank suit, rank ∈ spec_ranks → suit ∈ spec_suits →
       fs w' !! (cards_loc base ++ [join [rank; suit; ".svg"]])
       = Some (File (document (generate_card_svg rank suit)))) ∧
    fs w' !! (cards_loc base ++ ["card_back.svg"])
    = Some (File (document generate_card_back_svg)) ∧
    (∀ name, name ∉ spec_card_files →
       fs w' !! (cards_loc base ++ [name]) = fs w !! (cards_loc base ++ [name])) ∧
    length spec_chip_files = 6%nat ∧ NoDup spec_chip_files ∧
    chips.*1.*1 = spec_chip_values ∧
    (∀ chip, chip ∈ chips →
       fs w' !! (chips_loc base ++ [join ["chip_"; str chip.1.1; ".svg"]])
       = Some (File (document
                       (generate_chip_svg chip.1.1 chip.1.2 (Some chip.2))))) ∧
    (∀ name, name ∉ spec_chip_files →
       fs w' !! (chips_loc base ++ [name]) = fs w !! (chips_loc base ++ [name])) ∧
    (∀ l, l ∉ tree_locs base →
       (∀ name, name ∈ spec_card_files → l ≠ cards_loc base ++ [name]) →
       (∀ name, name ∈ spec_chip_files → l ≠ chips_loc base ++ [name]) →
       fs w' !! l = fs w !! l) ∧
    (length spec_card_files + length spec_chip_files = 59)%nat ∧
    ∃ lines,
      stdout w' = stdout w ++ lines ∧
      length (filter (λ line, startswith "  Created " line = true) lines)
      = 59%nat ∧
      join [nl; "Generated "; str 59; " SVG files:"] ∈ lines.
Proof.
  intros Hready base.
  exists (world_after_main script_dir w base).
  split; [by apply main_ok|].
  split; [by apply (locate_output_dir _ _ _ "Cards")|].
  split; [by apply (locate_output_dir _ _ _ "Chips")|].
  unfold world_after_main. cbn [fs stdout].
  split; [reflexivity|].
  split; [apply (bool_decide_unpack _); vm_compute; exact I|].
  split.
  { intros rank suit Hrank Hsuit. apply after_main_file.
    unfold outputs, card_outputs. apply elem_of_app. left.
    apply list_elem_of_fmap.
    exists (join [rank; suit; ".svg"], document (generate_card_svg rank suit)).
    split; [done|]. apply elem_of_app. left. apply list_elem_of_fmap.
    exists (rank, suit). split; [done|].
    unfold card_faces. rewrite SUITS_keys_spec, RANKS_spec.
    apply list_elem_of_bind. exists suit. split; [|done].
    apply list_elem_of_bind. exists rank. split; [|done]. left. }
  split.
  { apply after_main_file. unfold outputs, card_outputs.
    apply elem_of_app. left. apply list_elem_of_fmap.
    exists ("card_back.svg", document generate_card_back_svg).
    split; [done|]. apply elem_of_app. right. left. }
  split.
  { intros name Hname. apply after_main_other.
    - unfold cards_loc. rewrite <- app_assoc. apply output_above_tree.
    - by rewrite cards_output_name. }
  split; [reflexivity|].
  split; [apply (bool_decide_unpack _); vm_compute; exact I|].
  split; [reflexivity|].
  split.
  { intros chip Hchip. apply after_main_file.
    unfold outputs, chip_outputs. apply elem_of_app. right.
    apply list_elem_of_fmap. eexists (chip_name chip, _).
    split; [done|]. apply list_elem_of_fmap. by exists chip. }
  split.
  { intros name Hname. apply after_main_other.
    - unfold chips_loc. rewrite <- app_assoc. apply output_above_tree.
    - by rewrite chips_output_name. }
  split.
  { intros l Htree Hcards Hchips. apply after_main_other; [done|].
    intros [(name & Hname & ->)|(name & Hname & ->)]%outputs_spec.
    - by apply (Hcards name).
    - by apply (Hchips name). }
  split; [reflexivity|].
  eexists. split; [reflexivity|]. split.
  - vm_compute. reflexivity.
  - unfold report. rewrite !elem_of_app. do 4 right. left.
Qed.

Lemma main_writes_59_files_witness :
  ready example_script_dir example_world = true ∧
  ∃ w',
    main example_script_dir example_world = (w', Ok tt) ∧
    fs w' !! ["srv"; "game"; "client"; "Assets"; "Resources"; "Cards"; "As.svg"]
    = Some (File (document (generate_card_svg "A" "s"))).
Proof.
  assert (ready example_script_dir example_world = true) as Hready
    by (vm_compute; reflexivity).
  split; [exact Hready|].
  destruct (main_writes_59_files example_script_dir example_world Hready)
    as (w' & Hmain & _ & _ & _ & _ & Hfaces & _).
  exists w'. split; [exact Hmain|].
  apply (Hfaces "A" "s"); by apply (bool_decide_unpack _).
Defined.

(** C3. Two runs in a row, from a world that is ready for the first:
    both succeed, the second leaves the file system as the first left it,
    and each of the 59 output paths holds a file with the same bytes after
    the first run and after the second. *)
Theorem main_twice_same_files (script_dir : Path) (w : world) :
  ready script_dir w = true →
  let base := base_of script_dir w in
  ∃ w1 w2,
    main script_dir w = (w1, Ok tt) ∧
    main script_dir w1 = (w2, Ok tt) ∧
    fs w2 = fs w1 ∧
    (∀ name, name ∈ spec_card_files →
       ∃ bytes, fs w1 !! (cards_loc base ++ [name]) = Some (File bytes) ∧
                fs w2 !! (cards_loc base ++ [name]) = Some (File bytes)) ∧
    (∀ name, name ∈ spec_chip_files →
       ∃ bytes, fs w1 !! (chips_loc base ++ [name]) = Some (File bytes) ∧
                fs w2 !! (chips_loc base ++ [name]) = Some (File bytes)).
Proof.
  intros Hready base.
  destruct (ready_after_main _ _ Hready) as [Hready' Hbase'].
  fold base in Hready', Hbase'.
  set (w1 := world_after_main script_dir w base) in *.
  exists w1, (world_after_main script_dir w1 base).
  split; [by apply main_ok|].
  split; [rewrite <- Hbase'; by apply main_ok|].
  assert (fs (world_after_main script_dir w1 base) = fs w1) as Hsame.
  { unfold w1, world_after_main. cbn [fs]. apply after_main_twice.
    apply ready_spec in Hready as (here & Hhere & _ & _ & Hfree & _).
    unfold base, base_of. by rewrite Hhere. }
  split; [exact Hsame|]. rewrite Hsame.
  assert (∀ l, l ∈ (outputs base).*1 →
    ∃ bytes, fs w1 !! l = Some (File bytes)) as Hfile.
  { intros l [[l' bytes] [-> Hf]]%list_elem_of_fmap. exists bytes.
    by apply after_main_file. }
  split; intros name Hname.
  - destruct (Hfile (cards_loc base ++ [name])) as [bytes Hbytes];
      [by apply cards_output_name | by exists bytes].
  - destruct (Hfile (chips_loc base ++ [name])) as [bytes Hbytes];
      [by apply chips_output_name | by exists bytes].
Qed.

Lemma main_twice_same_files_witness :
  ready example_script_dir example_world = true ∧
  ∃ w1 w2,
    main example_script_dir example_world = (w1, Ok tt) ∧
    main example_script_dir w1 = (w2, Ok tt) ∧
    fs w2 = fs w1.
Proof.
  assert (ready example_script_dir example_world = true) as Hready
    by (vm_compute; reflexivity).
  split; [exact Hready|].
  destruct (main_twice_same_files example_script_dir example_world Hready)
    as (w1 & w2 & Hfirst & Hsecond & Hsame & _).
  exists w1, w2. exact (conj Hfirst (conj Hsecond Hsame)).
Defined.

(** C6. Where the file system is a tree, the directory of the script
    exists and the output root does not (nor is a regular file in its
    place on the way), a run makes the output root with the directories
    above it and [Cards] and [Chips] below it, and succeeds.  In the world
    it leaves, and wherever a directory exists, [mkdir] with
    [parents=True, exist_ok=True] changes nothing. *)
Theorem main_creates_tree (script_dir : Path) (w : world) (here : loc) :
  tree (fs w) →
  locate w script_dir = Ok here → fs w !! here = Some Dir →
  free_or_dir (fs w) (up here ++ ["client"]) = true →
  free_or_dir (fs w) (up here ++ ["client"; "Assets"]) = true →
  fs w !! resources_loc (up here) = None →
  (∃ w',
     main script_dir w = (w', Ok tt) ∧
     Forall (λ d, fs w' !! d = Some Dir) (tree_locs (up here)) ∧
     locate w' (script_dir </> "../client/Assets/Resources/Cards")
     = Ok (cards_loc (up here)) ∧
     locate w' (script_dir </> "../client/Assets/Resources/Chips")
     = Ok (chips_loc (up here)) ∧
     Path_mkdir (script_dir </> "../client/Assets/Resources/Cards") true true w'
     = (w', Ok tt) ∧
     Path_mkdir (script_dir </> "../client/Assets/Resources/Chips") true true w'
     = (w', Ok tt)) ∧
  (∀ p v d, locate v p = Ok d → fs v !! d = Some Dir →
     Path_mkdir p true true v = (v, Ok tt)).
Proof.
  intros Htree Hhere Hdir Hclient Hassets Hroot.
  split; [|exact mkdir_existing].
  assert (ready script_dir w = true) as Hready by by apply (tree_ready _ _ here).
  assert (base_of script_dir w = up here) as Hbase
    by (unfold base_of; by rewrite Hhere).
  exists (world_after_main script_dir w (up here)).
  pose proof (main_ok _ _ Hready) as Hmain. rewrite Hbase in Hmain.
  pose proof (locate_output_dir script_dir w
    "../client/Assets/Resources/Cards" "Cards" Hready eq_refl eq_refl)
    as Hcards.
  pose proof (locate_output_dir script_dir w
    "../client/Assets/Resources/Chips" "Chips" Hready eq_refl eq_refl)
    as Hchips.
  rewrite Hbase in Hcards, Hchips.
  apply ready_spec in Hready as (here' & Hhere' & _ & _ & Hfree & _).
  assert (here' = here) as -> by congruence.
  assert (Forall (λ d, fs (world_after_main script_dir w (up here)) !! d
                       = Some Dir) (tree_locs (up here))) as Hdirs.
  { apply Forall_forall. intros d Hd. apply after_main_dir; [done|].
    by apply (proj1 (Forall_forall _ _) Hfree). }
  split; [exact Hmain|]. split; [exact Hdirs|].
  split; [by apply Hcards|]. split; [by apply Hchips|].
  rewrite tree_locs_eq in Hdirs.
  split.
  - apply (mkdir_existing _ _ (cards_loc (up here))); [by apply Hcards|].
    rewrite Forall_forall in Hdirs. apply Hdirs. set_solver.
  - apply (mkdir_existing _ _ (chips_loc (up here))); [by apply Hchips|].
    rewrite Forall_forall in Hdirs. apply Hdirs. set_solver.
Qed.

Lemma main_creates_tree_witness :
  fs example_world !! ["srv"; "game"; "client"] = None ∧
  ∃ w',
    main example_script_dir example_world = (w', Ok tt) ∧
    Forall (λ d, fs w' !! d = Some Dir)
      [ ["srv"; "game"; "client"];
        ["srv"; "game"; "client"; "Assets"];
        ["srv"; "game"; "client"; "Assets"; "Resources"];
        ["srv"; "game"; "client"; "Assets"; "Resources"; "Cards"];
        ["srv"; "game"; "client"; "Assets"; "Resources"; "Chips"] ].
Proof.
  split; [vm_compute; reflexivity|].
  destruct (main_creates_tree example_script_dir example_world
              ["srv"; "game"; "tools"]) as [(w' & Hmain & Hdirs & _) _].
  - apply tree_check_sound. vm_compute. reflexivity.
  - vm_compute. reflexivity.
  - vm_compute. reflexivity.
  - vm_compute. reflexivity.
  - vm_compute. reflexivity.
  - vm_compute. reflexivity.
  - exists w'. split; [exact Hmain|]. exact Hdirs.
Defined.

(** ** Documents told apart *)

Lemma append_inv_head (a x y : string) : a +:+ x = a +:+ y → x = y.
Proof.
  induction a as [|c a IH]; [done|].
  rewrite !append_cons. intros [= H]. by apply IH.
Qed.

Lemma append_inv_tail (a b s : string) : a +:+ s = b +:+ s → a = b.
Proof.
  revert b. induction a as [|c a IH]; intros [|c' b] H; [done| | |].
  - exfalso. apply (f_equal String.length) in H.
    change (EmptyString +:+ s) with s in H.
    rewrite append_cons in H. cbn [String.length] in H.
    rewrite append_length in H. lia.
  - exfalso. apply (f_equal String.length) in H.
    change (EmptyString +:+ s) with s in H.
    rewrite append_cons in H. cbn [String.length] in H.
    rewrite append_length in H. lia.
  - rewrite !append_cons in H. injection H as -> H. f_equal. by apply IH.
Qed.

(** X1. The document of a chip tells its value.  For the same colours, a
    value of 4300 digits at most and a different integer never give the
    same result: two values that both have a document have different
    documents, and a value too long for the conversion has none. *)
Theorem chip_value_injective (color : string) (text_color : option string)
    (value value' : Z) :
  value ≠ value' → digits value ≤ int_max_str_digits →
  result_of (generate_chip_svg value color text_color)
  ≠ result_of (generate_chip_svg value' color text_color) ∧
  document (generate_chip_svg value color text_color)
  ≠ document (generate_chip_svg value' color text_color).
Proof.
  intros Hne Hfits.
  destruct (chip_document_shape color text_color)
    as (before & after & [rest ->] & Hshape).
  destruct (Hshape value nowhere Hfits) as (doc & Hrun & Hdoc & _).
  unfold document, result_of. rewrite Hrun. cbn [snd].
  destruct (decide (digits value' ≤ int_max_str_digits)) as [Hfits'|Hlong].
  - destruct (Hshape value' nowhere Hfits') as (doc' & Hrun' & Hdoc' & _).
    rewrite Hrun'. cbn [snd].
    assert (doc ≠ doc') as Hdocs; [|split; congruence].
    rewrite Hdoc, Hdoc'. intros Heq.
    apply append_inv_head, append_inv_tail in Heq.
    by apply (inj pretty) in Heq.
  - rewrite generate_chip_svg_long by lia. cbn [snd]. split; [done|].
    rewrite Hdoc. intros Heq. apply (f_equal String.length) in Heq.
    rewrite !append_length in Heq.
    assert (0 < String.length (svg_header 80 80))%nat as Hhead
      by (vm_compute; lia).
    cbn [String.length] in Heq. lia.
Qed.

Lemma chip_value_injective_witness :
  (5 : Z) ≠ 25 ∧ digits 5 ≤ int_max_str_digits ∧
  document (generate_chip_svg 5 "#CC1111" (Some WHITE))
  ≠ document (generate_chip_svg 25 "#CC1111" (Some WHITE)).
Proof.
  assert (digits 5 ≤ int_max_str_digits) as Hfits by (by vm_compute).
  split; [lia|]. split; [exact Hfits|].
  apply chip_value_injective; [lia|exact Hfits].
Defined.

Lemma card_documents_NoDup :
  NoDup (document generate_card_back_svg
         :: ((λ face, document (generate_card_svg face.1 face.2))
             <$> card_faces)).
Proof. apply (bool_decide_unpack _). vm_compute. exact I. Qed.

Lemma NoDup_fmap_inv {A B} (f : A → B) (l : list A) (x y : A) :
  NoDup (f <$> l) → x ∈ l → y ∈ l → f x = f y → x = y.
Proof.
  intros Hnd Hx Hy Hxy.
  apply list_elem_of_lookup in Hx as [i Hi], Hy as [j Hj].
  assert (i = j) as ->.
  { eapply NoDup_lookup; [exact Hnd| |].
    - by rewrite list_lookup_fmap, Hi.
    - by rewrite list_lookup_fmap, Hj, Hxy. }
  congruence.
Qed.

Lemma card_faces_intro (rank suit : string) :
  rank ∈ spec_ranks → suit ∈ spec_suits → (rank, suit) ∈ card_faces.
Proof.
  intros Hr Hs. unfold card_faces. rewrite SUITS_keys_spec, RANKS_spec.
  apply list_elem_of_bind. exists suit. split; [|done].
  apply list_elem_of_bind. exists rank. split; [|done].
  by apply list_elem_of_singleton.
Qed.

(** X2. The 52 card faces are 52 different documents, and none of them is
    the document of the card back. *)
Theorem card_documents_distinct (rank suit rank' suit' : string) :
  rank ∈ spec_ranks → suit ∈ spec_suits →
  rank' ∈ spec_ranks → suit' ∈ spec_suits →
  (document (generate_card_svg rank suit)
   = document (generate_card_svg rank' suit') → rank = rank' ∧ suit = suit') ∧
  document (generate_card_svg rank suit) ≠ document generate_card_back_svg.
Proof.
  intros Hr Hs Hr' Hs'.
  pose proof card_documents_NoDup as Hnd.
  apply NoDup_cons in Hnd as [Hback Hnd].
  split.
  - intros Heq.
    assert ((rank, suit) = (rank', suit')) as [= -> ->]; [|done].
    apply (NoDup_fmap_inv (λ face, document (generate_card_svg face.1 face.2))
             card_faces); auto using card_faces_intro.
  - intros Heq. apply Hback. rewrite <- Heq.
    apply (list_elem_of_fmap_2
             (λ face, document (generate_card_svg face.1 face.2)) _
             (rank, suit)).
    by apply card_faces_intro.
Qed.

Lemma card_documents_distinct_witness :
  "6" ∈ spec_ranks ∧ "9" ∈ spec_ranks ∧ "h" ∈ spec_suits ∧
  document (generate_card_svg "6" "h") ≠ document (generate_card_svg "9" "h") ∧
  document (generate_card_svg "6" "h") ≠ document generate_card_back_svg.
Proof.
  assert ("6" ∈ spec_ranks) as H6 by (apply (bool_decide_unpack _); exact I).
  assert ("9" ∈ spec_ranks) as H9 by (apply (bool_decide_unpack _); exact I).
  assert ("h" ∈ spec_suits) as Hh by (apply (bool_decide_unpack _); exact I).
  destruct (card_documents_distinct "6" "h" "9" "h" H6 Hh H9 Hh)
    as [Hinj Hback].
  repeat split; try assumption.
  intros Heq. by destruct (Hinj Heq) as [[=] _].
Defined.

(** ** The markup of the documents *)

Lemma scan_app (a b : string) (st : scan_state) :
  scan (a +:+ b) st = scan b (scan a st).
Proof.
  revert st. induction a as [|c a IH]; intros st; [done|].
  rewrite append_cons. cbn [scan]. apply IH.
Qed.

Lemma scan_join (p : string) (ps : list string) (st : scan_state) :
  scan (join (p :: ps)) st = scan (join ps) (scan p st).
Proof. cbn [join]. apply scan_app. Qed.

(** Text without [<] leaves the scanner where it is. *)
Lemma scan_text (s : string) (open seen : list string) :
  no_angle s = true → scan s (At Text open seen) = At Text open seen.
Proof.
  induction s as [|c s IH]; [done|].
  unfold no_angle. cbn [all_chars scan scan_step].
  intros [[Hlt _]%andb_prop Hs]%andb_prop.
  apply negb_true_iff in Hlt. rewrite Hlt. by apply IH.
Qed.

(** So does, but for the slash it may end in, an attribute value without
    [<] and [>]. *)
Lemma scan_attrs (s : string) (closing : bool) (name : string) (slash : bool)
    (open seen : list string) :
  no_angle s = true →
  scan s (At (TagAttrs closing name slash) open seen)
  = At (TagAttrs closing name (last_slash s slash)) open seen.
Proof.
  revert slash. induction s as [|c s IH]; intros slash; [done|].
  unfold no_angle. cbn [all_chars scan scan_step last_slash].
  intros [[Hlt Hgt]%andb_prop Hs]%andb_prop.
  apply negb_true_iff in Hlt, Hgt. rewrite Hlt, Hgt. by apply IH.
Qed.

Lemma all_chars_app (p : ascii → bool) (a b : string) :
  all_chars p (a +:+ b) = all_chars p a && all_chars p b.
Proof.
  induction a as [|c a IH]; [done|]. rewrite append_cons. cbn [all_chars].
  rewrite IH. by rewrite andb_assoc.
Qed.

(** The characters of [str(n)] are digits and the minus sign. *)
Lemma all_chars_pretty_N_go (p : ascii → bool) (x : N) (s : string) :
  (∀ d, p (pretty_N_char d) = true) → all_chars p s = true →
  all_chars p (pretty_N_go x s) = true.
Proof.
  intros Hp. revert s. induction (N.lt_wf_0 x) as [x _ IH]; intros s Hs.
  destruct (decide (0 < x)%N) as [Hx|Hx].
  - rewrite pretty_N_go_step by done. apply IH.
    + by apply N.div_lt.
    + cbn [all_chars]. by rewrite Hp, Hs.
  - assert (x = 0%N) as -> by lia. by rewrite pretty_N_go_0.
Qed.

Lemma all_chars_str (p : ascii → bool) (n : Z) :
  (∀ d, p (pretty_N_char d) = true) → p "-"%char = true →
  all_chars p (str n) = true.
Proof.
  intros Hp Hminus. destruct n as [|q|q].
  - change (str 0) with (String (pretty_N_char 0) EmptyString).
    cbn [all_chars]. by rewrite Hp.
  - by apply all_chars_pretty_N_go.
  - change (str (Z.neg q)) with ("-" +:+ pretty_N_go (N.pos q) EmptyString).
    rewrite all_chars_app. cbn [all_chars]. rewrite Hminus.
    by rewrite all_chars_pretty_N_go.
Qed.

Lemma no_angle_str (n : Z) : no_angle (str n) = true.
Proof.
  apply all_chars_str; [|done].
  intros d. unfold pretty_N_char. by repeat case_match.
Qed.

(** The check of the documents of the card faces and of the back. *)
Lemma card_elements_checked :
  forallb (λ face, bool_decide
             (elements (document (generate_card_svg face.1 face.2))
              = Some card_face_elements)) card_faces
  && bool_decide (elements (document generate_card_back_svg)
                  = Some card_back_elements) = true.
Proof. vm_compute. reflexivity. Qed.

(** One piece of an f-string under the scanner: a piece without angle
    brackets by the two lemmas above, any other by computation. *)
Ltac scan_piece :=
  lazymatch goal with
  | |- context [scan (join (?p :: ?ps)) ?st] =>
      rewrite (scan_join p ps st);
      first [ rewrite (scan_text p) by done
            | rewrite (scan_attrs p) by done
            | let x := eval vm_compute in (scan p st) in
              change (scan p st) with x ]
  end.

Lemma chip_elements_any (value : Z) (color : string)
    (text_color : option string) :
  digits value ≤ int_max_str_digits →
  no_angle color = true → no_angle (default WHITE text_color) = true →
  elements (document (generate_chip_svg value color text_color))
  = Some chip_elements.
Proof.
  intros Hfits Hcolor Htext. pose proof (no_angle_str value) as Hvalue.
  unfold elements, document, result_of, generate_chip_svg, mbind, M_bind, bind.
  cbv zeta. rewrite format_int_fits by done. unfold ret. cbn [snd].
  set (tc := default WHITE text_color) in *.
  repeat scan_piece.
  reflexivity.
Qed.

(** X3. The tags of every document are balanced, and its elements are
    those of its template, whatever the arguments: eight elements for each
    of the 52 card faces, thirteen for the card back, twelve for a chip of
    any integer value of 4300 digits at most (the values for which there is
    a document) whose colours hold no angle bracket.  The values and the
    colours of the driver's table are such; a colour with an angle bracket
    does break the markup, for the template does not escape it. *)
Theorem documents_markup :
  (∀ rank suit, rank ∈ spec_ranks → suit ∈ spec_suits →
     elements (document (generate_card_svg rank suit))
     = Some card_face_elements) ∧
  elements (document generate_card_back_svg) = Some card_back_elements ∧
  (∀ value color text_color,
     digits value ≤ int_max_str_digits →
     no_angle color = true → no_angle (default WHITE text_color) = true →
     result_of (generate_chip_svg value color text_color)
     = Ok (document (generate_chip_svg value color text_color)) ∧
     elements (document (generate_chip_svg value color text_color))
     = Some chip_elements) ∧
  Forall (λ chip : Z * string * string,
            digits chip.1.1 ≤ int_max_str_digits ∧
            no_angle chip.1.2 = true ∧ no_angle chip.2 = true) chips ∧
  result_of (generate_chip_svg 5 "><g" None)
  = Ok (document (generate_chip_svg 5 "><g" None)) ∧
  elements (document (generate_chip_svg 5 "><g" None)) = None.
Proof.
  pose proof card_elements_checked as [Hfaces Hback%bool_decide_eq_true]%andb_prop.
  rewrite forallb_forall in Hfaces.
  split; [|split; [done|split; [|split; [|split]]]].
  - intros rank suit Hr Hs.
    specialize (Hfaces (rank, suit)). rewrite bool_decide_eq_true in Hfaces.
    apply Hfaces, list_elem_of_In. by apply card_faces_intro.
  - intros value color text_color Hfits Hcolor Htext.
    split; [|by apply chip_elements_any].
    unfold result_of at 1. by rewrite generate_chip_svg_fits.
  - apply Forall_forall. intros chip Hchip.
    split; [by apply (proj1 (Forall_forall _ _) chips_fit)|].
    revert chip Hchip. apply Forall_forall. unfold chips. repeat constructor.
  - unfold result_of at 1. rewrite generate_chip_svg_fits; [done|by vm_compute].
  - vm_compute. reflexivity.
Qed.

Lemma documents_markup_witness :
  "T" ∈ spec_ranks ∧ "s" ∈ spec_suits ∧
  digits 1000 ≤ int_max_str_digits ∧
  no_angle "#FFD700" = true ∧ no_angle BLACK = true ∧
  elements (document (generate_card_svg "T" "s")) = Some card_face_elements ∧
  elements (document (generate_chip_svg 1000 "#FFD700" (Some BLACK)))
  = Some chip_elements.
Proof.
  assert ("T" ∈ spec_ranks) as HT by (apply (bool_decide_unpack _); exact I).
  assert ("s" ∈ spec_suits) as Hs by (apply (bool_decide_unpack _); exact I).
  assert (digits 1000 ≤ int_max_str_digits) as Hfits by (by vm_compute).
  destruct documents_markup as (Hfaces & _ & Hchips & _).
  split; [exact HT|]. split; [exact Hs|]. split; [exact Hfits|].
  split; [reflexivity|]. split; [reflexivity|].
  split; [by apply Hfaces|].
  exact (proj2 (Hchips 1000 "#FFD700" (Some BLACK) Hfits eq_refl eq_refl)).
Defined.

(** ** The names of the chip files *)

Lemma components_plain (s cur : string) :
  all_chars (λ c, negb (Ascii.eqb c "/")) s = true →
  components s cur = [cur +:+ s].
Proof.
  revert cur. induction s as [|c s IH]; intros cur.
  - by rewrite append_nil_r.
  - cbn [all_chars components]. intros [Hc Hs]%andb_prop.
    apply negb_true_iff in Hc. rewrite Hc, IH by done.
    by rewrite append_assoc.
Qed.

(** X10. The file name of a chip is one plain part of a path for every
    integer value of 4300 digits at most (the values for which
    [f"chip_{value}.svg"] is a string at all), so that the file lies in
    [Chips] itself, and two different such values never share a name.
    The values of the driver's table are such values. *)
Theorem chip_file_names (value value' : Z) (color color' text text' : string) :
  digits value ≤ int_max_str_digits → digits value' ≤ int_max_str_digits →
  format_int value nowhere = (nowhere, Ok (str value)) ∧
  plain_name (chip_name (value, color, text)) = true ∧
  (chip_name (value, color, text) = chip_name (value', color', text') →
   value = value').
Proof.
  intros Hfits Hfits'. split; [by apply format_int_fits|].
  unfold chip_name. cbn [fst snd join]. split.
  - assert (all_chars (λ c, negb (Ascii.eqb c "/"))
              ("chip_" +:+ str value +:+ ".svg" +:+ EmptyString) = true) as Hplain.
    { rewrite !all_chars_app. rewrite all_chars_str; [done| |done].
      intros d. unfold pretty_N_char. by repeat case_match. }
    unfold plain_name, parse_parts.
    rewrite (components_plain _ _ Hplain).
    change (EmptyString +:+ ?x) with x.
    rewrite !append_cons. cbn [startswith Ascii.eqb Bool.eqb negb andb].
    rewrite andb_true_r. apply andb_true_intro. split.
    + apply bool_decide_eq_true. rewrite filter_cons_True; [done|]. done.
    + by apply bool_decide_eq_true.
  - intros Heq. apply append_inv_head, append_inv_tail in Heq.
    by apply (inj pretty) in Heq.
Qed.

Lemma chip_file_names_witness :
  digits 25 ≤ int_max_str_digits ∧ digits 100 ≤ int_max_str_digits ∧
  plain_name (chip_name (25, "#118811", WHITE)) = true ∧
  chip_name (25, "#118811", WHITE) ≠ chip_name (100, "#111111", WHITE).
Proof.
  assert (digits 25 ≤ int_max_str_digits) as H25 by (by vm_compute).
  assert (digits 100 ≤ int_max_str_digits) as H100 by (by vm_compute).
  destruct (chip_file_names 25 100 "#118811" "#111111" WHITE WHITE H25 H100)
    as (_ & Hplain & Hinj).
  split; [exact H25|]. split; [exact H100|]. split; [exact Hplain|].
  intros Heq. by apply Hinj in Heq.
Defined.

(** ** What a run never does *)

Lemma grows_refl (w : world) : grows w w.
Proof.
  split; [done|]. split; [exists []; by rewrite app_nil_r|].
  intros l. destruct (fs w !! l) as [[|c]|]; eauto.
Qed.

Lemma grows_trans (w1 w2 w3 : world) : grows w1 w2 → grows w2 w3 → grows w1 w3.
Proof.
  intros (Hc & [m Hm] & H12) (Hc' & [m' Hm'] & H23).
  split; [congruence|]. split.
  { exists (m ++ m'). by rewrite Hm', Hm, app_assoc. }
  intros l. specialize (H12 l). specialize (H23 l).
  destruct (fs w1 !! l) as [[|c]|]; [| |done].
  - by rewrite H12 in H23.
  - destruct H12 as [c' H12]. by rewrite H12 in H23.
Qed.

(** A node put where nothing was, or over a node of its kind. *)
Lemma grows_set_fs (w : world) (l : loc) (x : node) :
  match fs w !! l, x with
  | Some Dir, Dir | Some (File _), File _ | None, _ => True
  | _, _ => False
  end →
  grows w (set_fs w (<[l := x]> (fs w))).
Proof.
  intros Hx. split; [done|]. split; [exists []; cbn; by rewrite app_nil_r|].
  intros l'. cbn [fs set_fs]. destruct (decide (l = l')) as [<-|Hne].
  - rewrite lookup_insert_eq.
    destruct (fs w !! l) as [[|c]|], x; try done; by eexists.
  - rewrite lookup_insert_ne by done. destruct (fs w !! l') as [[|c]|]; eauto.
Qed.

Lemma ns_ret {A} (a : A) : never_shrinks (ret a).
Proof. intros w. apply grows_refl. Qed.

Lemma ns_raise {A} (e : exn) : never_shrinks (@raise A e).
Proof. intros w. apply grows_refl. Qed.

Lemma ns_bind {A B} (m : M A) (k : A → M B) :
  never_shrinks m → (∀ a, never_shrinks (k a)) → never_shrinks (m ≫= k).
Proof.
  intros Hm Hk w. rewrite mbind_unfold. specialize (Hm w).
  destruct (m w) as [w' [a|e]]; cbn [fst] in *; [|done].
  eapply grows_trans; [exact Hm|apply Hk].
Qed.

Lemma ns_try {A} (m : M A) (h : exn → M A) :
  never_shrinks m → (∀ e, never_shrinks (h e)) → never_shrinks (try_except m h).
Proof.
  intros Hm Hh w. unfold try_except. specialize (Hm w).
  destruct (m w) as [w' [a|e]]; cbn [fst] in *; [done|].
  eapply grows_trans; [exact Hm|apply Hh].
Qed.

Lemma ns_for {X} (xs : list X) (body : X → M unit) :
  (∀ x, never_shrinks (body x)) → never_shrinks (for_ xs body).
Proof.
  intros Hbody. induction xs as [|x xs IH]; [apply ns_ret|].
  cbn [for_]. apply ns_bind; [apply Hbody|by intros _].
Qed.

Lemma ns_pure {A} (m : M A) : (∀ w, (m w).1 = w) → never_shrinks m.
Proof. intros Hm w. rewrite Hm. apply grows_refl. Qed.

Lemma ns_print (s : string) : never_shrinks (print s).
Proof.
  intros w. split; [done|]. split; [by exists [s]|].
  intros l. cbn. destruct (fs w !! l) as [[|c]|]; eauto.
Qed.

Lemma ns_os_mkdir (p : Path) : never_shrinks (os_mkdir p).
Proof.
  intros w. unfold os_mkdir.
  destruct (locate w p) as [l|e]; [|apply grows_refl].
  destruct (fs w !! l) as [x|] eqn:Hl; [apply grows_refl|].
  apply grows_set_fs. by rewrite Hl.
Qed.

Lemma ns_exist_ok (p : Path) (e : exn) :
  never_shrinks (Path_is_dir p ≫= λ d : bool, if d then ret tt else raise e).
Proof.
  apply ns_bind; [by apply ns_pure|]. intros [|]; [apply ns_ret|apply ns_raise].
Qed.

Lemma ns_mkdir_flat (p : Path) (exist_ok : bool) :
  never_shrinks (mkdir_flat p exist_ok).
Proof.
  apply ns_try; [apply ns_os_mkdir|].
  intros e. destruct e, exist_ok; auto using ns_raise, ns_exist_ok.
Qed.

Lemma ns_mkdir_parents (anchored : bool) (rparts : list string)
    (exist_ok : bool) :
  never_shrinks (mkdir_parents anchored rparts exist_ok).
Proof.
  revert exist_ok. induction rparts as [|c rparent IH]; intros exist_ok;
    rewrite mkdir_parents_eq; cbv zeta;
    (apply ns_try; [apply ns_os_mkdir|]);
    intros e; destruct e, exist_ok; auto using ns_raise, ns_exist_ok.
  all: apply ns_bind; [apply IH|intros _; apply ns_mkdir_flat].
Qed.

Lemma ns_Path_mkdir (p : Path) (parents exist_ok : bool) :
  never_shrinks (Path_mkdir p parents exist_ok).
Proof.
  unfold Path_mkdir.
  destruct parents; [apply ns_mkdir_parents|apply ns_mkdir_flat].
Qed.

Lemma ns_open_w (p : Path) : never_shrinks (open_w p).
Proof.
  intros w. unfold open_w.
  destruct (locate w p) as [l|e]; [|apply grows_refl].
  destruct (fs w !! l) as [[|c]|] eqn:Hl; [apply grows_refl| |];
    apply grows_set_fs; by rewrite Hl.
Qed.

Lemma ns_write (f : loc) (s : string) : never_shrinks (write f s).
Proof.
  intros w. unfold write.
  destruct (fs w !! f) as [[|c]|] eqn:Hf; [apply grows_refl| |apply grows_refl].
  apply grows_set_fs. by rewrite Hf.
Qed.

Lemma ns_card (rank suit : string) : never_shrinks (generate_card_svg rank suit).
Proof. apply ns_pure. intros w. by rewrite generate_card_svg_pure. Qed.

Lemma ns_back : never_shrinks generate_card_back_svg.
Proof. by apply ns_pure. Qed.

Lemma ns_chip (value : Z) (color : string) (text_color : option string) :
  never_shrinks (generate_chip_svg value color text_color).
Proof. apply ns_pure. intros w. by rewrite generate_chip_svg_pure. Qed.

Lemma ns_absolute (p : Path) : never_shrinks (Path_absolute p).
Proof. by apply ns_pure. Qed.

Create HintDb ns discriminated.
#[local] Hint Resolve ns_ret ns_print ns_Path_mkdir ns_open_w ns_write
  ns_absolute ns_card ns_back ns_chip : ns.

(** One step of the analysis, by the shape of the computation. *)
Ltac ns_step :=
  lazymatch goal with
  | |- never_shrinks (_ ≫= _) => apply ns_bind; [|intros ?]
  | |- never_shrinks (for_ _ _) => apply ns_for; intros ?
  | |- never_shrinks (match ?x with _ => _ end) => destruct x
  | |- never_shrinks _ => solve [auto with ns]
  end.

(** X4. A run deletes nothing, in whatever world it starts and whether it
    returns or raises: the working directory is the same afterwards, every
    line that was on standard output is still there, every directory is
    still a directory and every regular file still a regular file. *)
Theorem main_never_deletes (script_dir : Path) (w : world) :
  grows w (main script_dir w).1.
Proof.
  revert w. change (never_shrinks (main script_dir)).
  unfold main. cbv zeta. repeat ns_step.
Qed.

(** ** What a run can touch *)

Lemma changes_refl (dirs : list loc) (files : list (loc * string)) (w : world) :
  changes dirs files w w.
Proof. split; [done|]. intros l. by left. Qed.

Lemma changes_same_fs (dirs : list loc) (files : list (loc * string))
    (w w' : world) :
  cwd w' = cwd w → fs w' = fs w → changes dirs files w w'.
Proof. intros Hc Hf. split; [done|]. intros l. left. by rewrite Hf. Qed.

Lemma changes_trans (dirs : list loc) (files : list (loc * string))
    (w1 w2 w3 : world) :
  changes dirs files w1 w2 → changes dirs files w2 w3 → changes dirs files w1 w3.
Proof.
  intros [Hc H12] [Hc' H23]. split; [congruence|]. intros l.
  destruct (H12 l) as [E|[(Hd & Hn & Hm)|(c & Hin & Hn & Hm)]],
           (H23 l) as [E'|[(Hd' & Hn' & Hm')|(c' & Hin' & Hn' & Hm')]];
    try congruence.
  - left. congruence.
  - right. left. rewrite <- E. done.
  - right. right. exists c'. rewrite <- E. done.
  - right. left. rewrite E'. done.
  - right. right. exists c. rewrite E'. done.
  - right. right. exists c'. done.
Qed.

Lemma changes_weaken (dirs dirs' : list loc) (files files' : list (loc * string))
    (w w' : world) :
  (∀ d, d ∈ dirs → d ∈ dirs') → (∀ f, f ∈ files → f ∈ files') →
  changes dirs files w w' → changes dirs' files' w w'.
Proof.
  intros Hd Hf [Hc H]. split; [done|]. intros l.
  destruct (H l) as [E|[(Hin & Hn & Hm)|(c & Hin & Hn & Hm)]]; eauto 10.
Qed.

Lemma changes_keeps (dirs : list loc) (files : list (loc * string))
    (w w' : world) :
  changes dirs files w w' → keeps_dirs (fs w) (fs w').
Proof.
  intros [_ H] l Hl.
  destruct (H l) as [E|[(Hin & Hn & Hm)|(c & Hin & Hn & Hm)]]; congruence.
Qed.

Lemma changes_mkdir (dirs : list loc) (files : list (loc * string))
    (w : world) (l : loc) :
  l ∈ dirs → fs w !! l = None →
  changes dirs files w (set_fs w (<[l := Dir]> (fs w))).
Proof.
  intros Hin Hl. split; [done|]. intros l'. cbn [set_fs fs].
  destruct (decide (l = l')) as [<-|Hne].
  - right. left. by rewrite lookup_insert_eq.
  - left. by rewrite lookup_insert_ne.
Qed.

Lemma changes_put (dirs : list loc) (files : list (loc * string))
    (w : world) (l : loc) (c : string) :
  (l, c) ∈ files → is_dir (fs w) l = false →
  changes dirs files w (set_fs w (put_file (fs w) (l, c))).
Proof.
  intros Hin Hl%is_dir_false. split; [done|]. intros l'. cbn [set_fs fs].
  rewrite put_file_lookup. cbn [fst snd]. case_decide as Hll; [subst l'|by left].
  right. right. by exists c.
Qed.

(** A walk over plain names leads, if anywhere, to the names appended, and
    through directories only. *)
Lemma walk_plain (t : gmap (list string) node) (cur l : loc)
    (names : list string) (n : string) :
  Forall (λ c, c ≠ "..") (names ++ [n]) →
  walk t cur (names ++ [n]) = Ok l →
  l = cur ++ names ++ [n] ∧ t !! cur = Some Dir ∧
  Forall (λ d, t !! d = Some Dir) (descend cur names).
Proof.
  revert cur. induction names as [|c names IH]; intros cur Hnames Hwalk.
  - cbn [app] in *. rewrite Forall_singleton in Hnames.
    rewrite walk_cons in Hwalk. destruct (t !! cur) as [[|?]|]; [|done..].
    rewrite decide_False in Hwalk by done. cbn [walk] in Hwalk.
    injection Hwalk as <-. by repeat split.
  - cbn [app] in *. apply Forall_cons in Hnames as [Hc Hnames].
    rewrite walk_cons in Hwalk.
    destruct (t !! cur) as [[|?]|] eqn:Hcur; [|done..].
    rewrite decide_False in Hwalk by done.
    destruct (IH _ Hnames Hwalk) as (-> & Hd & Hds).
    split; [by rewrite <- app_assoc|]. split; [done|].
    cbn [descend]. by constructor.
Qed.

(** What [os.mkdir] can do to the world. *)
Lemma os_mkdir_cases (p : Path) (w : world) :
  (∃ e, os_mkdir p w = (w, Raise e)) ∨
  (∃ l, locate w p = Ok l ∧ fs w !! l = None ∧
        os_mkdir p w = (set_fs w (<[l := Dir]> (fs w)), Ok tt)).
Proof.
  unfold os_mkdir. destruct (locate w p) as [l|e]; [|by eauto].
  destruct (fs w !! l) eqn:Hl; [by eauto|]. right. by exists l.
Qed.

Lemma exist_ok_world (p : Path) (e : exn) (w : world) :
  ((Path_is_dir p ≫= λ d : bool, if d then ret tt else raise e) w).1 = w.
Proof.
  rewrite mbind_unfold. unfold Path_is_dir.
  by destruct (match locate w p with Ok _ => _ | Raise _ => _ end).
Qed.

Lemma mkdir_flat_cases (p : Path) (exist_ok : bool) (w : world) :
  (mkdir_flat p exist_ok w).1 = w ∨
  (∃ l, locate w p = Ok l ∧ fs w !! l = None ∧
        mkdir_flat p exist_ok w = (set_fs w (<[l := Dir]> (fs w)), Ok tt)).
Proof.
  unfold mkdir_flat, try_except.
  destruct (os_mkdir_cases p w) as [[e ->]|(l & Hl & Hn & ->)].
  - left. destruct e, exist_ok; try done; apply exist_ok_world.
  - right. by exists l.
Qed.

(** [p.mkdir(parents=True)] below an existing directory, whatever its
    outcome: it makes directories on the way where nothing was, and
    changes nothing else. *)
Lemma mkdir_parents_changes (anchored : bool) (pre : list string) (base : loc)
    (names : list string) (exist_ok : bool) (w : world) :
  walk (fs w) (if anchored then [] else cwd w) pre = Ok base →
  fs w !! base = Some Dir →
  Forall (λ c, c ≠ "..") names →
  changes (descend base names) [] w
    (mkdir_parents anchored (rev (pre ++ names)) exist_ok w).1.
Proof.
  intros Hpre Hbase. revert exist_ok.
  induction names as [|n names IH] using rev_ind; intros exist_ok Hnames.
  - rewrite app_nil_r, mkdir_parents_eq. cbv zeta. rewrite rev_involutive.
    unfold try_except.
    assert (os_mkdir (mkPath anchored pre) w = (w, Raise FileExistsError)) as ->.
    { rewrite (os_mkdir_at _ _ base) by done. by rewrite Hbase. }
    apply changes_same_fs; destruct exist_ok; try done;
      by rewrite exist_ok_world.
  - pose proof Hnames as Hnames'.
    apply Forall_app in Hnames as [Hnames Hn]. rewrite Forall_singleton in Hn.
    specialize (IH true Hnames). rewrite descend_snoc.
    set (l := base ++ names ++ [n]).
    assert (∀ v v', changes (descend base names) [] v v' →
              changes (descend base names ++ [l]) [] v v') as Hmore.
    { intros v v'. apply changes_weaken; [|done].
      intros d Hd. apply elem_of_app. by left. }
    assert (l ∈ descend base names ++ [l]) as Hl.
    { apply elem_of_app. right. by apply list_elem_of_singleton. }
    rewrite mkdir_parents_eq. cbv zeta.
    rewrite app_assoc, rev_unit. cbn [rev]. rewrite rev_involutive.
    set (self := mkPath anchored ((pre ++ names) ++ [n])).
    assert (∀ w', cwd w' = cwd w → keeps_dirs (fs w) (fs w') →
              ∀ l', locate w' self = Ok l' → l' = l) as Hself.
    { intros w' Hc Hk l'. unfold locate, self. cbn [is_absolute parts].
      rewrite Hc, <- app_assoc, walk_app.
      rewrite (walk_mono _ _ _ _ _ Hk Hpre).
      intros Hw. by apply walk_plain in Hw as (-> & _). }
    unfold try_except.
    destruct (os_mkdir_cases self w) as [[e ->]|(l' & Hl' & Hnone & ->)].
    + assert (∀ e', changes (descend base names ++ [l]) [] w
                ((if exist_ok
                  then Path_is_dir self ≫= λ d : bool, if d then ret tt else raise e'
                  else raise e') w).1) as Hother.
      { intros e'. apply changes_same_fs; destruct exist_ok; try done;
          by rewrite exist_ok_world. }
      destruct e; try apply Hother; [apply changes_refl| |apply changes_refl].
      rewrite mbind_unfold.
      destruct (mkdir_parents anchored (rev (pre ++ names)) true w)
        as [w2 [[]|e]] eqn:Hrec; cbn [fst] in IH; [|by apply Hmore].
      eapply changes_trans; [by apply Hmore|].
      destruct (mkdir_flat_cases self exist_ok w2)
        as [->|(l' & Hl' & Hnone & ->)]; [apply changes_refl|].
      apply (Hself w2) in Hl'; [|apply IH|by eapply changes_keeps]. subst l'.
      by apply changes_mkdir.
    + apply (Hself w) in Hl'; [|done|apply keeps_dirs_refl]. subst l'.
      by apply changes_mkdir.
Qed.

(** [with open(p, 'w') as f: f.write(c)], whatever the outcome. *)
Lemma write_file_any (p : Path) (w : world) (c : string) :
  (open_w p ≫= λ f, write f c) w
  = match locate w p with
    | Raise e => (w, Raise e)
    | Ok l =>
        if is_dir (fs w) l then (w, Raise IsADirectoryError)
        else (set_fs w (put_file (fs w) (l, c)), Ok tt)
    end.
Proof.
  destruct (locate w p) as [l|e] eqn:Hl.
  - destruct (is_dir (fs w) l) eqn:Hd; [|by apply write_file_ok].
    apply is_dir_true in Hd. rewrite mbind_unfold. unfold open_w.
    by rewrite Hl, Hd.
  - rewrite mbind_unfold. unfold open_w. by rewrite Hl.
Qed.

Lemma anchored_changes (script_dir : Path) (here : loc) (dirs : list loc)
    (files : list (loc * string)) (w w' : world) :
  changes dirs files w w' →
  anchored script_dir here w → anchored script_dir here w'.
Proof.
  intros Hch (Hhere & Hdir & Hbase).
  pose proof (changes_keeps _ _ _ _ Hch) as Hk. destruct Hch as [Hc _].
  split; [by apply (locate_mono w)|]. split; by apply Hk.
Qed.

Lemma framed_pure (script_dir : Path) (here : loc) {A} (m : M A) :
  (∀ w, (m w).1 = w) → framed script_dir here m.
Proof. intros Hm w _. rewrite Hm. apply changes_refl. Qed.

Lemma framed_print (script_dir : Path) (here : loc) (s : string) :
  framed script_dir here (print s).
Proof. intros w _. by apply changes_same_fs. Qed.

Lemma framed_bind (script_dir : Path) (here : loc) {A B} (m : M A)
    (k : A → M B) :
  framed script_dir here m → (∀ a, framed script_dir here (k a)) →
  framed script_dir here (m ≫= k).
Proof.
  intros Hm Hk w Hw. rewrite mbind_unfold. specialize (Hm w Hw).
  destruct (m w) as [w' [a|e]]; cbn [fst] in *; [|done].
  eapply changes_trans; [exact Hm|]. apply Hk.
  by eapply anchored_changes.
Qed.

(** The value of a computation that does nothing else is known. *)
Lemma framed_bind_pure (script_dir : Path) (here : loc) {A B} (m : M A)
    (k : A → M B) (a : A) :
  (∀ w, m w = (w, Ok a)) → framed script_dir here (k a) →
  framed script_dir here (m ≫= k).
Proof. intros Hm Hk w Hw. rewrite mbind_unfold, Hm. by apply Hk. Qed.

Lemma framed_ext (script_dir : Path) (here : loc) {A} (m m' : M A) :
  (∀ w, m w = m' w) → framed script_dir here m' → framed script_dir here m.
Proof. intros Hm Hm' w Hw. rewrite Hm. by apply Hm'. Qed.

Lemma framed_for (script_dir : Path) (here : loc) {X} (xs : list X)
    (body : X → M unit) :
  (∀ x, x ∈ xs → framed script_dir here (body x)) →
  framed script_dir here (for_ xs body).
Proof.
  induction xs as [|x xs IH]; intros Hbody; [by apply framed_pure|].
  cbn [for_]. apply framed_bind; [apply Hbody; by left|].
  intros _. apply IH. intros y Hy. apply Hbody. by right.
Qed.

(** One of the two [mkdir] calls of the driver. *)
Lemma framed_mkdir (script_dir : Path) (here : loc) (s top : string) :
  startswith "/" s = false →
  parse_parts s = ".." :: ["client"; "Assets"; "Resources"] ++ [top] →
  top ≠ ".." →
  resources_loc (up here) ++ [top] ∈ tree_locs (up here) →
  framed script_dir here (Path_mkdir (script_dir </> s) true true).
Proof.
  intros Hs Hparts Htop Hin w (Hhere & Hdir & Hbase).
  rewrite truediv_relative, Hparts by done.
  unfold Path_mkdir. cbn [is_absolute parts].
  change (".." :: ?x) with ([".."] ++ x). rewrite app_assoc.
  eapply changes_weaken; [| |apply (mkdir_parents_changes _ _ (up here))].
  - rewrite tree_locs_eq. intros d. rewrite descend_snoc. cbn [descend].
    rewrite <- !app_assoc. cbn [app]. rewrite !elem_of_cons, elem_of_nil.
    rewrite tree_locs_eq in Hin. revert Hin.
    unfold resources_loc, cards_loc, chips_loc. rewrite <- !app_assoc. cbn [app].
    rewrite !elem_of_cons, elem_of_nil. intros Hin [->|[->|[->|[->|[]]]]]; auto.
  - intros f Hf. by apply elem_of_nil in Hf.
  - by apply way_to_base.
  - done.
  - apply Forall_app. split; [by repeat constructor|by constructor].
Qed.

(** Where the path of an output file leads, if anywhere. *)
Lemma locate_output (script_dir : Path) (here : loc) (s top name : string)
    (w : world) (l : loc) :
  startswith "/" s = false →
  parse_parts s = ".." :: ["client"; "Assets"; "Resources"] ++ [top] →
  top ≠ ".." → plain_name name = true →
  anchored script_dir here w →
  locate w (script_dir </> s </> name) = Ok l →
  l = resources_loc (up here) ++ [top; name].
Proof.
  intros Hs Hparts Htop (Hname & Hn & Hrel)%plain_name_spec
    (Hhere & Hdir & Hbase).
  rewrite (truediv_relative _ name), Hname by done.
  rewrite truediv_relative, Hparts by done.
  unfold locate in *. cbn [is_absolute parts].
  rewrite <- app_assoc, walk_app, Hhere, <- app_comm_cons, walk_up by done.
  rewrite <- app_assoc. cbn [app].
  change ["client"; "Assets"; "Resources"; top; name]
    with (["client"; "Assets"; "Resources"; top] ++ [name]).
  intros Hw. apply walk_plain in Hw as (-> & _).
  - unfold resources_loc. by rewrite <- !app_assoc.
  - by repeat constructor.
Qed.

(** The writing of one output file. *)
Lemma framed_write (script_dir : Path) (here : loc)
    (s top name content : string) :
  startswith "/" s = false →
  parse_parts s = ".." :: ["client"; "Assets"; "Resources"] ++ [top] →
  top ≠ ".." → plain_name name = true →
  (resources_loc (up here) ++ [top; name], content) ∈ outputs (up here) →
  framed script_dir here
    (open_w (script_dir </> s </> name) ≫= λ f, write f content).
Proof.
  intros Hs Hparts Htop Hname Hin w Hw. rewrite write_file_any.
  destruct (locate w _) as [l|e] eqn:Hl; [|apply changes_refl].
  apply locate_output with (here := here) (top := top) in Hl; try done.
  subst l.
  destruct (is_dir (fs w) _) eqn:Hd; [apply changes_refl|].
  by apply changes_put.
Qed.

Lemma card_output_in (base : loc) (name content : string) :
  (name, content) ∈ card_outputs →
  (resources_loc base ++ ["Cards"; name], content) ∈ outputs base.
Proof.
  intros Hin. unfold outputs. apply elem_of_app. left.
  apply list_elem_of_fmap. exists (name, content). split; [|done].
  unfold cards_loc. by rewrite <- app_assoc.
Qed.

Lemma chip_output_in (base : loc) (name content : string) :
  (name, content) ∈ chip_outputs →
  (resources_loc base ++ ["Chips"; name], content) ∈ outputs base.
Proof.
  intros Hin. unfold outputs. apply elem_of_app. right.
  apply list_elem_of_fmap. exists (name, content). split; [|done].
  unfold chips_loc. by rewrite <- app_assoc.
Qed.

(** X5. Whatever happens in a run, it changes nothing but the output tree.
    Where the directory of the script and the directory that holds it
    exist, and whether the run returns or raises, every location of the
    file system is afterwards as it was, or is one of the five directories
    of the output tree, made where nothing was, or is one of the 59 output
    paths and holds the whole document of that path: no other file is
    touched, nothing is removed, and no output file is left half
    written. *)
Theorem main_touches_only_outputs (script_dir : Path) (w : world) (here : loc) :
  locate w script_dir = Ok here →
  fs w !! here = Some Dir → fs w !! up here = Some Dir →
  let w' := (main script_dir w).1 in
  cwd w' = cwd w ∧
  ∀ l, fs w' !! l = fs w !! l
     ∨ (l ∈ tree_locs (up here) ∧ fs w !! l = None ∧ fs w' !! l = Some Dir)
     ∨ (∃ doc, (l, doc) ∈ outputs (up here) ∧ fs w !! l ≠ Some Dir ∧
               fs w' !! l = Some (File doc)).
Proof.
  intros Hhere Hdir Hbase.
  enough (framed script_dir here (main script_dir)) as Hmain by by apply Hmain.
  clear w Hhere Hdir Hbase. unfold main. cbv zeta.
  apply framed_bind; [|intros _].
  { apply (framed_mkdir _ _ _ "Cards"); try done.
    rewrite tree_locs_eq. unfold cards_loc.
    rewrite !elem_of_cons. tauto. }
  apply framed_bind; [|intros _].
  { apply (framed_mkdir _ _ _ "Chips"); try done.
    rewrite tree_locs_eq. unfold chips_loc.
    rewrite !elem_of_cons. tauto. }
  apply framed_bind; [apply framed_print|intros _].
  apply framed_bind; [|intros _].
  { apply framed_for. intros suit Hsuit. apply framed_for. intros rank Hrank.
    assert ((rank, suit) ∈ card_faces) as Hface.
    { unfold card_faces. apply list_elem_of_bind. exists suit. split; [|done].
      apply list_elem_of_bind. exists rank. split; [|done].
      by apply list_elem_of_singleton. }
    destruct (card_faces_spec _ Hface) as [Hr Hs].
    apply (framed_bind_pure _ _ _ _ (document (generate_card_svg rank suit))).
    { intros w. by apply generate_card_svg_good. }
    apply framed_bind; [|intros _; apply framed_print].
    apply (framed_write _ _ _ "Cards"); try done.
    - by apply (proj1 (Forall_forall _ _) card_names_plain (rank, suit)).
    - apply card_output_in. unfold card_outputs. apply elem_of_app. left.
      apply list_elem_of_In, in_map_iff. exists (rank, suit).
      split; [done|by apply list_elem_of_In]. }
  apply framed_bind; [apply framed_print|intros _].
  apply framed_bind; [|intros _].
  { eapply framed_ext; [intros w; apply write_back_eq|].
    apply (framed_write _ _ _ "Cards"); try done.
    apply card_output_in. unfold card_outputs. apply elem_of_app. right.
    by apply list_elem_of_singleton. }
  apply framed_bind; [apply framed_print|intros _].
  apply framed_bind; [apply framed_print|intros _].
  apply framed_bind; [|intros _].
  { apply framed_for. intros [[value color] text_color] Hchip.
    apply (framed_bind_pure _ _ _ _
             (document (generate_chip_svg value color (Some text_color))));
      [intros w; by apply generate_chip_svg_good|].
    apply framed_bind; [|intros _; apply framed_print].
    apply (framed_write _ _ _ "Chips"); try done.
    - by apply (proj1 (Forall_forall _ _) chip_names_plain
                  (value, color, text_color)).
    - apply chip_output_in. unfold chip_outputs.
      apply list_elem_of_In, in_map_iff. exists (value, color, text_color).
      split; [done|by apply list_elem_of_In]. }
  do 5 (apply framed_bind; [apply framed_print|intros _]).
  apply framed_bind; [|intros _];
    (apply framed_bind; [by apply framed_pure|intros a; apply framed_print]).
Qed.

Lemma main_touches_only_outputs_witness :
  locate example_world example_script_dir = Ok ["srv"; "game"; "tools"] ∧
  cwd (main example_script_dir example_world).1 = cwd example_world ∧
  ∀ l, fs (main example_script_dir example_world).1 !! l = fs example_world !! l
     ∨ (l ∈ tree_locs ["srv"; "game"] ∧ fs example_world !! l = None ∧
        fs (main example_script_dir example_world).1 !! l = Some Dir)
     ∨ (∃ doc, (l, doc) ∈ outputs ["srv"; "game"] ∧
               fs example_world !! l ≠ Some Dir ∧
               fs (main example_script_dir example_world).1 !! l
               = Some (File doc)).
Proof.
  split; [reflexivity|].
  apply (main_touches_only_outputs example_script_dir example_world
           ["srv"; "game"; "tools"]); reflexivity.
Defined.

(** ** A directory in the way of an output file *)

Lemma until_ext {X} (f g : X → bool) (xs : list X) :
  (∀ x, x ∈ xs → f x = g x) → until f xs = until g xs.
Proof.
  induction xs as [|x xs IH]; intros H; [done|]. cbn [until].
  rewrite (H x) by by left. rewrite IH; [done|]. intros y Hy. apply H. by right.
Qed.

Lemma until_fmap {X Y} (stop : Y → bool) (f : X → Y) (xs : list X) :
  until stop (f <$> xs) = f <$> until (λ x, stop (f x)) xs.
Proof.
  induction xs as [|x xs IH]; [done|]. rewrite fmap_cons. cbn [until].
  destruct (stop (f x)); [done|]. by rewrite IH, fmap_cons.
Qed.

Lemma until_all {X} (stop : X → bool) (xs : list X) :
  forallb (λ x, negb (stop x)) xs = true ↔ until stop xs = xs.
Proof.
  induction xs as [|x xs IH]; [done|]. cbn [until forallb].
  destruct (stop x); cbn [negb andb]; [done|].
  rewrite IH. split; [by intros ->|by intros [= ->]].
Qed.

Lemma until_app {X} (stop : X → bool) (xs ys : list X) :
  until stop (xs ++ ys)
  = if forallb (λ x, negb (stop x)) xs then xs ++ until stop ys
    else until stop xs.
Proof.
  induction xs as [|x xs IH]; [done|]. cbn [until forallb app].
  destruct (stop x); cbn [negb andb]; [done|].
  rewrite IH. by destruct (forallb _ xs).
Qed.

Lemma until_clear {X} (stop : X → bool) (xs : list X) :
  Forall (λ x, stop x = false) (until stop xs).
Proof.
  induction xs as [|x xs IH]; [constructor|]. cbn [until].
  destruct (stop x) eqn:Hx; by constructor.
Qed.

Lemma until_sublist {X} (stop : X → bool) (xs : list X) :
  sublist (until stop xs) xs.
Proof.
  induction xs as [|x xs IH]; [constructor|]. cbn [until].
  destruct (stop x); [apply sublist_nil_l|by constructor].
Qed.

Lemma forallb_fmap {X Y} (p : Y → bool) (f : X → Y) (xs : list X) :
  forallb p (f <$> xs) = forallb (λ x, p (f x)) xs.
Proof.
  induction xs as [|x xs IH]; [done|]. rewrite fmap_cons. cbn. by rewrite IH.
Qed.

Lemma put_file_is_dir (t : gmap (list string) node) (l l' : loc) (c : string) :
  is_dir t l = false → is_dir (put_file t (l, c)) l' = is_dir t l'.
Proof.
  intros Hl. unfold is_dir in *. rewrite put_file_lookup. cbn [fst snd].
  case_decide as Hll; [by subst l'|done].
Qed.

Lemma put_files_is_dir_eq (t : gmap (list string) node)
    (outs : list (loc * string)) (l : loc) :
  Forall (λ f, is_dir t f.1 = false) outs →
  is_dir (foldl put_file t outs) l = is_dir t l.
Proof.
  revert t. induction outs as [|[l' c] outs IH]; intros t Houts; [done|].
  apply Forall_cons in Houts as [Hf Houts]. cbn [foldl fst] in *.
  rewrite IH.
  - by apply put_file_is_dir.
  - eapply Forall_impl; [exact Houts|]. intros f Hf'. by rewrite put_file_is_dir.
Qed.

(** The loop of [write_loop] where an item may find a directory in its
    way: it stops there with [IsADirectoryError]. *)
Lemma write_loop_until {X} (dir : Path) (d : loc) (name content : X → string)
    (stop : X → bool) (items : list X) (w : world) :
  Forall (λ x, plain_name (name x) = true) items →
  locate w dir = Ok d → fs w !! d = Some Dir →
  (∀ x, x ∈ items → is_dir (fs w) (d ++ [name x]) = stop x) →
  for_ items (λ x,
    (open_w (dir </> name x) ≫= λ f, write f (content x));;
    print (created (name x))) w
  = (mkWorld
       (foldl put_file (fs w)
          ((λ x, (d ++ [name x], content x)) <$> until stop items))
       (cwd w)
       (stdout w ++ ((λ x, created (name x)) <$> until stop items)),
     if forallb (λ x, negb (stop x)) items then Ok tt
     else Raise IsADirectoryError).
Proof.
  intros Hplain. revert w.
  induction Hplain as [|x items Hx Hplain IH]; intros w Hdir Hd Hstop.
  - cbn [for_ fmap list_fmap foldl until forallb]. rewrite app_nil_r.
    by destruct w.
  - rewrite for_cons, mbind_unfold, mbind_unfold, write_file_any.
    rewrite (locate_child _ _ d) by done.
    rewrite (Hstop x) by by left. cbn [until forallb].
    destruct (stop x) eqn:Hsx; cbn [negb andb].
    { cbn [fmap list_fmap foldl]. rewrite app_nil_r. by destruct w. }
    assert (is_dir (fs w) (d ++ [name x]) = false) as Hfile.
    { rewrite Hstop; [done|by left]. }
    unfold print at 1. cbn [set_fs fs cwd stdout].
    set (w1 := mkWorld _ _ _).
    assert (keeps_dirs (fs w) (fs w1)) as Hkeep.
    { apply (put_files_keeps _ [_]). by constructor. }
    rewrite IH.
    + unfold w1. cbn [fs cwd stdout]. rewrite !fmap_cons. cbn [foldl].
      by rewrite <- app_assoc.
    + by apply (locate_mono w).
    + by apply Hkeep.
    + intros y Hy. cbn [w1 fs]. rewrite put_file_is_dir by done.
      apply Hstop. by right.
Qed.

(** The outputs, phase by phase. *)
Lemma outputs_phases (base : loc) :
  outputs base
  = ((λ face, (cards_loc base ++ [card_name face],
               document (generate_card_svg face.1 face.2))) <$> card_faces)
    ++ [(cards_loc base ++ ["card_back.svg"], document generate_card_back_svg)]
    ++ ((λ chip : Z * string * string,
           (chips_loc base ++ [chip_name chip],
            document (generate_chip_svg chip.1.1 chip.1.2 (Some chip.2))))
        <$> chips).
Proof.
  unfold outputs, card_outputs, chip_outputs.
  rewrite !fmap_app, <- !list_fmap_compose, <- app_assoc. reflexivity.
Qed.

(** The run where nothing is in the way of the output tree: the files are
    written in their order up to the first path that is a directory. *)
Lemma main_until (script_dir : Path) (w : world) (here : loc) :
  locate w script_dir = Ok here →
  fs w !! here = Some Dir → fs w !! up here = Some Dir →
  Forall (λ d, free_or_dir (fs w) d = true) (tree_locs (up here)) →
  ∃ out,
    main script_dir w
    = (mkWorld
         (foldl put_file (foldl make_dir (fs w) (tree_locs (up here)))
            (until (λ f, is_dir (fs w) f.1) (outputs (up here))))
         (cwd w) out,
       if forallb (λ f, negb (is_dir (fs w) f.1)) (outputs (up here))
       then Ok tt else Raise IsADirectoryError).
Proof.
  intros Hhere Hdir Hbase Hfree. set (base := up here) in *.
  rewrite outputs_phases.
  rewrite until_app, forallb_app, until_fmap, forallb_fmap.
  rewrite until_app, forallb_app, until_fmap, forallb_fmap.
  cbn [until forallb fst andb].
  set (sF := λ face, is_dir (fs w) (cards_loc base ++ [card_name face])).
  set (sB := is_dir (fs w) (cards_loc base ++ ["card_back.svg"])).
  set (sC := λ chip, is_dir (fs w) (chips_loc base ++ [chip_name chip])).
  set (GF := λ face : string * string, (cards_loc base ++ [card_name face],
               document (generate_card_svg face.1 face.2))).
  set (GC := λ chip : Z * string * string,
           (chips_loc base ++ [chip_name chip],
            document (generate_chip_svg chip.1.1 chip.1.2 (Some chip.2)))).
  change (until _ card_faces) with (until sF card_faces).
  change (forallb _ card_faces) with (forallb (λ x, negb (sF x)) card_faces).
  change (until _ chips) with (until sC chips).
  change (forallb _ chips) with (forallb (λ x, negb (sC x)) chips).
  unfold main. cbv zeta.
  rewrite <- bind_assoc, mbind_unfold.
  rewrite (mkdirs_ok script_dir w here) by done. fold base.
  set (cards_dir := script_dir </> "../client/Assets/Resources/Cards").
  set (chips_dir := script_dir </> "../client/Assets/Resources/Chips").
  set (t2 := foldl make_dir (fs w) (tree_locs base)).
  assert (keeps_dirs (fs w) t2) as Hkeep by apply make_dirs_keeps.
  assert (Forall (λ d, t2 !! d = Some Dir) (tree_locs base)) as Hmade.
  { apply Forall_forall. intros d Hd. apply make_dirs_made; [done|].
    by apply (proj1 (Forall_forall _ _) Hfree). }
  assert (∀ l, length l = (length base + 5)%nat → is_dir t2 l = is_dir (fs w) l)
    as Hout.
  { intros l Hl. unfold is_dir, t2. rewrite make_dirs_other; [done|].
    intros Hin%tree_locs_length. lia. }
  assert (∀ n, is_dir t2 (cards_loc base ++ [n])
               = is_dir (fs w) (cards_loc base ++ [n])) as HoutF.
  { intros n. apply Hout. unfold cards_loc, resources_loc.
    rewrite !length_app. cbn [length]. lia. }
  assert (∀ n, is_dir t2 (chips_loc base ++ [n])
               = is_dir (fs w) (chips_loc base ++ [n])) as HoutC.
  { intros n. apply Hout. unfold chips_loc, resources_loc.
    rewrite !length_app. cbn [length]. lia. }
  rewrite tree_locs_eq in Hmade.
  apply Forall_cons in Hmade as [Hd1 Hmade].
  apply Forall_cons in Hmade as [Hd2 Hmade].
  apply Forall_cons in Hmade as [Hd3 Hmade].
  apply Forall_cons in Hmade as [Hd4 Hmade].
  apply Forall_cons in Hmade as [Hd5 _].
  assert (Forall (λ d, t2 !! d = Some Dir)
            (descend base ["client"; "Assets"; "Resources"])) as Hdirs.
  { cbn [descend]. rewrite <- !app_assoc. by repeat constructor. }
  assert (∀ w', cwd w' = cwd w → keeps_dirs t2 (fs w') →
    locate w' cards_dir = Ok (cards_loc base) ∧
    locate w' chips_dir = Ok (chips_loc base) ∧
    fs w' !! cards_loc base = Some Dir ∧
    fs w' !! chips_loc base = Some Dir) as Hdirs'.
  { intros w' Hcwd Hkeep'.
    assert (locate (set_fs w t2) script_dir = Ok here) as Hhere2
      by by apply (locate_mono w).
    split; [|split; [|split; by apply Hkeep']].
    - apply (locate_mono (set_fs w t2)); [done..|].
      unfold cards_loc, resources_loc. rewrite <- app_assoc.
      apply (locate_below _ _ _ _ ["client"; "Assets"; "Resources"] "Cards");
        try done; [by repeat constructor | by apply Hkeep..].
    - apply (locate_mono (set_fs w t2)); [done..|].
      unfold chips_loc, resources_loc. rewrite <- app_assoc.
      apply (locate_below _ _ _ _ ["client"; "Assets"; "Resources"] "Chips");
        try done; [by repeat constructor | by apply Hkeep..]. }
  (* the first line *)
  rewrite mbind_unfold. unfold print at 1. cbn [set_fs fs cwd stdout].
  (* the faces *)
  rewrite mbind_unfold, for_nested.
  change (keys SUITS ≫= _) with card_faces.
  rewrite (for_ext _ _ (λ face,
    (open_w (cards_dir </> card_name face)
     ≫= λ f, write f (document (generate_card_svg face.1 face.2)));;
    print (created (card_name face)))).
  2: { intros face w' [Hr Hs]%card_faces_spec.
       by rewrite mbind_unfold, generate_card_svg_good. }
  set (w3 := mkWorld t2 _ _).
  destruct (Hdirs' w3 eq_refl (keeps_dirs_refl _)) as (Hc3 & _ & HC3 & _).
  rewrite (write_loop_until cards_dir (cards_loc base) _ _ sF);
    [| exact card_names_plain | done | done | by intros face _; apply HoutF].
  clear Hc3 HC3. subst w3. cbn [set_fs fs cwd stdout].
  fold GF.
  pose proof (until_clear sF card_faces) as HclearF.
  set (doneF := until sF card_faces) in *.
  set (t4 := foldl put_file t2 (GF <$> doneF)).
  assert (Forall (λ f, is_dir t2 f.1 = false) (GF <$> doneF)) as HnodirF.
  { rewrite Forall_fmap. eapply Forall_impl; [exact HclearF|].
    intros face Hface. unfold compose, GF. cbn [fst]. by rewrite HoutF. }
  assert (keeps_dirs t2 t4) as Hkeep4 by by apply put_files_keeps.
  destruct (forallb (λ x, negb (sF x)) card_faces) eqn:HallF; [|by eexists].
  assert (doneF = card_faces) as HdoneF by by apply until_all.
  (* the back *)
  rewrite mbind_unfold. unfold print at 1. cbn [set_fs fs cwd stdout].
  rewrite mbind_unfold, write_back_eq.
  set (w5 := mkWorld t4 _ _).
  destruct (Hdirs' w5 eq_refl Hkeep4) as (Hc5 & _ & HC5 & _).
  rewrite write_file_any, (locate_child _ _ (cards_loc base)) by done.
  clear Hc5 HC5. subst w5. cbn [set_fs fs cwd stdout].
  unfold t4 at 1. rewrite put_files_is_dir_eq, HoutF by done. fold sB.
  destruct sB eqn:HsB; cbn [negb andb fst snd].
  { rewrite app_nil_r. unfold t4. rewrite HdoneF. by eexists. }
  set (t6 := put_file t4 _).
  assert (∀ l, is_dir t6 l = is_dir t2 l) as Hsame6.
  { intros l. unfold t6. rewrite put_file_is_dir.
    - by apply put_files_is_dir_eq.
    - unfold t4. by rewrite put_files_is_dir_eq, HoutF. }
  assert (keeps_dirs t2 t6) as Hkeep6.
  { intros l Hl%is_dir_true. apply is_dir_true. by rewrite Hsame6. }
  rewrite mbind_unfold. unfold print at 1. cbn [set_fs fs cwd stdout].
  rewrite mbind_unfold. unfold print at 1. cbn [set_fs fs cwd stdout].
  (* the chips *)
  rewrite mbind_unfold.
  rewrite (for_ext _ _ (λ chip : Z * string * string,
    (open_w (chips_dir </> chip_name chip)
     ≫= λ f : loc, write f (document (generate_chip_svg chip.1.1 chip.1.2
                                  (Some chip.2))));;
    print (created (chip_name chip)))).
  2: { intros [[value color] text_color] w' Hchip.
       by rewrite mbind_unfold, generate_chip_svg_good. }
  set (w7 := mkWorld t6 _ _).
  destruct (Hdirs' w7 eq_refl Hkeep6) as (_ & Hc7 & _ & HC7).
  rewrite (write_loop_until chips_dir (chips_loc base) _ _ sC);
    [| exact chip_names_plain | done | done |].
  2: { intros chip _. cbn [w7 fs]. by rewrite Hsame6, HoutC. }
  clear Hc7 HC7. subst w7. cbn [set_fs fs cwd stdout]. fold GC.
  set (doneC := until sC chips).
  assert (foldl put_file t6 (GC <$> doneC)
          = foldl put_file t2 ((GF <$> card_faces)
              ++ (cards_loc base ++ ["card_back.svg"],
                  document generate_card_back_svg) :: (GC <$> doneC))) as Hfs.
  { rewrite foldl_app. cbn [foldl]. unfold t6, t4. by rewrite HdoneF. }
  destruct (forallb (λ x, negb (sC x)) chips) eqn:HallC;
    [|rewrite Hfs; by eexists].
  (* the summary *)
  do 5 (rewrite mbind_unfold; unfold print at 1; cbn [set_fs fs cwd stdout]).
  rewrite mbind_unfold. unfold Path_absolute at 1. rewrite mbind_unfold.
  unfold print at 1. cbn [set_fs fs cwd stdout].
  unfold Path_absolute. rewrite mbind_unfold.
  unfold print at 1. cbn [set_fs fs cwd stdout]. rewrite Hfs. by eexists.
Qed.

(** X6. A directory in the way of an output file stops the run there, and
    nothing is rolled back.  Where nothing is in the way of the output
    tree, the files are written in their order (the faces suit by suit,
    the back, the chips) up to the first path at which a directory stands:
    the run raises [IsADirectoryError] there, or returns when there is no
    such path.  The files before that path hold their documents, the
    output paths from there on are as they were, and the five directories
    of the output tree exist. *)
Theorem main_stops_at_directory (script_dir : Path) (w : world) (here : loc) :
  locate w script_dir = Ok here →
  fs w !! here = Some Dir → fs w !! up here = Some Dir →
  Forall (λ d, free_or_dir (fs w) d = true) (tree_locs (up here)) →
  let base := up here in
  let written := until (λ f, is_dir (fs w) f.1) (outputs base) in
  let w' := (main script_dir w).1 in
  (main script_dir w).2
  = (if decide (written = outputs base) then Ok tt
     else Raise IsADirectoryError) ∧
  (∀ l doc, (l, doc) ∈ written → fs w' !! l = Some (File doc)) ∧
  (∀ l, l ∈ (outputs base).*1 → l ∉ written.*1 → fs w' !! l = fs w !! l) ∧
  (∀ d, d ∈ tree_locs base → fs w' !! d = Some Dir).
Proof.
  intros Hhere Hdir Hbase Hfree base written.
  destruct (main_until script_dir w here Hhere Hdir Hbase Hfree)
    as [out Hmain].
  fold base written in Hmain. rewrite Hmain. cbv zeta. cbn [fst snd fs].
  pose proof (until_sublist (λ f, is_dir (fs w) f.1) (outputs base)) as Hsub.
  fold written in Hsub.
  assert (∀ l, l ∈ written.*1 → l ∈ (outputs base).*1) as Hsome.
  { intros l Hl. eapply elem_of_sublist; [exact Hl|]. by apply fmap_sublist. }
  split; [|split; [|split]].
  - destruct (forallb _ (outputs base)) eqn:Hall.
    + apply until_all in Hall. by rewrite decide_True.
    + rewrite decide_False; [done|]. intros Heq%until_all. congruence.
  - intros l doc Hin. apply put_files_in; [|done].
    eapply sublist_NoDup; [apply outputs_NoDup|]. by apply fmap_sublist.
  - intros l Hl Hnot. rewrite put_files_other by done.
    apply make_dirs_other. by apply outputs_not_tree.
  - intros d Hd. rewrite put_files_other.
    + apply make_dirs_made; [done|].
      by apply (proj1 (Forall_forall _ _) Hfree).
    + intros Hin%Hsome. by apply outputs_not_tree in Hin.
Qed.

Lemma main_stops_at_directory_witness :
  locate stuck_world example_script_dir = Ok ["srv"; "game"; "tools"] ∧
  (main example_script_dir stuck_world).2 = Raise IsADirectoryError ∧
  fs (main example_script_dir stuck_world).1
    !! ["srv"; "game"; "client"; "Assets"; "Resources"; "Cards"; "2h.svg"]
  = Some (File (document (generate_card_svg "2" "h"))) ∧
  fs (main example_script_dir stuck_world).1
    !! ["srv"; "game"; "client"; "Assets"; "Resources"; "Cards"; "3h.svg"]
  = Some Dir ∧
  fs (main example_script_dir stuck_world).1
    !! ["srv"; "game"; "client"; "Assets"; "Resources"; "Cards"; "4h.svg"]
  = None.
Proof.
  split; [reflexivity|].
  assert (Forall (λ d, free_or_dir (fs stuck_world) d = true)
            (tree_locs (up ["srv"; "game"; "tools"]))) as Hfree.
  { apply (bool_decide_unpack _). vm_compute. exact I. }
  destruct (main_stops_at_directory example_script_dir stuck_world
              ["srv"; "game"; "tools"] eq_refl eq_refl eq_refl Hfree)
    as (Hout & Hin & Hother & _).
  split; [|split; [|split]].
  - rewrite Hout. vm_compute. reflexivity.
  - apply Hin. apply (bool_decide_unpack _). vm_compute. exact I.
  - rewrite Hother; [reflexivity| |];
      apply (bool_decide_unpack _); vm_compute; exact I.
  - rewrite Hother; [reflexivity| |];
      apply (bool_decide_unpack _); vm_compute; exact I.
Defined.

(** ** A regular file in the way of the output tree *)

(** [p.mkdir(parents=True)] where the front of [p] leads to a regular
    file: the call fails and changes nothing. *)
Lemma mkdir_parents_blocked (anchored : bool) (front rest : list string)
    (exist_ok : bool) (w : world) (l : loc) (c : string) :
  walk (fs w) (if anchored then [] else cwd w) front = Ok l →
  fs w !! l = Some (File c) →
  mkdir_parents anchored (rev (front ++ rest)) exist_ok w
  = (w, Raise match rest with
              | [] => FileExistsError
              | _ => NotADirectoryError
              end).
Proof.
  intros Hfront Hl. rewrite mkdir_parents_eq. cbv zeta. rewrite rev_involutive.
  set (self := mkPath anchored (front ++ rest)).
  assert (locate w self
          = match rest with [] => Ok l | _ => Raise NotADirectoryError end)
    as Hself.
  { unfold locate, self. cbn [is_absolute parts]. rewrite walk_app, Hfront.
    destruct rest as [|r rest]; [done|]. by rewrite walk_cons, Hl. }
  assert (Path_is_dir self w = (w, Ok false)) as Hisdir.
  { unfold Path_is_dir. rewrite Hself. destruct rest; [by rewrite Hl|done]. }
  unfold try_except, os_mkdir. rewrite Hself.
  destruct rest as [|r rest]; [rewrite Hl|];
    destruct exist_ok; try done; by rewrite mbind_unfold, Hisdir.
Qed.

(** In a tree, what exists is reached through directories. *)
Lemma tree_descend (t : gmap (list string) node) (l : loc)
    (names : list string) :
  tree t → is_Some (t !! (l ++ names)) →
  t !! l = Some Dir ∨ names = [].
Proof.
  intros [_ Htree]. induction names as [|n names IH] using rev_ind; [by right|].
  intros Hsome. left. rewrite app_assoc in Hsome. apply Htree in Hsome.
  destruct IH as [IH| ->]; [by rewrite Hsome|done|by rewrite app_nil_r in Hsome].
Qed.

Lemma tree_above (t : gmap (list string) node) (l : loc)
    (names : list string) (n : string) :
  tree t → is_Some (t !! (l ++ names ++ [n])) →
  t !! l = Some Dir ∧ Forall (λ d, t !! d = Some Dir) (descend l names).
Proof.
  intros Htree. revert l. induction names as [|c names IH]; intros l Hsome.
  - split; [|constructor]. by destruct (tree_descend t l [n] Htree Hsome).
  - split.
    + by destruct (tree_descend t l (c :: names ++ [n]) Htree Hsome).
    + cbn [descend]. cbn [app] in Hsome.
      change (l ++ c :: names ++ [n]) with (l ++ [c] ++ names ++ [n]) in Hsome.
      rewrite app_assoc in Hsome. destruct (IH _ Hsome) as [Hc Hrest].
      by constructor.
Qed.

(** [mkdir] of a path below the directory of the script, on whose way a
    regular file stands. *)
Lemma mkdir_blocked_at (script_dir : Path) (w : world) (here : loc)
    (s : string) (names : list string) (n : string) (rest : list string)
    (c : string) :
  startswith "/" s = false → parse_parts s = ".." :: names ++ n :: rest →
  Forall (λ x, x ≠ "..") names → n ≠ ".." →
  locate w script_dir = Ok here →
  fs w !! here = Some Dir → fs w !! up here = Some Dir →
  Forall (λ d, fs w !! d = Some Dir) (descend (up here) names) →
  fs w !! (up here ++ names ++ [n]) = Some (File c) →
  Path_mkdir (script_dir </> s) true true w
  = (w, Raise match rest with
              | [] => FileExistsError
              | _ => NotADirectoryError
              end).
Proof.
  intros Hs Hparts Hnames Hn Hhere Hdir Hbase Hdirs Hfile.
  rewrite truediv_relative, Hparts by done.
  unfold Path_mkdir. cbn [is_absolute parts].
  replace (parts script_dir ++ ".." :: names ++ n :: rest)
    with (((parts script_dir ++ [".."]) ++ names ++ [n]) ++ rest)
    by (by rewrite <- !app_assoc).
  apply (mkdir_parents_blocked _ _ _ _ _ (up here ++ names ++ [n]) c); [|done].
  rewrite walk_app, (way_to_base _ _ _ Hhere Hdir). by apply walk_into.
Qed.

(** The first [mkdir] of the driver where nothing is in its way. *)
Lemma mkdir_cards_ok (script_dir : Path) (w : world) (here : loc) :
  locate w script_dir = Ok here →
  fs w !! here = Some Dir → fs w !! up here = Some Dir →
  Forall (λ d, free_or_dir (fs w) d = true)
    (descend (up here) ["client"; "Assets"; "Resources"; "Cards"]) →
  Path_mkdir (script_dir </> "../client/Assets/Resources/Cards") true true w
  = (set_fs w (foldl make_dir (fs w)
       (descend (up here) ["client"; "Assets"; "Resources"; "Cards"])), Ok tt).
Proof.
  intros Hhere Hdir Hbase Hfree.
  rewrite truediv_relative by reflexivity.
  change (parse_parts "../client/Assets/Resources/Cards")
    with ([".."] ++ ["client"; "Assets"; "Resources"; "Cards"]).
  unfold Path_mkdir. cbn [is_absolute parts]. rewrite app_assoc.
  apply mkdir_parents_ok; [by apply way_to_base|done| |done].
  by repeat constructor.
Qed.

Lemma tree_locs_apart (base : loc) :
  base ++ ["client"] ≠ cards_loc base ∧ base ++ ["client"] ≠ chips_loc base ∧
  base ++ ["client"; "Assets"] ≠ cards_loc base ∧
  base ++ ["client"; "Assets"] ≠ chips_loc base ∧
  resources_loc base ≠ cards_loc base ∧ resources_loc base ≠ chips_loc base ∧
  cards_loc base ≠ chips_loc base.
Proof.
  unfold cards_loc, chips_loc, resources_loc. rewrite <- !app_assoc.
  repeat split; intros H%app_inv_head; discriminate.
Qed.

(** A regular file where a directory of the output tree should be stops
    the run in [mkdir]. *)
Lemma main_blocked (script_dir : Path) (w : world) (here d : loc) (c : string) :
  tree (fs w) →
  locate w script_dir = Ok here → fs w !! here = Some Dir →
  d ∈ tree_locs (up here) → fs w !! d = Some (File c) →
  ∃ t',
    main script_dir w = (set_fs w t', Raise (blocked_by (up here) d)) ∧
    (∀ l, l ∉ tree_locs (up here) → t' !! l = fs w !! l) ∧
    (d ≠ chips_loc (up here) → t' = fs w).
Proof.
  intros Htree Hhere Hdir Hd Hfile.
  pose proof (tree_up _ _ Htree Hdir) as Hbase. set (base := up here) in *.
  destruct (tree_locs_apart base) as (N1 & N2 & N3 & N4 & N5 & N6 & N7).
  assert (∀ names n rest c',
    names ++ n :: rest = ["client"; "Assets"; "Resources"; "Cards"] →
    fs w !! (base ++ names ++ [n]) = Some (File c') →
    main script_dir w
    = (w, Raise match rest with
                | [] => FileExistsError
                | _ => NotADirectoryError
                end)) as Hcards.
  { intros names n rest c' Hsplit Hc'.
    assert (Forall (λ x, x ≠ "..") (names ++ n :: rest)) as Hplain.
    { rewrite Hsplit. by repeat constructor. }
    apply Forall_app in Hplain as [Hnames Hn]. apply Forall_cons in Hn as [Hn _].
    unfold main. cbv zeta. rewrite mbind_unfold.
    rewrite (mkdir_blocked_at _ _ here _ names n rest c'); try done.
    - change (parse_parts _)
        with (".." :: ["client"; "Assets"; "Resources"; "Cards"]).
      by rewrite Hsplit.
    - apply (tree_above _ _ _ n); [done|]. fold base. by rewrite Hc'. }
  unfold blocked_by. rewrite tree_locs_eq in Hd.
  repeat (apply elem_of_cons in Hd as [->|Hd]); [..|by apply elem_of_nil in Hd].
  - exists (fs w). rewrite set_fs_id. split; [|done].
    rewrite decide_False by tauto.
    by apply (Hcards [] "client" ["Assets"; "Resources"; "Cards"] c).
  - exists (fs w). rewrite set_fs_id. split; [|done].
    rewrite decide_False by tauto.
    by apply (Hcards ["client"] "Assets" ["Resources"; "Cards"] c).
  - exists (fs w). rewrite set_fs_id. split; [|done].
    rewrite decide_False by tauto.
    apply (Hcards ["client"; "Assets"] "Resources" ["Cards"] c); [done|].
    by unfold resources_loc in Hfile.
  - exists (fs w). rewrite set_fs_id. split; [|done].
    rewrite decide_True by tauto.
    apply (Hcards ["client"; "Assets"; "Resources"] "Cards" [] c); [done|].
    unfold cards_loc, resources_loc in Hfile. by rewrite <- app_assoc in Hfile.
  - rewrite decide_True by tauto.
    destruct (tree_above (fs w) base ["client"; "Assets"; "Resources"] "Chips")
      as [_ Hdirs]; [done| |].
    { unfold chips_loc, resources_loc in Hfile.
      rewrite <- app_assoc in Hfile. by rewrite Hfile. }
    destruct (free_or_dir (fs w) (cards_loc base)) eqn:Hfree.
    2: { unfold free_or_dir in Hfree.
         destruct (fs w !! cards_loc base) as [[|c2]|] eqn:Hcardsloc; try done.
         exists (fs w). rewrite set_fs_id. split; [|done].
         apply (Hcards ["client"; "Assets"; "Resources"] "Cards" [] c2); [done|].
         unfold cards_loc, resources_loc in Hcardsloc.
         by rewrite <- app_assoc in Hcardsloc. }
    set (names := ["client"; "Assets"; "Resources"; "Cards"]).
    set (t1 := foldl make_dir (fs w) (descend base names)).
    assert (keeps_dirs (fs w) t1) as Hkeep by apply make_dirs_keeps.
    exists t1. split; [|split; [|done]].
    + unfold main. cbv zeta. rewrite mbind_unfold.
      rewrite (mkdir_cards_ok _ _ here); [|done..|].
      2: { fold base. unfold names.
           change ["client"; "Assets"; "Resources"; "Cards"]
             with (["client"; "Assets"; "Resources"] ++ ["Cards"]).
           rewrite descend_snoc. apply Forall_app. split.
           - eapply Forall_impl; [exact Hdirs|]. intros l Hl.
             apply free_or_dir_true. by right.
           - apply Forall_singleton. unfold cards_loc, resources_loc in Hfree.
             by rewrite <- app_assoc in Hfree. }
      fold base names t1. rewrite mbind_unfold.
      rewrite (mkdir_blocked_at _ (set_fs w t1) here _
                 ["client"; "Assets"; "Resources"] "Chips" [] c); try done.
      * by repeat constructor.
      * by apply (locate_mono w).
      * by apply Hkeep.
      * by apply Hkeep.
      * eapply Forall_impl; [exact Hdirs|]. intros l Hl. by apply Hkeep.
      * cbn [set_fs fs]. unfold t1. rewrite make_dirs_lookup.
        fold base. unfold chips_loc, resources_loc in Hfile.
        rewrite <- app_assoc in Hfile. by rewrite Hfile.
    + intros l Hl. unfold t1. apply make_dirs_other.
      intros Hin. apply Hl. unfold tree_locs. apply elem_of_app. by left.
Qed.

(** X7. A regular file where a directory of the output tree should be
    stops the run before anything is written or printed.  In a tree, when
    one of the five locations of the output tree holds a regular file, the
    run raises [FileExistsError] if the file stands where [Cards] or [Chips]
    should be ([exist_ok] does not cover a file), and [NotADirectoryError]
    if it stands above.  Standard output is as it was, and so is every
    location but the directories of the output tree; when the file is not
    the one for [Chips], the whole file system is as it was. *)
Theorem main_blocked_by_file (script_dir : Path) (w : world) (here d : loc)
    (c : string) :
  tree (fs w) →
  locate w script_dir = Ok here → fs w !! here = Some Dir →
  d ∈ tree_locs (up here) → fs w !! d = Some (File c) →
  ∃ w',
    main script_dir w = (w', Raise (blocked_by (up here) d)) ∧
    stdout w' = stdout w ∧ cwd w' = cwd w ∧
    (∀ l, l ∉ tree_locs (up here) → fs w' !! l = fs w !! l) ∧
    (∀ f, f ∈ outputs (up here) → fs w' !! f.1 = fs w !! f.1) ∧
    (d ≠ chips_loc (up here) → w' = w).
Proof.
  intros Htree Hhere Hdir Hd Hfile.
  destruct (main_blocked script_dir w here d c Htree Hhere Hdir Hd Hfile)
    as (t' & Hmain & Hother & Hsame).
  exists (set_fs w t'). split; [done|]. split; [done|]. split; [done|].
  split; [done|]. split.
  - intros f Hf. apply Hother, outputs_not_tree.
    by apply (list_elem_of_fmap_2 fst).
  - intros Hne. rewrite (Hsame Hne). apply set_fs_id.
Qed.

Lemma main_blocked_by_file_witness :
  tree (fs blocked_world) ∧
  fs blocked_world !! ["srv"; "game"; "client"; "Assets"] = Some (File "notes") ∧
  main example_script_dir blocked_world
  = (blocked_world, Raise NotADirectoryError).
Proof.
  assert (tree (fs blocked_world)) as Htree.
  { apply tree_check_sound. vm_compute. reflexivity. }
  split; [exact Htree|]. split; [reflexivity|].
  destruct (main_blocked_by_file example_script_dir blocked_world
              ["srv"; "game"; "tools"] ["srv"; "game"; "client"; "Assets"]
              "notes" Htree eq_refl eq_refl)
    as (w' & Hmain & _ & _ & _ & _ & Hsame); [|reflexivity|].
  { apply (bool_decide_unpack _). vm_compute. exact I. }
  rewrite Hmain, Hsame; [reflexivity|]. by intros [=].
Defined.

(** ** When a run succeeds *)

(** X8. In a tree where the directory of the script exists, a run returns
    exactly when the world is ready for it: no regular file stands where
    one of the five directories of the output tree should be, and no
    directory stands at one of the 59 output paths.  Any other run raises
    [FileExistsError], [NotADirectoryError] or [IsADirectoryError], and
    no other exception. *)
Theorem main_succeeds_iff (script_dir : Path) (w : world) (here : loc) :
  tree (fs w) →
  locate w script_dir = Ok here → fs w !! here = Some Dir →
  ((main script_dir w).2 = Ok tt ↔ ready script_dir w = true) ∧
  ((main script_dir w).2 = Ok tt ↔
   Forall (λ d, ∀ c, fs w !! d ≠ Some (File c)) (tree_locs (up here)) ∧
   Forall (λ f, fs w !! f.1 ≠ Some Dir) (outputs (up here))) ∧
  (main script_dir w).2
  ∈ [Ok tt; Raise FileExistsError; Raise NotADirectoryError;
     Raise IsADirectoryError].
Proof.
  intros Htree Hhere Hdir.
  pose proof (tree_up _ _ Htree Hdir) as Hbase.
  destruct (decide (Forall (λ d, free_or_dir (fs w) d = true)
                      (tree_locs (up here)))) as [Hfree|Hfile].
  - destruct (main_until script_dir w here Hhere Hdir Hbase Hfree)
      as [out Hmain].
    assert (Forall (λ d, ∀ c, fs w !! d ≠ Some (File c)) (tree_locs (up here)))
      as Hfree'.
    { eapply Forall_impl; [exact Hfree|]. intros d Hd c Hc.
      unfold free_or_dir in Hd. by rewrite Hc in Hd. }
    rewrite Hmain. cbn [snd].
    destruct (forallb _ (outputs (up here))) eqn:Hall.
    + assert (Forall (λ f, is_dir (fs w) f.1 = false) (outputs (up here)))
        as Hfiles.
      { apply Forall_forall. intros f Hf%list_elem_of_In.
        rewrite forallb_forall in Hall. by apply negb_true_iff, Hall. }
      split; [|split].
      * split; [intros _|done]. by apply (ready_intro _ _ here).
      * split; [intros _|done]. split; [done|].
        eapply Forall_impl; [exact Hfiles|]. intros f Hf.
        by apply is_dir_false.
      * rewrite !elem_of_cons. tauto.
    + assert (¬ Forall (λ f, is_dir (fs w) f.1 = false) (outputs (up here)))
        as Hdirs.
      { intros Hfiles. rewrite Forall_forall in Hfiles.
        assert (forallb (λ f, negb (is_dir (fs w) f.1)) (outputs (up here))
                = true) as Hall'; [|congruence].
        apply forallb_forall. intros f Hf%list_elem_of_In.
        by apply negb_true_iff, Hfiles. }
      split; [|split].
      * split; [done|]. intros (here' & Hhere' & _ & _ & _ & Hfiles)%ready_spec.
        assert (here' = here) as -> by congruence. done.
      * split; [done|]. intros [_ Hfiles]. exfalso. apply Hdirs.
        eapply Forall_impl; [exact Hfiles|]. intros f Hf.
        by apply is_dir_false.
      * rewrite !elem_of_cons. tauto.
  - apply not_Forall_Exists in Hfile; [|apply _].
    apply Exists_exists in Hfile as (d & Hd & Hnot).
    assert (∃ c, fs w !! d = Some (File c)) as [c Hc].
    { unfold compose, free_or_dir in Hnot.
      destruct (fs w !! d) as [[|c]|];
        [by destruct Hnot|by exists c|by destruct Hnot]. }
    destruct (main_blocked script_dir w here d c Htree Hhere Hdir Hd Hc)
      as (t' & Hmain & _).
    rewrite Hmain. cbn [snd]. split; [|split].
    + split; [done|]. intros (here' & Hhere' & _ & _ & Hfree & _)%ready_spec.
      assert (here' = here) as -> by congruence.
      rewrite Forall_forall in Hfree. specialize (Hfree d Hd). done.
    + split; [done|]. intros [Hfree _]. rewrite Forall_forall in Hfree.
      by destruct (Hfree d Hd c).
    + unfold blocked_by. rewrite !elem_of_cons. case_decide; tauto.
Qed.

Lemma main_succeeds_iff_witness :
  tree (fs example_world) ∧ tree (fs stuck_world) ∧
  (main example_script_dir example_world).2 = Ok tt ∧
  (main example_script_dir stuck_world).2 ≠ Ok tt.
Proof.
  assert (tree (fs example_world)) as Htree.
  { apply tree_check_sound. vm_compute. reflexivity. }
  assert (tree (fs stuck_world)) as Htree'.
  { apply tree_check_sound. vm_compute. reflexivity. }
  split; [exact Htree|]. split; [exact Htree'|]. split.
  - destruct (main_succeeds_iff example_script_dir example_world
                ["srv"; "game"; "tools"] Htree eq_refl eq_refl)
      as [[_ Hok] _].
    apply Hok. vm_compute. reflexivity.
  - destruct (main_succeeds_iff example_script_dir stuck_world
                ["srv"; "game"; "tools"] Htree' eq_refl eq_refl)
      as [[Hready _] _].
    intros Hok. apply Hready in Hok. vm_compute in Hok. discriminate.
Defined.

(** ** The lines of a run *)

(** X9. What a successful run prints: the first line, a line for each card
    face in the order of writing (suit by suit: hearts, diamonds, clubs,
    spades, and within a suit from the two to the ace), the two lines of
    the card back, a line for each chip in the order of the table, and the
    summary with the counts 59, 52, 1 and 6 and the two output directories.
    The directories are printed as [absolute()] gives them: below the
    working directory when the path of the script is relative, and with
    the [..] of the path kept. *)
Theorem main_report (script_dir : Path) (w : world) :
  ready script_dir w = true →
  let cards_dir := script_dir </> "../client/Assets/Resources/Cards" in
  let chips_dir := script_dir </> "../client/Assets/Resources/Chips" in
  let front := (if is_absolute script_dir then [] else cwd w)
               ++ parts script_dir in
  stdout (main script_dir w).1
  = stdout w ++ spec_report (path_str (absolute_in w cards_dir))
                  (path_str (absolute_in w chips_dir)) ∧
  path_str (absolute_in w cards_dir)
  = "/" +:+ join_slash (front ++ [".."; "client"; "Assets"; "Resources"; "Cards"]) ∧
  path_str (absolute_in w chips_dir)
  = "/" +:+ join_slash (front ++ [".."; "client"; "Assets"; "Resources"; "Chips"]).
Proof.
  intros Hready. cbv zeta. rewrite (main_ok _ _ Hready).
  unfold world_after_main. cbn [fst stdout]. split; [|split].
  - f_equal.
  - rewrite truediv_relative by reflexivity. unfold absolute_in, path_str.
    cbn [is_absolute parts]. destruct (is_absolute script_dir); cbn [is_absolute parts].
    + reflexivity.
    + by rewrite app_assoc.
  - rewrite truediv_relative by reflexivity. unfold absolute_in, path_str.
    cbn [is_absolute parts]. destruct (is_absolute script_dir); cbn [is_absolute parts].
    + reflexivity.
    + by rewrite app_assoc.
Qed.

Lemma main_report_witness :
  ready example_script_dir example_world = true ∧
  last (stdout (main example_script_dir example_world).1)
  = Some "  Chips: /srv/game/tools/../client/Assets/Resources/Chips" ∧
  stdout (main example_script_dir example_world).1 !! 14%nat
  = Some "  Created 2d.svg".
Proof.
  assert (ready example_script_dir example_world = true) as Hready.
  { vm_compute. reflexivity. }
  split; [exact Hready|].
  destruct (main_report example_script_dir example_world Hready)
    as (-> & _ & _).
  split; vm_compute; reflexivity.
Defined.

(** ** A run repeated *)

Lemma forallb_ext_in {X} (f g : X → bool) (xs : list X) :
  (∀ x, x ∈ xs → f x = g x) → forallb f xs = forallb g xs.
Proof.
  induction xs as [|x xs IH]; intros H; [done|]. cbn [forallb].
  rewrite (H x) by by left. rewrite IH; [done|]. intros y Hy. apply H. by right.
Qed.

(** Writing the same files again changes nothing. *)
Lemma put_files_twice (t : gmap (list string) node) (outs : list (loc * string)) :
  NoDup outs.*1 →
  foldl put_file (foldl put_file t outs) outs = foldl put_file t outs.
Proof.
  intros Hnd. apply map_eq. intros l.
  destruct (decide (l ∈ outs.*1)) as [Hin|Hout].
  - apply list_elem_of_fmap in Hin as ([l' c] & -> & Hin). cbn [fst].
    by rewrite !(put_files_in _ outs l' c).
  - by rewrite (put_files_other _ outs l).
Qed.

(** X11. A run repeated ends as it ended and leaves the file system as it
    left it, also when it fails.  Where nothing is in the way of the output
    tree, the second of two runs in a row returns if the first returned and
    raises [IsADirectoryError] if the first did, the file system after it
    is the one the first run left, and the first run has put nothing new
    in the way of the second. *)
Theorem main_twice_any_outcome (script_dir : Path) (w : world) (here : loc) :
  locate w script_dir = Ok here →
  fs w !! here = Some Dir → fs w !! up here = Some Dir →
  Forall (λ d, free_or_dir (fs w) d = true) (tree_locs (up here)) →
  let first := main script_dir w in
  let second := main script_dir first.1 in
  second.2 = first.2 ∧ fs second.1 = fs first.1 ∧
  Forall (λ d, fs first.1 !! d = Some Dir) (tree_locs (up here)) ∧
  Forall (λ f, is_dir (fs first.1) f.1 = is_dir (fs w) f.1) (outputs (up here)).
Proof.
  intros Hhere Hdir Hbase Hfree. cbv zeta. set (base := up here) in *.
  destruct (main_until script_dir w here Hhere Hdir Hbase Hfree)
    as [out Hmain].
  fold base in Hmain. rewrite Hmain. cbn [fst snd].
  set (t2 := foldl make_dir (fs w) (tree_locs base)) in *.
  set (written := until (λ f, is_dir (fs w) f.1) (outputs base)) in *.
  set (t3 := foldl put_file t2 written).
  set (w1 := mkWorld t3 (cwd w) out).
  pose proof (until_sublist (λ f, is_dir (fs w) f.1) (outputs base)) as Hsub.
  fold written in Hsub.
  assert (∀ l, l ∈ (outputs base).*1 → is_dir t2 l = is_dir (fs w) l) as Hsame2.
  { intros l Hl. unfold is_dir, t2. rewrite make_dirs_other; [done|].
    by apply outputs_not_tree. }
  assert (Forall (λ f, is_dir t2 f.1 = false) written) as Hclear.
  { apply Forall_forall. intros f Hf. rewrite Hsame2.
    - by apply (proj1 (Forall_forall _ _)
                  (until_clear (λ f, is_dir (fs w) f.1) (outputs base))).
    - apply (list_elem_of_fmap_2 fst). by eapply elem_of_sublist. }
  assert (∀ l, l ∈ (outputs base).*1 → is_dir t3 l = is_dir (fs w) l) as Hsame3.
  { intros l Hl. unfold t3. rewrite put_files_is_dir_eq by done.
    by apply Hsame2. }
  assert (keeps_dirs (fs w) t3) as Hkeep.
  { apply (keeps_dirs_trans _ t2); [apply make_dirs_keeps|].
    by apply put_files_keeps. }
  assert (Forall (λ d, t3 !! d = Some Dir) (tree_locs base)) as Hmade.
  { apply Forall_forall. intros d Hd. apply (put_files_keeps t2 written Hclear).
    apply make_dirs_made; [done|]. by apply (proj1 (Forall_forall _ _) Hfree). }
  assert (Forall (λ f, is_dir t3 f.1 = is_dir (fs w) f.1) (outputs base))
    as Hsame.
  { apply Forall_forall. intros f Hf. apply Hsame3.
    by apply (list_elem_of_fmap_2 fst). }
  destruct (main_until script_dir w1 here) as [out' Hmain'].
  { by apply (locate_mono w). }
  { by apply Hkeep. }
  { by apply Hkeep. }
  { eapply Forall_impl; [exact Hmade|]. intros d Hd.
    apply free_or_dir_true. by right. }
  fold base in Hmain'. rewrite Hmain'. cbn [fst snd fs w1].
  rewrite Forall_forall in Hsame.
  split; [|split; [|split; [done|by apply Forall_forall]]].
  - rewrite (forallb_ext_in _ (λ f, negb (is_dir (fs w) f.1))); [done|].
    intros f Hf. by rewrite Hsame.
  - rewrite (make_dirs_id t3) by done.
    rewrite (until_ext _ (λ f, is_dir (fs w) f.1)) by (intros f Hf; by apply Hsame).
    fold written. apply put_files_twice.
    eapply sublist_NoDup; [apply outputs_NoDup|]. by apply fmap_sublist.
Qed.

Lemma main_twice_any_outcome_witness :
  locate stuck_world example_script_dir = Ok ["srv"; "game"; "tools"] ∧
  (main example_script_dir (main example_script_dir stuck_world).1).2
  = (main example_script_dir stuck_world).2 ∧
  fs (main example_script_dir (main example_script_dir stuck_world).1).1
  = fs (main example_script_dir stuck_world).1.
Proof.
  split; [reflexivity|].
  assert (Forall (λ d, free_or_dir (fs stuck_world) d = true)
            (tree_locs (up ["srv"; "game"; "tools"]))) as Hfree.
  { apply (bool_decide_unpack _). vm_compute. exact I. }
  destruct (main_twice_any_outcome example_script_dir stuck_world
              ["srv"; "game"; "tools"] eq_refl eq_refl eq_refl Hfree)
    as (Hout & Hfs & _).
  by split.
Defined.
